(** * GitDiffViewer: the diff parser, the selection model and the canvas
      layout of [src/components/GitDiffViewer.tsx], embedded in Rocq.

    Conventions of the embedding.
    - A JavaScript string is a [string]: a sequence of 8-bit code units.
      Of the four line terminators that the regular-expression dot
      excludes, line feed and carriage return are representable.
    - The line numbers of a hunk are doubles, [Js.number]: an integer or
      [Infinity], with [parseInt] and [++] rounding as IEEE 754 does and
      [toString] printing the shortest numeral that reads back.
    - The two id counters are [nat] and pixel lengths are [Z]: numbers
      that stay far below 2^53, where a double holds every integer.
    - Objects that are mutated through an alias (the hunk objects of
      [parseDiff]) live in an explicit heap; values that are only ever
      copied ([map], spread) are plain records. *)

From stdpp Require Import base option list strings pretty.
From Stdlib Require Import ZArith Lia Ascii.
From Stdlib Require QArith.

Local Open Scope string_scope.
Local Open Scope list_scope.
Local Open Scope Z_scope.

(** ** Strings *)

Module Js.

(** [line.startsWith(p)] *)
Definition startsWith (line p : string) : bool := String.prefix p line.

(** [text.split('\n')]: never empty, a trailing line feed yields a final
    empty string. *)
Fixpoint split_lf (s : string) : list string :=
  match s with
  | EmptyString => [EmptyString]
  | String c rest =>
      if Ascii.eqb c "010"%char then EmptyString :: split_lf rest
      else match split_lf rest with
           | h :: t => String c h :: t
           | [] => [String c EmptyString]
           end
  end.

Definition is_digit (c : ascii) : bool :=
  let n := Ascii.nat_of_ascii c in (48 <=? n)%nat && (n <=? 57)%nat.

(** *** Numbers

    The line numbers of [calculateLineNumbers] are made by [parseInt] from a
    string of decimal digits and advanced by [++]: they are IEEE 754 doubles
    that hold a non-negative integer, or [Infinity]. *)
Inductive number :=
| Num (z : Z)       (* a double whose value is the integer z *)
| Infinity.

(** The double nearest to the integer [n >= 0], ties to the even
    significand: every integer up to 2^53 is a double; above, [n] has more
    than 53 significant bits, and its bits below the 53rd are rounded off.
    From 2^1024 - 2^970 on the result is [Infinity]. *)
Definition round_double (n : Z) : number :=
  if n <? 2 ^ 53 then Num n
  else
    let e := Z.log2 n - 52 in
    let q := Z.shiftr n e in
    let r := Z.land n (Z.ones e) in
    let half := 2 ^ (e - 1) in
    let q' := if (half <? r) || ((r =? half) && Z.odd q) then q + 1 else q in
    let v := Z.shiftl q' e in
    if v <? 2 ^ 1024 then Num v else Infinity.

(** the value of the leading decimal digits of [s] *)
Fixpoint parseInt_go (acc : Z) (s : string) : Z :=
  match s with
  | String c r =>
      if is_digit c
      then parseInt_go (10 * acc + Z.of_nat (Ascii.nat_of_ascii c - 48)) r
      else acc
  | EmptyString => acc
  end.

(** [parseInt(s)] for a string that starts with a decimal digit (the
    captures it is applied to are non-empty digit strings, so white space, a
    sign, a radix prefix and the NaN case are absent): the double nearest to
    the value of the digits. *)
Definition parseInt (s : string) : number := round_double (parseInt_go 0 s).

(** [x++] on a variable holding [x]: the new value, [x + 1] as a double *)
Definition incr (x : number) : number :=
  match x with
  | Num z => round_double (z + 1)
  | Infinity => Infinity
  end.

(** [x.toString()]: the digits of the shortest decimal numeral that reads
    back as [x] (the nearest to [x] if there are several, the even one on a
    tie), followed by zeros up to 21 digits, and in exponent notation beyond. *)
Definition reads_as (v z : Z) : bool :=
  match round_double v with
  | Num z' => z' =? z
  | Infinity => false
  end.

Definition n_digits (z : Z) : nat := String.length (pretty z).

(** the numeral [s] and the position [n] of the decimal point, trying [k],
    [k + 1], ... digits; [z] has [d] digits *)
Fixpoint shortest_from (fuel k d : nat) (z : Z) : Z * nat :=
  match fuel with
  | O => (z, d)
  | S fuel' =>
      let p := 10 ^ Z.of_nat (d - k) in
      let lo := z / p in
      let hi := lo + 1 in
      let lo_ok := reads_as (lo * p) z in
      let hi_ok := reads_as (hi * p) z in
      if lo_ok || hi_ok then
        let s :=
          if lo_ok && hi_ok then
            if z - lo * p <? hi * p - z then lo
            else if hi * p - z <? z - lo * p then hi
            else if Z.even lo then lo else hi
          else if lo_ok then lo else hi in
        if s =? 10 ^ Z.of_nat k then (10 ^ Z.of_nat (k - 1), S d) else (s, d)
      else shortest_from fuel' (S k) d z
  end.

Definition toString (x : number) : string :=
  match x with
  | Infinity => "Infinity"
  | Num z =>
      if z =? 0 then "0"
      else
        let d := n_digits z in
        let (s, n) := shortest_from d 1 d z in
        let k := n_digits s in
        if (n <=? 21)%nat then pretty (s * 10 ^ Z.of_nat (n - k))
        else
          match pretty s with
          | String c EmptyString => String c ("e+" +:+ pretty (n - 1)%nat)
          | String c rest => String c ("." +:+ rest +:+ "e+" +:+ pretty (n - 1)%nat)
          | EmptyString => EmptyString
          end
  end.

End Js.

(** ** Regular expressions: the fragment the two patterns use, with the
       backtracking semantics of [String.prototype.match] on a non-global
       pattern (leftmost start, greedy quantifiers). *)

Module Re.

Inductive cls := Digit | Dot.

Definition in_cls (k : cls) (c : ascii) : bool :=
  match k with
  | Digit => Js.is_digit c
  | Dot => negb (Ascii.eqb c "010"%char || Ascii.eqb c "013"%char)
  end.

Inductive t :=
| Lit (s : string)          (* literal characters *)
| Plus (k : cls)            (* k+ *)
| Star (k : cls)            (* k* *)
| Opt (r : t)               (* (?:r)? *)
| Cap (n : nat) (r : t)     (* capture group number n *)
| Seq (r1 r2 : t).

(** captures, by group number *)
Definition caps := list (nat * string).

Definition group (n : nat) (c : caps) : option string :=
  snd <$> List.find (fun p => Nat.eqb (fst p) n) c.

(** [m[n]] of a successful match [m] *)
Definition get (n : nat) (c : caps) : string := default EmptyString (group n c).

Fixpoint strip (p s : string) : option string :=
  match p, s with
  | EmptyString, _ => Some s
  | String a p', String b s' => if Ascii.eqb a b then strip p' s' else None
  | String _ _, EmptyString => None
  end.

Fixpoint take_str (n : nat) (s : string) : string :=
  match n, s with
  | S n', String c r => String c (take_str n' r)
  | _, _ => EmptyString
  end.

Section Match.
Context {R : Type}.

(** greedy [k*]: longest first, then shorter on failure of the rest *)
Fixpoint star (k : cls) (s : string) (cont : string -> option R) : option R :=
  match s with
  | String c rest =>
      if in_cls k c
      then match star k rest cont with
           | Some r => Some r
           | None => cont s
           end
      else cont s
  | EmptyString => cont s
  end.

Definition plus (k : cls) (s : string) (cont : string -> option R) : option R :=
  match s with
  | String c rest => if in_cls k c then star k rest cont else None
  | EmptyString => None
  end.
End Match.

Fixpoint run (r : t) (s : string) (c : caps)
    (cont : string -> caps -> option caps) : option caps :=
  match r with
  | Lit p => match strip p s with
             | Some s' => cont s' c
             | None => None
             end
  | Plus k => plus k s (fun s' => cont s' c)
  | Star k => star k s (fun s' => cont s' c)
  | Opt r1 => match run r1 s c cont with
              | Some x => Some x
              | None => cont s c
              end
  | Cap n r1 =>
      run r1 s c (fun s' c' =>
        cont s' ((n, take_str (String.length s - String.length s') s) :: c'))
  | Seq r1 r2 => run r1 s c (fun s' c' => run r2 s' c' cont)
  end.

Definition at_start (r : t) (s : string) : option caps :=
  run r s [] (fun _ c => Some c).

(** [s.match(r)]: the first position at which the pattern matches *)
Fixpoint search (r : t) (s : string) : option caps :=
  match at_start r s with
  | Some c => Some c
  | None => match s with
            | String _ rest => search r rest
            | EmptyString => None
            end
  end.

Fixpoint seq (l : list t) : t :=
  match l with
  | [] => Lit EmptyString
  | [r] => r
  | r :: l' => Seq r (seq l')
  end.

End Re.

(** ** Data model *)

Record DiffHunk := mkHunk {
  hunk_id : string;
  hunk_header : string;
  hunk_lines : list string;
  hunk_selected : bool
}.

Record DiffFile := mkFile {
  file_id : string;
  file_header : string;
  file_path : string;
  file_hunks : list DiffHunk;
  file_selected : bool
}.

(** The pattern of [extractFilePath]: the literal [diff --git a/], group 1
    (any run of non-terminator characters, greedy), the literal [ b/],
    group 2 (likewise). *)
Definition filePathRe : Re.t :=
  Re.seq [Re.Lit "diff --git a/"; Re.Cap 1 (Re.Star Re.Dot);
          Re.Lit " b/"; Re.Cap 2 (Re.Star Re.Dot)].

Definition extractFilePath (line : string) : string :=
  match Re.search filePathRe line with
  | Some m => Re.get 2 m
  | None => "unknown"
  end.

(** The pattern of [calculateLineNumbers]:
    [@@ -(\d+)(?:,\d+)? \+(\d+)(?:,\d+)? @@]. *)
Definition hunkHeaderRe : Re.t :=
  Re.seq [Re.Lit "@@ -"; Re.Cap 1 (Re.Plus Re.Digit);
          Re.Opt (Re.Seq (Re.Lit ",") (Re.Plus Re.Digit));
          Re.Lit " +"; Re.Cap 2 (Re.Plus Re.Digit);
          Re.Opt (Re.Seq (Re.Lit ",") (Re.Plus Re.Digit));
          Re.Lit " @@"].


(** ** Completions: a call returns normally or throws *)

Inductive completion (A : Type) :=
| Normal (a : A)
| Throw (e : string).
Arguments Normal {A} a.
Arguments Throw {A} e.

#[global] Instance completion_ret : MRet completion := fun _ a => Normal a.
#[global] Instance completion_bind : MBind completion := fun _ _ f c =>
  match c with
  | Normal a => f a
  | Throw e => Throw e
  end.

#[global] Instance completion_fmap : FMap completion := fun _ _ f c =>
  match c with
  | Normal a => Normal (f a)
  | Throw e => Throw e
  end.

(** property access on a nullable variable: a [TypeError] on [null] *)
Definition deref {A} (o : option A) : completion A :=
  match o with
  | Some a => Normal a
  | None => Throw "TypeError: null has no properties"
  end.

(** [if (x)] on a nullable object *)
Definition truthy {A} (o : option A) : bool :=
  match o with
  | Some _ => true
  | None => false
  end.

Fixpoint foldlM {S A} (f : S -> A -> completion S) (s : S) (l : list A)
    : completion S :=
  match l with
  | [] => Normal s
  | a :: l' => s' ← f s a; foldlM f s' l'
  end.

(** ** parseDiff

    The hunk objects are shared: [currentHunk] keeps pointing at the last
    hunk created, also after its file has been pushed to [diffFiles] and a
    new file has been opened, and [currentHunk.lines.push] mutates it in
    place. Hunks therefore live in a heap, and files hold addresses. A file
    object is never written to once it has been pushed ([currentFile] is
    reassigned in the same branch), so files are held by value. *)

Abbreviation addr := nat.

Record FileObj := mkFileObj {
  fo_id : string;
  fo_header : string;
  fo_path : string;
  fo_hunks : list addr;
  fo_selected : bool
}.

Record ParseState := mkPS {
  diffFiles : list FileObj;
  currentFile : option FileObj;
  currentHunk : option addr;
  fileId : nat;
  hunkId : nat;
  heap : list DiffHunk
}.

Definition parse_init : ParseState :=
  {| diffFiles := []; currentFile := None; currentHunk := None;
     fileId := 0; hunkId := 0; heap := [] |}.

Definition LF : string := String "010"%char EmptyString.

Definition load (hp : list DiffHunk) (a : addr) : completion DiffHunk :=
  match hp !! a with
  | Some h => Normal h
  | None => Throw "dangling hunk reference"
  end.

Definition push_line (line : string) (h : DiffHunk) : DiffHunk :=
  {| hunk_id := hunk_id h; hunk_header := hunk_header h;
     hunk_lines := hunk_lines h ++ [line]; hunk_selected := hunk_selected h |}.

(** the body of [lines.forEach] *)
Definition parse_line (st : ParseState) (line : string) : completion ParseState :=
  if Js.startsWith line "diff --git" then
    let pushed := match currentFile st with
                  | Some f => diffFiles st ++ [f]
                  | None => diffFiles st
                  end in
    let n := S (fileId st) in
    Normal {| diffFiles := pushed;
              currentFile := Some {| fo_id := "file-" +:+ pretty n;
                                     fo_header := line;
                                     fo_path := extractFilePath line;
                                     fo_hunks := [];
                                     fo_selected := true |};
              currentHunk := currentHunk st;
              fileId := n; hunkId := hunkId st; heap := heap st |}
  else if Js.startsWith line "---" || Js.startsWith line "+++" then
    if truthy (currentFile st) then
      f ← deref (currentFile st);
      Normal {| diffFiles := diffFiles st;
                currentFile := Some {| fo_id := fo_id f;
                                       fo_header := fo_header f +:+ LF +:+ line;
                                       fo_path := fo_path f;
                                       fo_hunks := fo_hunks f;
                                       fo_selected := fo_selected f |};
                currentHunk := currentHunk st;
                fileId := fileId st; hunkId := hunkId st; heap := heap st |}
    else Normal st
  else if Js.startsWith line "@@" then
    if truthy (currentFile st) then
      let n := S (hunkId st) in
      let a := length (heap st) in
      f ← deref (currentFile st);
      Normal {| diffFiles := diffFiles st;
                currentFile := Some {| fo_id := fo_id f;
                                       fo_header := fo_header f;
                                       fo_path := fo_path f;
                                       fo_hunks := fo_hunks f ++ [a];
                                       fo_selected := fo_selected f |};
                currentHunk := Some a;
                fileId := fileId st; hunkId := n;
                heap := heap st ++ [{| hunk_id := "hunk-" +:+ pretty n;
                                       hunk_header := line;
                                       hunk_lines := [];
                                       hunk_selected := true |}] |}
    else Normal st
  else
    if truthy (currentHunk st) then
      a ← deref (currentHunk st);
      h ← load (heap st) a;
      Normal {| diffFiles := diffFiles st;
                currentFile := currentFile st;
                currentHunk := currentHunk st;
                fileId := fileId st; hunkId := hunkId st;
                heap := <[a := push_line line h]> (heap st) |}
    else Normal st.

(** the files of the final array, the last open file pushed *)
Definition parse_finish (st : ParseState) : list FileObj :=
  match currentFile st with
  | Some f => diffFiles st ++ [f]
  | None => diffFiles st
  end.

Fixpoint loadAll (hp : list DiffHunk) (l : list addr) : completion (list DiffHunk) :=
  match l with
  | [] => Normal []
  | a :: l' => h ← load hp a; hs ← loadAll hp l'; Normal (h :: hs)
  end.

(** the value of a file object, its hunks read from the heap *)
Definition snapshot (hp : list DiffHunk) (f : FileObj) : completion DiffFile :=
  hs ← loadAll hp (fo_hunks f);
  Normal {| file_id := fo_id f; file_header := fo_header f;
            file_path := fo_path f; file_hunks := hs;
            file_selected := fo_selected f |}.

Fixpoint snapshotAll (hp : list DiffHunk) (l : list FileObj)
    : completion (list DiffFile) :=
  match l with
  | [] => Normal []
  | f :: l' => d ← snapshot hp f; ds ← snapshotAll hp l'; Normal (d :: ds)
  end.

Definition parse_run (text : string) : completion ParseState :=
  foldlM parse_line parse_init (Js.split_lf text).

(** [parseDiff(text)]: the array handed to [setParsedDiff] *)
Definition parseDiff (text : string) : completion (list DiffFile) :=
  st ← parse_run text;
  snapshotAll (heap st) (parse_finish st).

Definition nl (l : list string) : string := String.concat LF l.

(** ** Line numbers *)

Record LineNum := mkLineNum { oldLineNum : Js.number; newLineNum : Js.number }.

(** the [hunk.lines.map] of [calculateLineNumbers], the two counters passed
    along *)
Fixpoint number_lines (old new : Js.number) (lines : list string) : list LineNum :=
  match lines with
  | [] => []
  | line :: rest =>
      let result := {| oldLineNum := old; newLineNum := new |} in
      let old' := if negb (Js.startsWith line "+") then Js.incr old else old in
      let new' := if negb (Js.startsWith line "-") then Js.incr new else new in
      result :: number_lines old' new' rest
  end.

Definition calculateLineNumbers (hunk : DiffHunk) : list LineNum :=
  match Re.search hunkHeaderRe (hunk_header hunk) with
  | None => []
  | Some m =>
      number_lines (Js.parseInt (Re.get 1 m)) (Js.parseInt (Re.get 2 m))
                   (hunk_lines hunk)
  end.

(** What the two number columns show for a line (table cells and canvas
    alike): the old number unless the line starts with [+], the new number
    unless it starts with [-]; [None] is a blank cell. *)
Definition shownNumbers (line : string) (n : LineNum)
    : option Js.number * option Js.number :=
  (if negb (Js.startsWith line "+") then Some (oldLineNum n) else None,
   if negb (Js.startsWith line "-") then Some (newLineNum n) else None).

Definition displayedLineNumbers (hunk : DiffHunk)
    : list (option Js.number * option Js.number) :=
  zip_with shownNumbers (hunk_lines hunk) (calculateLineNumbers hunk).

(** ** Display of a line *)

(** [s.substring(1)] *)
Definition substring1 (s : string) : string :=
  match s with
  | EmptyString => EmptyString
  | String _ r => r
  end.

Definition getLinePrefix (line : string) : string :=
  if Js.startsWith line "+" then "+"
  else if Js.startsWith line "-" then "-"
  else " ".

(** the text of the content column, in the table and on the canvas *)
Definition lineContent (line : string) : string :=
  if Js.startsWith line "+" || Js.startsWith line "-" then substring1 line else line.

Definition getLineColor (darkMode : bool) (line : string) : string :=
  if Js.startsWith line "+" then (if darkMode then "bg-green-900" else "bg-green-100")
  else if Js.startsWith line "-" then (if darkMode then "bg-red-900" else "bg-red-100")
  else "".

(** ** Selection *)

Definition set_hunk_selected (b : bool) (hunk : DiffHunk) : DiffHunk :=
  {| hunk_id := hunk_id hunk; hunk_header := hunk_header hunk;
     hunk_lines := hunk_lines hunk; hunk_selected := b |}.

Definition toggleFileSelection (fileId : string) (parsedDiff : list DiffFile)
    : list DiffFile :=
  map (fun file =>
         if String.eqb (file_id file) fileId then
           let newSelected := negb (file_selected file) in
           {| file_id := file_id file; file_header := file_header file;
              file_path := file_path file;
              file_hunks := map (set_hunk_selected newSelected) (file_hunks file);
              file_selected := newSelected |}
         else file)
      parsedDiff.

Definition toggleHunkSelection (fileId hunkId : string)
    (parsedDiff : list DiffFile) : list DiffFile :=
  map (fun file =>
         if String.eqb (file_id file) fileId then
           let updatedHunks :=
             map (fun hunk =>
                    if String.eqb (hunk_id hunk) hunkId
                    then set_hunk_selected (negb (hunk_selected hunk)) hunk
                    else hunk)
                 (file_hunks file) in
           let allHunksSelected := forallb hunk_selected updatedHunks in
           {| file_id := file_id file; file_header := file_header file;
              file_path := file_path file;
              file_hunks := updatedHunks;
              file_selected := allHunksSelected |}
         else file)
      parsedDiff.

Definition selectAll (select : bool) (parsedDiff : list DiffFile)
    : list DiffFile :=
  map (fun file =>
         {| file_id := file_id file; file_header := file_header file;
            file_path := file_path file;
            file_hunks := map (set_hunk_selected select) (file_hunks file);
            file_selected := select |})
      parsedDiff.

(** ** downloadAsImage: filter and measure *)

(** An object with its identity: [indexOf] compares references. *)
Record ref (A : Type) := mkRef { ref_addr : nat; ref_val : A }.
Arguments mkRef {A} _ _.
Arguments ref_addr {A} _.
Arguments ref_val {A} _.

Definition keep_selected_hunks (file : DiffFile) : DiffFile :=
  {| file_id := file_id file; file_header := file_header file;
     file_path := file_path file;
     file_hunks := List.filter hunk_selected (file_hunks file);
     file_selected := file_selected file |}.

(** [parsedDiff.filter(..).map(..).filter(..)]: the [map] allocates one new
    object per file that passes the first filter. *)
Definition selectedFiles (parsedDiff : list DiffFile) : list (ref DiffFile) :=
  let step1 :=
    List.filter (fun file => file_selected file || existsb hunk_selected (file_hunks file))
                parsedDiff in
  let step2 := imap (fun i file => mkRef i (keep_selected_hunks file)) step1 in
  List.filter (fun file => (0 <? Z.of_nat (length (file_hunks (ref_val file))))) step2.

(** [arr.indexOf(x)] on an array of objects: first index holding the same
    reference, -1 when there is none *)
Fixpoint indexOf_from {A} (i : Z) (x : ref A) (arr : list (ref A)) : Z :=
  match arr with
  | [] => -1
  | y :: rest =>
      if Nat.eqb (ref_addr y) (ref_addr x) then i else indexOf_from (i + 1) x rest
  end.
Definition indexOf {A} (arr : list (ref A)) (x : ref A) : Z := indexOf_from 0 x arr.

(** [arr.forEach((x, index) => ..)] threading the accumulator *)
Fixpoint forEach_from {A} (i : nat) (body : Z -> A -> nat -> Z) (acc : Z) (arr : list A) : Z :=
  match arr with
  | [] => acc
  | x :: rest => forEach_from (S i) body (body acc x i) rest
  end.
Definition forEach {A} (body : Z -> A -> nat -> Z) (acc : Z) (arr : list A) : Z :=
  forEach_from 0 body acc arr.

Section Measure.
Variable fontSize : Z.

Definition lineHeight : Z := fontSize + 2.
Definition hunkSpacing : Z := 5.
Definition fileSpacing : Z := 10.
Definition topPadding : Z := 10.
Definition bottomPadding : Z := 10.

Definition measure_hunk (hunks : list DiffHunk)
    (totalHeight : Z) (hunk : DiffHunk) (hunkIndex : nat) : Z :=
  let totalHeight := totalHeight + (fontSize + 4) in
  let totalHeight := totalHeight + Z.of_nat (length (hunk_lines hunk)) * lineHeight in
  if Z.of_nat hunkIndex <? Z.of_nat (length hunks) - 1
  then totalHeight + hunkSpacing
  else totalHeight.

Definition measure_file (files : list (ref DiffFile))
    (totalHeight : Z) (file : ref DiffFile) (_ : nat) : Z :=
  let totalHeight := totalHeight + (fontSize + 8) in
  let hunks := file_hunks (ref_val file) in
  let totalHeight := forEach (measure_hunk hunks) totalHeight hunks in
  if indexOf files file <? Z.of_nat (length files) - 1
  then totalHeight + fileSpacing
  else totalHeight.

Definition totalHeight (files : list (ref DiffFile)) : Z :=
  forEach (measure_file files) topPadding files + bottomPadding.
End Measure.

(** ** downloadAsImage: painting

    The second pass over the selected files: the calls made on the 2D
    context, in order, and the vertical cursor [yOffset]. *)

Record PaintOptions := mkPaint {
  p_fontSize : Z;
  p_darkMode : bool;
  p_showLineNumbers : bool;
  p_width : Z            (* canvas.width *)
}.

Inductive Draw :=
| FillRect (fillStyle : string) (x y w h : Z)
| StrokeRect (strokeStyle : string) (x y w h : Z)
| FillText (fillStyle : string) (text : string) (x y : Z)
| StrokeLine (strokeStyle : string) (x1 : Z) (y1 : QArith_base.Q)
             (x2 : Z) (y2 : QArith_base.Q).

Definition xPadding : Z := 20.
Definition lineNumberPadding (o : PaintOptions) : Z :=
  if p_showLineNumbers o then 80 else 0.

(** [darkMode ? d : l] *)
Definition theme (o : PaintOptions) (d l : string) : string :=
  if p_darkMode o then d else l.

(** a vertical line over the height of a row *)
Definition vline (style : string) (x y h : Z) : Draw :=
  StrokeLine style x (QArith_base.inject_Z y) x (QArith_base.inject_Z (y + h)).

(** [yOffset - hunkSpacing / 2] *)
Definition half_spacing_above (yOffset : Z) : QArith_base.Q :=
  QArith_base.Qminus (QArith_base.inject_Z yOffset)
    (QArith_base.Qdiv (QArith_base.inject_Z 5) (QArith_base.inject_Z 2)).

(** [arr.forEach((x, index) => ..)] threading what the body updates *)
Fixpoint each_from {St A} (i : nat) (body : St -> A -> nat -> St) (s : St) (arr : list A)
    : St :=
  match arr with
  | [] => s
  | x :: rest => each_from (S i) body (body s x i) rest
  end.
Definition each {St A} (body : St -> A -> nat -> St) (s : St) (arr : list A) : St :=
  each_from 0 body s arr.

(** the cursor and the calls made so far *)
Definition Pen : Type := Z * list Draw.

(** the calls of one line of a hunk, the cursor at [yOffset] *)
Definition line_calls (o : PaintOptions) (lineNumbers : option (list LineNum))
    (yOffset : Z) (line : string) (lineIndex : nat) : list Draw :=
  let lineHeight := p_fontSize o + 2 in
  let fill :=
    if Js.startsWith line "+" then theme o "#064e3b" "#d1fae5"
    else if Js.startsWith line "-" then theme o "#7f1d1d" "#fee2e2"
    else "transparent" in
  let numbers :=
    if p_showLineNumbers o then
      match lineNumbers with
      | Some l => l !! lineIndex
      | None => None
      end
    else None in
  (if Js.startsWith line "+" || Js.startsWith line "-"
   then [FillRect fill 0 yOffset (p_width o) lineHeight] else [])
  ++ match numbers with
     | Some numbers =>
         (if negb (Js.startsWith line "+")
          then [FillText (theme o "#94a3b8" "#9ca3af") (Js.toString (oldLineNum numbers))
                         xPadding (yOffset + 1)]
          else [])
         ++ (if negb (Js.startsWith line "-")
             then [FillText (theme o "#94a3b8" "#9ca3af") (Js.toString (newLineNum numbers))
                            (xPadding + 40) (yOffset + 1)]
             else [])
         ++ (if negb (Js.startsWith line "+")
             then [vline (theme o "#475569" "#e5e7eb") (xPadding + 35) yOffset lineHeight]
             else [])
         ++ [vline (theme o "#475569" "#e5e7eb") (xPadding + 75) yOffset lineHeight;
             vline (theme o "#475569" "#e5e7eb") (xPadding + lineNumberPadding o + 15)
                   yOffset lineHeight]
     | None =>
         [vline (theme o "#475569" "#e5e7eb") (xPadding + 15) yOffset lineHeight]
     end
  ++ (let contentXPosition :=
        match numbers with
        | Some _ => xPadding + lineNumberPadding o
        | None => xPadding
        end in
      [FillText (theme o "#e2e8f0" "#1f2937") (getLinePrefix line)
                contentXPosition (yOffset + 1);
       FillText (theme o "#e2e8f0" "#1f2937") (lineContent line)
                (contentXPosition + 20) (yOffset + 1)]).

Definition paint_line (o : PaintOptions) (lineNumbers : option (list LineNum))
    (pen : Pen) (line : string) (lineIndex : nat) : Pen :=
  let (yOffset, drawn) := pen in
  (yOffset + (p_fontSize o + 2),
   drawn ++ line_calls o lineNumbers yOffset line lineIndex).

Definition paint_hunk (o : PaintOptions) (hunks : list DiffHunk)
    (pen : Pen) (hunk : DiffHunk) (hunkIndex : nat) : Pen :=
  let (yOffset, drawn) := pen in
  let hunkHeaderHeight := p_fontSize o + 4 in
  let drawn := drawn ++ [FillRect (theme o "#1f2937" "#f9fafb") 0 yOffset (p_width o)
                                  hunkHeaderHeight;
                         FillText (theme o "#94a3b8" "#6b7280") (hunk_header hunk)
                                  xPadding (yOffset + 2)] in
  let yOffset := yOffset + hunkHeaderHeight in
  let lineNumbers := if p_showLineNumbers o then Some (calculateLineNumbers hunk)
                     else None in
  let (yOffset, drawn) := each (paint_line o lineNumbers) (yOffset, drawn)
                               (hunk_lines hunk) in
  if Z.of_nat hunkIndex <? Z.of_nat (length hunks) - 1 then
    let yOffset := yOffset + 5 in
    (yOffset, drawn ++ [StrokeLine (theme o "#334155" "#e5e7eb")
                                   0 (half_spacing_above yOffset)
                                   (p_width o) (half_spacing_above yOffset)])
  else (yOffset, drawn).

Definition paint_file (o : PaintOptions) (files : list (ref DiffFile))
    (pen : Pen) (file : ref DiffFile) (fileIndex : nat) : Pen :=
  let (yOffset, drawn) := pen in
  let fileHeaderHeight := p_fontSize o + 8 in
  let drawn := drawn ++ [FillRect (theme o "#334155" "#f3f4f6") 0 yOffset (p_width o)
                                  fileHeaderHeight;
                         FillText (theme o "#e2e8f0" "#1f2937") (file_path (ref_val file))
                                  xPadding (yOffset + 4)] in
  let yOffset := yOffset + fileHeaderHeight in
  let hunks := file_hunks (ref_val file) in
  let (yOffset, drawn) := each (paint_hunk o hunks) (yOffset, drawn) hunks in
  if Z.of_nat fileIndex <? Z.of_nat (length files) - 1 then
    (yOffset + 10, drawn ++ [FillRect (theme o "#334155" "#e5e7eb") 0 yOffset (p_width o) 2])
  else (yOffset, drawn).

(** the background and the border, drawn first on a canvas of the height
    measured *)
Definition backdrop (o : PaintOptions) (height : Z) : list Draw :=
  [FillRect (theme o "#1e293b" "#ffffff") 0 0 (p_width o) height;
   StrokeRect (theme o "#334155" "#e5e7eb") 0 0 (p_width o) height].

Definition paint (o : PaintOptions) (files : list (ref DiffFile)) : Pen :=
  each (paint_file o files)
       (10, backdrop o (totalHeight (p_fontSize o) files)) files.

(** ** downloadAsImage: the name of the download *)

(** [s.replace(/[:.]/g, '-')] *)
Fixpoint replace_colons_dots (s : string) : string :=
  match s with
  | EmptyString => EmptyString
  | String c rest =>
      String (if Ascii.eqb c ":" || Ascii.eqb c "." then "-"%char else c)
             (replace_colons_dots rest)
  end.

(** the name given to the download; [now] is what
    [new Date().toISOString()] returns *)
Definition filename (exportName now : string) : string :=
  match exportName with
  | EmptyString => "git-diff-" +:+ replace_colons_dots now +:+ ".png"
  | _ => exportName +:+ ".png"
  end.

(** ** downloadAsImage *)

(** The component state the export reads and writes, and what it gets from
    the page: the container's width when [diffContainerRef.current] is set,
    whether [getContext('2d')] yields a context, and the time as
    [new Date().toISOString()] gives it. *)
Record AppState := mkApp {
  parsedDiff : list DiffFile;
  fontSize : Z;
  darkMode : bool;
  showLineNumbers : bool;
  exportName : string;
  isGeneratingImage : bool
}.

Record Page := mkPage {
  containerWidth : option Z;
  has2dContext : bool;
  isoTime : string
}.

Record Canvas := mkCanvas {
  canvas_width : Z;
  canvas_height : Z;
  canvas_calls : list Draw       (* the calls made on its context, in order *)
}.

(** the link that is clicked: its [download] name and the canvas behind its
    [href] *)
Record Download := mkDownload {
  download_name : string;
  download_canvas : Canvas
}.

Definition set_generating (b : bool) (st : AppState) : AppState :=
  {| parsedDiff := parsedDiff st; fontSize := fontSize st; darkMode := darkMode st;
     showLineNumbers := showLineNumbers st; exportName := exportName st;
     isGeneratingImage := b |}.

(** [downloadAsImage]: the new state and what is downloaded, if anything *)
Definition downloadAsImage (page : Page) (st : AppState) : AppState * option Download :=
  let st := set_generating true st in
  let files := selectedFiles (parsedDiff st) in
  match containerWidth page with
  | None => (set_generating false st, None)
  | Some width =>
      if (length files =? 0)%nat then (set_generating false st, None)
      else
        let h := totalHeight (fontSize st) files in
        if has2dContext page
        then
          let o := {| p_fontSize := fontSize st; p_darkMode := darkMode st;
                      p_showLineNumbers := showLineNumbers st; p_width := width |} in
          (set_generating false st,
           Some {| download_name := filename (exportName st) (isoTime page);
                   download_canvas := {| canvas_width := width; canvas_height := h;
                                         canvas_calls := snd (paint o files) |} |})
        else (set_generating false st, None)
  end.

(** ** Vocabulary of the statements *)

(** the file that two calls of [toggleFileSelection] leave in place of a
    file they address *)
Definition settled (file : DiffFile) : DiffFile :=
  {| file_id := file_id file; file_header := file_header file;
     file_path := file_path file;
     file_hunks := map (set_hunk_selected (file_selected file)) (file_hunks file);
     file_selected := file_selected file |}.

Definition set_file_selected (b : bool) (file : DiffFile) : DiffFile :=
  {| file_id := file_id file; file_header := file_header file;
     file_path := file_path file; file_hunks := file_hunks file;
     file_selected := b |}.

(** everything in a document but the [selected] flags, in order *)
Definition hunk_frame (hunk : DiffHunk) : string * string * list string :=
  (hunk_id hunk, hunk_header hunk, hunk_lines hunk).
Definition file_frame (file : DiffFile)
    : string * string * string * list (string * string * list string) :=
  (file_id file, file_header file, file_path file, map hunk_frame (file_hunks file)).
Definition frame (doc : list DiffFile) := map file_frame doc.

(** a document in a mixed state: the file flag is off, its first hunk is
    deselected and its second hunk is selected *)
Definition mixed_text : string :=
  String.concat LF ["diff --git a/f.ts b/f.ts"; "@@ -1 +1 @@"; "-a"; "+b";
                    "@@ -9 +9 @@"; "-c"; "+d"].
Definition mixed_doc : list DiffFile :=
  [ {| file_id := "file-1"; file_header := "diff --git a/f.ts b/f.ts";
       file_path := "f.ts";
       file_hunks :=
         [ {| hunk_id := "hunk-1"; hunk_header := "@@ -1 +1 @@";
              hunk_lines := ["-a"; "+b"]; hunk_selected := false |};
           {| hunk_id := "hunk-2"; hunk_header := "@@ -9 +9 @@";
              hunk_lines := ["-c"; "+d"]; hunk_selected := true |} ];
       file_selected := false |} ].

(** the per-hunk step of [toggleHunkSelection] *)
Definition flip_if (hunkId : string) (hunk : DiffHunk) : DiffHunk :=
  if String.eqb (hunk_id hunk) hunkId
  then set_hunk_selected (negb (hunk_selected hunk)) hunk
  else hunk.

(** a rename-only file (no hunks) with its flag off, before a file with
    one selected hunk *)
Definition bare_doc : list DiffFile :=
  [ {| file_id := "file-1"; file_header := "diff --git a/old b/new";
       file_path := "new"; file_hunks := []; file_selected := false |};
    {| file_id := "file-2"; file_header := "diff --git a/g b/g";
       file_path := "g";
       file_hunks := [ {| hunk_id := "hunk-1"; hunk_header := "@@ -1 +1 @@";
                          hunk_lines := ["+x"]; hunk_selected := true |} ];
       file_selected := true |} ].

Definition count_lines (p : string -> bool) (lines : list string) : Z :=
  Z.of_nat (length (List.filter p lines)).

(** the hunk of the line-number example *)
Definition example_hunk : DiffHunk :=
  {| hunk_id := "hunk-1"; hunk_header := "@@ -10,3 +20,4 @@";
     hunk_lines := [" ctx1"; "-old1"; "+new1"; "+new2"; " ctx2"];
     hunk_selected := true |}.

(** a hunk whose old side starts at 2^53 *)
Definition stalled_hunk : DiffHunk :=
  {| hunk_id := "hunk-1"; hunk_header := "@@ -9007199254740992,3 +1,3 @@";
     hunk_lines := [" a"; " b"; " c"];
     hunk_selected := true |}.




(** ** Invariant of the scan of [parseDiff]

    The files seen so far are [parse_finish st], in order. Their hunk
    addresses, read file after file, are the heap's addresses in allocation
    order; [currentHunk] is the hunk allocated last; the two counters count
    the files and the hunks created, and the ids are built from them. *)

Definition file_name (k : nat) : string := "file-" +:+ pretty (S k).
Definition hunk_name (k : nat) : string := "hunk-" +:+ pretty (S k).

Definition last_addr (n : nat) : option addr :=
  match n with
  | O => None
  | S k => Some k
  end.

Record parse_inv (st : ParseState) : Prop := mkInv {
  inv_addrs : concat (map fo_hunks (parse_finish st)) = seq 0 (length (heap st));
  inv_cur : currentHunk st = last_addr (length (heap st));
  inv_fileId : fileId st = length (parse_finish st);
  inv_hunkId : hunkId st = length (heap st);
  inv_file_ids : map fo_id (parse_finish st)
                 = map file_name (seq 0 (length (parse_finish st)));
  inv_hunk_ids : map hunk_id (heap st)
                 = map hunk_name (seq 0 (length (heap st)));
  inv_open : currentFile st = None -> diffFiles st = [] /\ heap st = []
}.

(** the lines that open a file *)
Definition opens_file (line : string) : bool := Js.startsWith line "diff --git".

(** a content line: none of the three other classes *)
Definition is_content (line : string) : bool :=
  negb (Js.startsWith line "diff --git")
  && negb (Js.startsWith line "---" || Js.startsWith line "+++")
  && negb (Js.startsWith line "@@").

Definition set_heap (hp : list DiffHunk) (st : ParseState) : ParseState :=
  {| diffFiles := diffFiles st; currentFile := currentFile st;
     currentHunk := currentHunk st; fileId := fileId st; hunkId := hunkId st;
     heap := hp |}.

(** a file value read from a file object over a heap *)
Definition snap_rel (hp : list DiffHunk) (fo : FileObj) (d : DiffFile) : Prop :=
  file_id d = fo_id fo /\ file_header d = fo_header fo
  /\ file_path d = fo_path fo /\ file_selected d = fo_selected fo
  /\ Forall2 (fun a h => hp !! a = Some h) (fo_hunks fo) (file_hunks d).

(** all of a file but the contents of its hunks *)
Definition file_shape (file : DiffFile) : string * string * string * bool * nat :=
  (file_id file, file_header file, file_path file, file_selected file,
   length (file_hunks file)).
Definition fo_shape (fo : FileObj) : string * string * string * bool * nat :=
  (fo_id fo, fo_header fo, fo_path fo, fo_selected fo, length (fo_hunks fo)).

(** the hunks of a document, file after file *)
Definition all_hunks (doc : list DiffFile) : list DiffHunk :=
  concat (map file_hunks doc).

Fixpoint alter_last {A} (g : A -> A) (l : list A) : list A :=
  match l with
  | [] => []
  | [x] => [g x]
  | x :: l' => x :: alter_last g l'
  end.



(** the files an export shows, by value *)
Definition exported (doc : list DiffFile) : list DiffFile :=
  map ref_val (selectedFiles doc).

(** the first file has its flag on but no hunk selected, the second has its
    flag off and one of two hunks selected, the third has no hunks *)
Definition partial_doc : list DiffFile :=
  [ {| file_id := "file-1"; file_header := "diff --git a/p b/p"; file_path := "p";
       file_hunks := [ {| hunk_id := "hunk-1"; hunk_header := "@@ -1 +1 @@";
                          hunk_lines := ["-a"; "+b"]; hunk_selected := false |} ];
       file_selected := true |};
    {| file_id := "file-2"; file_header := "diff --git a/q b/q"; file_path := "q";
       file_hunks := [ {| hunk_id := "hunk-2"; hunk_header := "@@ -1,2 +1,2 @@";
                          hunk_lines := [" c"; "-d"; "+e"]; hunk_selected := true |};
                       {| hunk_id := "hunk-3"; hunk_header := "@@ -7 +7 @@";
                          hunk_lines := ["+f"]; hunk_selected := false |} ];
       file_selected := false |};
    {| file_id := "file-3"; file_header := "diff --git a/r b/s"; file_path := "s";
       file_hunks := []; file_selected := true |} ].

(** counts over the files an export shows *)
Fixpoint sumZ (l : list Z) : Z :=
  match l with
  | [] => 0
  | x :: l' => x + sumZ l'
  end.
Definition n_lines_of_hunk (hunk : DiffHunk) : Z := Z.of_nat (length (hunk_lines hunk)).
Definition n_files (files : list DiffFile) : Z := Z.of_nat (length files).
Definition n_hunks (files : list DiffFile) : Z :=
  sumZ (map (fun file => Z.of_nat (length (file_hunks file))) files).
Definition n_lines (files : list DiffFile) : Z :=
  sumZ (map (fun file => sumZ (map n_lines_of_hunk (file_hunks file))) files).
(** gaps between consecutive hunks of one file, summed over the files *)
Definition hunk_gaps (files : list DiffFile) : Z :=
  sumZ (map (fun file => Z.of_nat (length (file_hunks file)) - 1) files).
(** gaps between consecutive files *)
Definition file_gaps (files : list DiffFile) : Z := Z.of_nat (length files) - 1.

(** the height that the rows of a hunk, and of a file, add *)
Definition hunk_rows (f : Z) (hunk : DiffHunk) : Z :=
  (f + 4) + n_lines_of_hunk hunk * (f + 2).
Definition file_rows (f : Z) (file : DiffFile) : Z :=
  (f + 8) + sumZ (map (hunk_rows f) (file_hunks file))
  + 5 * Z.of_nat (pred (length (file_hunks file))).

(** the height of the claim: paddings, header bands, line rows and gaps *)
Definition height_formula (f : Z) (files : list DiffFile) : Z :=
  10 + 10
  + (f + 8) * n_files files
  + (f + 4) * n_hunks files
  + (f + 2) * n_lines files
  + 5 * hunk_gaps files
  + 10 * file_gaps files.

(** * Further code of the component *)

(** ** updateSelectionSummary *)

Record SelectionCounts := mkCounts {
  cnt_selectedFiles : nat;
  cnt_totalFiles : nat;
  cnt_selectedHunks : nat;
  cnt_totalHunks : nat
}.

(** the four constants of [updateSelectionSummary] *)
Definition selectionCounts (files : list DiffFile) : SelectionCounts :=
  {| cnt_selectedFiles := length (List.filter file_selected files);
     cnt_totalFiles := length files;
     cnt_selectedHunks :=
       fold_left (fun sum file =>
                    (sum + length (List.filter hunk_selected (file_hunks file)))%nat)
                 files 0%nat;
     cnt_totalHunks :=
       fold_left (fun sum file => (sum + length (file_hunks file))%nat) files 0%nat |}.

(** the text handed to [setSelectionSummary] *)
Definition updateSelectionSummary (files : list DiffFile) : string :=
  let c := selectionCounts files in
  pretty (cnt_selectedFiles c) +:+ "/" +:+ pretty (cnt_totalFiles c) +:+ " files, "
  +:+ pretty (cnt_selectedHunks c) +:+ "/" +:+ pretty (cnt_totalHunks c)
  +:+ " hunks selected".

(** A file that has hunks is flagged exactly when all its hunks are: the
    relation between the two levels of flags that the component keeps. *)
Definition flags_agree (file : DiffFile) : Prop :=
  file_hunks file <> [] ->
  file_selected file = forallb hunk_selected (file_hunks file).
Definition consistent (doc : list DiffFile) : Prop := Forall flags_agree doc.

(** ** The preview *)

(** the conditions under which the page dims a file, dims a hunk
    ([opacity-30]) and renders the lines of a hunk *)
Definition previewDimsFile (showPreview : bool) (file : DiffFile) : bool :=
  (negb (file_selected file) && negb (existsb hunk_selected (file_hunks file)))
  && showPreview.
Definition previewDimsHunk (showPreview : bool) (hunk : DiffHunk) : bool :=
  negb (hunk_selected hunk) && showPreview.
Definition previewShowsLines (showPreview : bool) (file : DiffFile) (hunk : DiffHunk)
    : bool :=
  negb showPreview || (file_selected file || hunk_selected hunk).

(** ** Vocabulary for the two patterns *)

(** every character of [s] is in the class *)
Fixpoint all_in (k : Re.cls) (s : string) : bool :=
  match s with
  | EmptyString => true
  | String c r => Re.in_cls k c && all_in k r
  end.

(** a run of the class cannot go on into [s]: [s] is empty or starts with
    a character outside the class *)
Definition stops (k : Re.cls) (s : string) : bool :=
  match s with
  | EmptyString => true
  | String c _ => negb (Re.in_cls k c)
  end.

(** [p] occurs somewhere in [s] *)
Fixpoint has_infix (p s : string) : bool :=
  match Re.strip p s with
  | Some _ => true
  | None => match s with
            | EmptyString => false
            | String _ r => has_infix p r
            end
  end.

(** a non-empty string of decimal digits *)
Definition is_digits (s : string) : bool :=
  match s with
  | EmptyString => false
  | String _ _ => all_in Re.Digit s
  end.

(** the optional [,count] of a hunk header *)
Definition count_part (c : option string) : string :=
  match c with
  | Some ds => "," +:+ ds
  | None => EmptyString
  end.
Definition is_count (c : option string) : bool :=
  match c with
  | Some ds => is_digits ds
  | None => true
  end.

(** ** The scan of [parseDiff], line class by line class

    What a line does to the files seen so far and to the hunks created so
    far, read off the four branches of the loop body. It is the form in
    which the properties of the scan are stated and proved; [parse_line] is
    shown to act in this way on every state the scan reaches. *)

Inductive LineClass := OpensFile | Metadata | HunkHeader | Content.

(** the tests of the loop body, in its order *)
Definition classify (line : string) : LineClass :=
  if Js.startsWith line "diff --git" then OpensFile
  else if Js.startsWith line "---" || Js.startsWith line "+++" then Metadata
  else if Js.startsWith line "@@" then HunkHeader
  else Content.

Definition is_hunk_header (line : string) : bool :=
  match classify line with HunkHeader => true | _ => false end.
Definition is_header_text (line : string) : bool :=
  match classify line with OpensFile | Metadata => true | _ => false end.

Definition new_file_obj (k : nat) (line : string) : FileObj :=
  {| fo_id := file_name k; fo_header := line; fo_path := extractFilePath line;
     fo_hunks := []; fo_selected := true |}.
Definition add_header (line : string) (f : FileObj) : FileObj :=
  {| fo_id := fo_id f; fo_header := fo_header f +:+ LF +:+ line;
     fo_path := fo_path f; fo_hunks := fo_hunks f; fo_selected := fo_selected f |}.
Definition add_hunk (a : addr) (f : FileObj) : FileObj :=
  {| fo_id := fo_id f; fo_header := fo_header f; fo_path := fo_path f;
     fo_hunks := fo_hunks f ++ [a]; fo_selected := fo_selected f |}.
Definition new_hunk (k : nat) (line : string) : DiffHunk :=
  {| hunk_id := hunk_name k; hunk_header := line; hunk_lines := [];
     hunk_selected := true |}.

Definition scan_step (acc : list FileObj * list DiffHunk) (line : string)
    : list FileObj * list DiffHunk :=
  let (files, hp) := acc in
  match classify line with
  | OpensFile => (files ++ [new_file_obj (length files) line], hp)
  | Metadata => (alter_last (add_header line) files, hp)
  | HunkHeader =>
      match files with
      | [] => (files, hp)
      | _ :: _ => (alter_last (add_hunk (length hp)) files,
                   hp ++ [new_hunk (length hp) line])
      end
  | Content => (files, alter_last (push_line line) hp)
  end.

Definition scan (lines : list string) : list FileObj * list DiffHunk :=
  fold_left scan_step lines ([], []).

(** the lines after the first one that satisfies [p] *)
Fixpoint after_first {A} (p : A -> bool) (l : list A) : list A :=
  match l with
  | [] => []
  | x :: r => if p x then r else after_first p r
  end.

(** the lines up to the next one that satisfies [p] *)
Fixpoint take_until {A} (p : A -> bool) (l : list A) : list A :=
  match l with
  | [] => []
  | x :: r => if p x then [] else x :: take_until p r
  end.

(** the sections of a text: one per line that satisfies [p], made of that
    line and the lines up to the next such line; what comes before the
    first is in no section *)
Fixpoint sections_by {A} (p : A -> bool) (l : list A) : list (list A) :=
  match l with
  | [] => []
  | x :: r => if p x then (x :: take_until p r) :: sections_by p r
              else sections_by p r
  end.

Definition snoc {A} (x : A) (l : list A) : list A := l ++ [x].

(** two files, the second with a line between its file line and its hunk *)
Definition spill_text : string :=
  String.concat LF ["diff --git a/x b/x"; "@@ -1 +1 @@"; "+a";
                    "diff --git a/y b/y"; "index 1..2"; "@@ -3 +3 @@"; "-b"].
Definition spill_doc : list DiffFile :=
  [ {| file_id := "file-1"; file_header := "diff --git a/x b/x"; file_path := "x";
       file_hunks := [ {| hunk_id := "hunk-1"; hunk_header := "@@ -1 +1 @@";
                          hunk_lines := ["+a"; "index 1..2"];
                          hunk_selected := true |} ];
       file_selected := true |};
    {| file_id := "file-2"; file_header := "diff --git a/y b/y"; file_path := "y";
       file_hunks := [ {| hunk_id := "hunk-2"; hunk_header := "@@ -3 +3 @@";
                          hunk_lines := ["-b"]; hunk_selected := true |} ];
       file_selected := true |} ].

(** a file with its two metadata lines, and a removed line that starts
    with two more dashes *)
Definition dashes_text : string :=
  String.concat LF ["diff --git a/x b/x"; "--- a/x"; "+++ b/x"; "@@ -1 +1 @@";
                    "--- gone"].
Definition dashes_doc : list DiffFile :=
  [ {| file_id := "file-1";
       file_header := "diff --git a/x b/x" +:+ LF +:+ "--- a/x" +:+ LF +:+ "+++ b/x"
                      +:+ LF +:+ "--- gone";
       file_path := "x";
       file_hunks := [ {| hunk_id := "hunk-1"; hunk_header := "@@ -1 +1 @@";
                          hunk_lines := []; hunk_selected := true |} ];
       file_selected := true |} ].

(** ** The second component of the file: the viewer without selection

    Its [parseDiff] is the same loop over hunks and files that carry no id
    and no [selected] flag; [extractFilePath] is the same function. *)

Module Simple.

Record DiffHunk := mkHunk {
  header : string;
  lines : list string
}.

Record DiffFile := mkFile {
  file_header : string;
  path : string;
  hunks : list DiffHunk
}.

Record FileObj := mkFileObj {
  fo_header : string;
  fo_path : string;
  fo_hunks : list addr
}.

Record ParseState := mkPS {
  diffFiles : list FileObj;
  currentFile : option FileObj;
  currentHunk : option addr;
  heap : list DiffHunk
}.

Definition parse_init : ParseState :=
  {| diffFiles := []; currentFile := None; currentHunk := None; heap := [] |}.

Definition load (hp : list DiffHunk) (a : addr) : completion DiffHunk :=
  match hp !! a with
  | Some h => Normal h
  | None => Throw "dangling hunk reference"
  end.

Definition push_line (line : string) (h : DiffHunk) : DiffHunk :=
  {| header := header h; lines := lines h ++ [line] |}.

Definition parse_line (st : ParseState) (line : string) : completion ParseState :=
  if Js.startsWith line "diff --git" then
    let pushed := match currentFile st with
                  | Some f => diffFiles st ++ [f]
                  | None => diffFiles st
                  end in
    Normal {| diffFiles := pushed;
              currentFile := Some {| fo_header := line;
                                     fo_path := extractFilePath line;
                                     fo_hunks := [] |};
              currentHunk := currentHunk st;
              heap := heap st |}
  else if Js.startsWith line "---" || Js.startsWith line "+++" then
    if truthy (currentFile st) then
      f ← deref (currentFile st);
      Normal {| diffFiles := diffFiles st;
                currentFile := Some {| fo_header := fo_header f +:+ LF +:+ line;
                                       fo_path := fo_path f;
                                       fo_hunks := fo_hunks f |};
                currentHunk := currentHunk st;
                heap := heap st |}
    else Normal st
  else if Js.startsWith line "@@" then
    if truthy (currentFile st) then
      let a := length (heap st) in
      f ← deref (currentFile st);
      Normal {| diffFiles := diffFiles st;
                currentFile := Some {| fo_header := fo_header f;
                                       fo_path := fo_path f;
                                       fo_hunks := fo_hunks f ++ [a] |};
                currentHunk := Some a;
                heap := heap st ++ [{| header := line; lines := [] |}] |}
    else Normal st
  else
    if truthy (currentHunk st) then
      a ← deref (currentHunk st);
      h ← load (heap st) a;
      Normal {| diffFiles := diffFiles st;
                currentFile := currentFile st;
                currentHunk := currentHunk st;
                heap := <[a := push_line line h]> (heap st) |}
    else Normal st.

Definition parse_finish (st : ParseState) : list FileObj :=
  match currentFile st with
  | Some f => diffFiles st ++ [f]
  | None => diffFiles st
  end.

Fixpoint loadAll (hp : list DiffHunk) (l : list addr) : completion (list DiffHunk) :=
  match l with
  | [] => Normal []
  | a :: l' => h ← load hp a; hs ← loadAll hp l'; Normal (h :: hs)
  end.

Definition snapshot (hp : list DiffHunk) (f : FileObj) : completion DiffFile :=
  hs ← loadAll hp (fo_hunks f);
  Normal {| file_header := fo_header f; path := fo_path f; hunks := hs |}.

Fixpoint snapshotAll (hp : list DiffHunk) (l : list FileObj)
    : completion (list DiffFile) :=
  match l with
  | [] => Normal []
  | f :: l' => d ← snapshot hp f; ds ← snapshotAll hp l'; Normal (d :: ds)
  end.

Definition parseDiff (text : string) : completion (list DiffFile) :=
  st ← foldlM parse_line parse_init (Js.split_lf text);
  snapshotAll (heap st) (parse_finish st).

End Simple.

(** a document, a parse state of the first component with ids and flags
    left out *)
Definition plain_hunk (h : DiffHunk) : Simple.DiffHunk :=
  {| Simple.header := hunk_header h; Simple.lines := hunk_lines h |}.
Definition plain_file (f : DiffFile) : Simple.DiffFile :=
  {| Simple.file_header := file_header f; Simple.path := file_path f;
     Simple.hunks := map plain_hunk (file_hunks f) |}.
Definition plain_obj (f : FileObj) : Simple.FileObj :=
  {| Simple.fo_header := fo_header f; Simple.fo_path := fo_path f;
     Simple.fo_hunks := fo_hunks f |}.
Definition plain_state (st : ParseState) : Simple.ParseState :=
  {| Simple.diffFiles := map plain_obj (diffFiles st);
     Simple.currentFile := plain_obj <$> currentFile st;
     Simple.currentHunk := currentHunk st;
     Simple.heap := map plain_hunk (heap st) |}.

(** ** Saved diffs

    The list kept in the component state and mirrored in one slot of the
    browser's local storage. The slot holds the list itself (the JSON text
    in between is not modelled). [Date.now()] and the locale date text are
    read from a clock; whether [localStorage.setItem] succeeds is given. *)

Module Saved.

Definition MAX_STORAGE_SIZE : Z := 1000000.
Definition MAX_SAVED_DIFFS : nat := 10.

Record SavedDiff := mkSaved {
  sd_id : string;
  sd_name : string;
  sd_timestamp : Z;
  sd_diffText : string;
  sd_parsedDiff : list DiffFile
}.

Record State := mkState {
  diffText : string;
  parsedDiff : list DiffFile;
  savedDiffs : list SavedDiff;
  exportName : string;
  currentDiffId : string;
  showSavedDiffs : bool
}.

(** the component state and the storage slot ([None]: no item) *)
Record World := mkWorld {
  state : State;
  stored : option (list SavedDiff)
}.

(** the three readings of the time in [saveDiffToLocalStorage], in order *)
Record Clock := mkClock {
  now_id : Z;
  now_text : string;
  now_stamp : Z
}.

(** a string in a condition: the empty string is falsy *)
Definition non_empty (s : string) : bool :=
  match s with
  | EmptyString => false
  | String _ _ => true
  end.

(** white space of [trim], among 8-bit characters *)
Definition is_space (c : ascii) : bool :=
  let n := Ascii.nat_of_ascii c in
  ((9 <=? n)%nat && (n <=? 13)%nat) || (n =? 32)%nat || (n =? 160)%nat.

Fixpoint trimStart (s : string) : string :=
  match s with
  | EmptyString => EmptyString
  | String c r => if is_space c then trimStart r else s
  end.

Fixpoint trimEnd (s : string) : string :=
  match s with
  | EmptyString => EmptyString
  | String c r =>
      match trimEnd r with
      | EmptyString => if is_space c then EmptyString else String c EmptyString
      | String c' r' => String c (String c' r')
      end
  end.

Definition trim (s : string) : string := trimEnd (trimStart s).

(** [arr.findIndex(p)]: -1 when no element satisfies [p] *)
Fixpoint findIndex_from {A} (i : Z) (p : A -> bool) (arr : list A) : Z :=
  match arr with
  | [] => -1
  | x :: rest => if p x then i else findIndex_from (i + 1) p rest
  end.
Definition findIndex {A} (p : A -> bool) (arr : list A) : Z := findIndex_from 0 p arr.

Definition set_saved (l : list SavedDiff) (cur : string) (st : State) : State :=
  {| diffText := diffText st; parsedDiff := parsedDiff st; savedDiffs := l;
     exportName := exportName st; currentDiffId := cur;
     showSavedDiffs := showSavedDiffs st |}.

(** the effect that runs once, when the component is mounted *)
Definition mount (w : World) : World :=
  match stored w with
  | Some l => {| state := set_saved l (currentDiffId (state w)) (state w);
                 stored := stored w |}
  | None => w
  end.

Definition saveDiffToLocalStorage (clock : Clock) (canWrite : bool) (w : World)
    : World :=
  let st := state w in
  let id := if non_empty (currentDiffId st) then currentDiffId st
            else "diff-" +:+ pretty (now_id clock) in
  let name := if non_empty (exportName st) then exportName st
              else "Diff " +:+ now_text clock in
  let newDiff := {| sd_id := id; sd_name := name; sd_timestamp := now_stamp clock;
                    sd_diffText := diffText st; sd_parsedDiff := parsedDiff st |} in
  let existingIndex := findIndex (fun d => String.eqb (sd_id d) id) (savedDiffs st) in
  let updatedDiffs :=
    if 0 <=? existingIndex
    then <[Z.to_nat existingIndex := newDiff]> (savedDiffs st)
    else newDiff :: savedDiffs st in
  let cur := if 0 <=? existingIndex then currentDiffId st else id in
  let updatedDiffs :=
    if (MAX_SAVED_DIFFS <? length updatedDiffs)%nat
    then take MAX_SAVED_DIFFS updatedDiffs
    else updatedDiffs in
  {| state := set_saved updatedDiffs cur st;
     stored := if canWrite then Some updatedDiffs else stored w |}.

(** the effect that runs when the text or the document changes *)
Definition autosave (clock : Clock) (canWrite : bool) (w : World) : World :=
  if non_empty (diffText (state w)) && (0 <? length (parsedDiff (state w)))%nat then
    if Z.of_nat (String.length (diffText (state w))) <=? MAX_STORAGE_SIZE
    then saveDiffToLocalStorage clock canWrite w
    else w
  else w.

Definition loadSavedDiff (diffId : string) (w : World) : World :=
  match List.find (fun d => String.eqb (sd_id d) diffId) (savedDiffs (state w)) with
  | Some diff =>
      {| state := {| diffText := sd_diffText diff; parsedDiff := sd_parsedDiff diff;
                     savedDiffs := savedDiffs (state w); exportName := sd_name diff;
                     currentDiffId := sd_id diff; showSavedDiffs := false |};
         stored := stored w |}
  | None => w
  end.

(** [deleteSavedDiff] and [renameSavedDiff] write to the storage outside any
    [try]: a failing write is an exception of the call, and what the
    component holds after it is not described *)
Definition deleteSavedDiff (canWrite : bool) (diffId : string) (w : World)
    : completion World :=
  let st := state w in
  let updatedDiffs :=
    List.filter (fun d => negb (String.eqb (sd_id d) diffId)) (savedDiffs st) in
  if canWrite then
    Normal {| state :=
                if String.eqb (currentDiffId st) diffId
                then {| diffText := EmptyString; parsedDiff := [];
                        savedDiffs := updatedDiffs; exportName := EmptyString;
                        currentDiffId := EmptyString;
                        showSavedDiffs := showSavedDiffs st |}
                else set_saved updatedDiffs (currentDiffId st) st;
              stored := Some updatedDiffs |}
  else Throw "setItem failed".

Definition set_name (newName : string) (d : SavedDiff) : SavedDiff :=
  {| sd_id := sd_id d; sd_name := newName; sd_timestamp := sd_timestamp d;
     sd_diffText := sd_diffText d; sd_parsedDiff := sd_parsedDiff d |}.

Definition renameSavedDiff (canWrite : bool) (diffId newName : string) (w : World)
    : completion World :=
  let st := state w in
  if negb (non_empty (trim newName)) then Normal w
  else
    let updatedDiffs :=
      map (fun diff => if String.eqb (sd_id diff) diffId then set_name newName diff
                       else diff)
          (savedDiffs st) in
    if canWrite then
      Normal {| state :=
                  {| diffText := diffText st; parsedDiff := parsedDiff st;
                     savedDiffs := updatedDiffs;
                     exportName := if String.eqb (currentDiffId st) diffId
                                   then newName else exportName st;
                     currentDiffId := currentDiffId st;
                     showSavedDiffs := showSavedDiffs st |};
                stored := Some updatedDiffs |}
    else Throw "setItem failed".

(** the list is within its cap and no two entries share an id *)
Definition well_kept (l : list SavedDiff) : Prop :=
  (length l <= MAX_SAVED_DIFFS)%nat /\ NoDup (map sd_id l).

End Saved.

(** the id and the entry under which [saveDiffToLocalStorage] saves *)
Definition save_id (clock : Saved.Clock) (st : Saved.State) : string :=
  if Saved.non_empty (Saved.currentDiffId st) then Saved.currentDiffId st
  else "diff-" +:+ pretty (Saved.now_id clock).
Definition save_entry (clock : Saved.Clock) (st : Saved.State) : Saved.SavedDiff :=
  {| Saved.sd_id := save_id clock st;
     Saved.sd_name := if Saved.non_empty (Saved.exportName st) then Saved.exportName st
                      else "Diff " +:+ Saved.now_text clock;
     Saved.sd_timestamp := Saved.now_stamp clock;
     Saved.sd_diffText := Saved.diffText st;
     Saved.sd_parsedDiff := Saved.parsedDiff st |}.

Definition has_id (id : string) (d : Saved.SavedDiff) : bool :=
  String.eqb (Saved.sd_id d) id.

(** a list of two saved diffs *)
Definition two_saved : list Saved.SavedDiff :=
  [ {| Saved.sd_id := "diff-200"; Saved.sd_name := "second"; Saved.sd_timestamp := 200;
       Saved.sd_diffText := "diff --git a/g b/g"; Saved.sd_parsedDiff := bare_doc |};
    {| Saved.sd_id := "diff-100"; Saved.sd_name := "first"; Saved.sd_timestamp := 100;
       Saved.sd_diffText := mixed_text; Saved.sd_parsedDiff := mixed_doc |} ].
Definition sample_world : Saved.World :=
  {| Saved.state := {| Saved.diffText := mixed_text; Saved.parsedDiff := mixed_doc;
                       Saved.savedDiffs := two_saved; Saved.exportName := "first";
                       Saved.currentDiffId := "diff-100";
                       Saved.showSavedDiffs := true |};
     Saved.stored := Some two_saved |}.
Definition sample_clock : Saved.Clock :=
  {| Saved.now_id := 300; Saved.now_text := "1/2/2025, 10:00:00 AM";
     Saved.now_stamp := 301 |}.


(** the texts written, in order *)
Definition texts (l : list Draw) : list string :=
  flat_map (fun d => match d with FillText _ t _ _ => [t] | _ => [] end) l.

(** the texts an exported file is expected to show: for each line the
    numbers of its two columns, when they are shown, then its marker and its
    content *)
Definition number_texts (shown : option Js.number * option Js.number) : list string :=
  match fst shown with Some n => [Js.toString n] | None => [] end
  ++ match snd shown with Some n => [Js.toString n] | None => [] end.
Definition line_texts (shown : option (option Js.number * option Js.number)) (line : string)
    : list string :=
  match shown with Some columns => number_texts columns | None => [] end
  ++ [getLinePrefix line; lineContent line].
Definition hunk_texts (showLineNumbers : bool) (hunk : DiffHunk) : list string :=
  hunk_header hunk
  :: concat (imap (fun i line =>
                     line_texts (if showLineNumbers
                                 then displayedLineNumbers hunk !! i else None) line)
                  (hunk_lines hunk)).
Definition file_texts (showLineNumbers : bool) (file : DiffFile) : list string :=
  file_path file :: flat_map (hunk_texts showLineNumbers) (file_hunks file).

(** the calls of a [forEach] whose body moves the cursor by [step] and makes
    the calls [calls] *)
Fixpoint calls_from {A} (i : nat) (step : Z -> A -> nat -> Z)
    (calls : Z -> A -> nat -> list Draw) (yOffset : Z) (arr : list A) : list Draw :=
  match arr with
  | [] => []
  | x :: rest => calls yOffset x i ++ calls_from (S i) step calls (step yOffset x i) rest
  end.

Definition line_step (o : PaintOptions) (yOffset : Z) (_ : string) (_ : nat) : Z :=
  yOffset + (p_fontSize o + 2).

Definition hunk_numbers (o : PaintOptions) (hunk : DiffHunk) : option (list LineNum) :=
  if p_showLineNumbers o then Some (calculateLineNumbers hunk) else None.

Definition hunk_calls (o : PaintOptions) (hunks : list DiffHunk)
    (yOffset : Z) (hunk : DiffHunk) (hunkIndex : nat) : list Draw :=
  [FillRect (theme o "#1f2937" "#f9fafb") 0 yOffset (p_width o) (p_fontSize o + 4);
   FillText (theme o "#94a3b8" "#6b7280") (hunk_header hunk) xPadding (yOffset + 2)]
  ++ calls_from 0 (line_step o) (line_calls o (hunk_numbers o hunk))
                (yOffset + (p_fontSize o + 4)) (hunk_lines hunk)
  ++ (if Z.of_nat hunkIndex <? Z.of_nat (length hunks) - 1
      then [StrokeLine (theme o "#334155" "#e5e7eb")
                       0 (half_spacing_above (yOffset + hunk_rows (p_fontSize o) hunk + 5))
                       (p_width o)
                       (half_spacing_above (yOffset + hunk_rows (p_fontSize o) hunk + 5))]
      else []).

Definition file_step (o : PaintOptions) (files : list (ref DiffFile))
    (yOffset : Z) (file : ref DiffFile) (fileIndex : nat) : Z :=
  yOffset + file_rows (p_fontSize o) (ref_val file)
  + (if Z.of_nat fileIndex <? Z.of_nat (length files) - 1 then 10 else 0).

Definition file_calls (o : PaintOptions) (files : list (ref DiffFile))
    (yOffset : Z) (file : ref DiffFile) (fileIndex : nat) : list Draw :=
  [FillRect (theme o "#334155" "#f3f4f6") 0 yOffset (p_width o) (p_fontSize o + 8);
   FillText (theme o "#e2e8f0" "#1f2937") (file_path (ref_val file))
            xPadding (yOffset + 4)]
  ++ calls_from 0 (measure_hunk (p_fontSize o) (file_hunks (ref_val file)))
                (hunk_calls o (file_hunks (ref_val file)))
                (yOffset + (p_fontSize o + 8)) (file_hunks (ref_val file))
  ++ (if Z.of_nat fileIndex <? Z.of_nat (length files) - 1
      then [FillRect (theme o "#334155" "#e5e7eb")
                     0 (yOffset + file_rows (p_fontSize o) (ref_val file)) (p_width o) 2]
      else []).

(** the page and the state of the samples: a container 800 wide with a 2D
    context; font size 14, dark, line numbers shown, no export name *)
Definition sample_page : Page :=
  {| containerWidth := Some 800; has2dContext := true;
     isoTime := "2025-01-02T10:00:00.000Z" |}.
Definition sample_state (doc : list DiffFile) : AppState :=
  {| parsedDiff := doc; fontSize := 14; darkMode := true; showLineNumbers := true;
     exportName := EmptyString; isGeneratingImage := false |}.


(** ** The documents of the component

    The document in the state is what [parseDiff] returned, as the three
    selection operations have changed it since. *)
Inductive reachable : list DiffFile -> Prop :=
| reach_parse (text : string) (doc : list DiffFile) :
    parseDiff text = Normal doc -> reachable doc
| reach_toggleFile (fid : string) (doc : list DiffFile) :
    reachable doc -> reachable (toggleFileSelection fid doc)
| reach_toggleHunk (fid hid : string) (doc : list DiffFile) :
    reachable doc -> reachable (toggleHunkSelection fid hid doc)
| reach_selectAll (select : bool) (doc : list DiffFile) :
    reachable doc -> reachable (selectAll select doc).

(** no two files share an id, and no two hunks do, within a file or across
    files *)
Definition distinct_ids (doc : list DiffFile) : Prop :=
  NoDup (map file_id doc) /\ NoDup (map hunk_id (all_hunks doc)).

(** the editor gets another text and another document ([setDiffText],
    [setParsedDiff]); the autosave effect runs after such a change *)
Definition edit_content (t : string) (d : list DiffFile) (w : Saved.World)
    : Saved.World :=
  {| Saved.state :=
       {| Saved.diffText := t; Saved.parsedDiff := d;
          Saved.savedDiffs := Saved.savedDiffs (Saved.state w);
          Saved.exportName := Saved.exportName (Saved.state w);
          Saved.currentDiffId := Saved.currentDiffId (Saved.state w);
          Saved.showSavedDiffs := Saved.showSavedDiffs (Saved.state w) |};
     Saved.stored := Saved.stored w |}.

(** * Properties *)

(** ** Lists *)

Lemma map_fixed {A} (g : A -> A) (l : list A) :
  map g l = l <-> forall x, In x l -> g x = x.
Proof.
  induction l as [|a l IH]; simpl.
  - split; [intros _ x [] | reflexivity].
  - split.
    + intros H x [<- | Hx]; [congruence |].
      apply IH; [congruence | assumption].
    + intros H. f_equal; [apply H; now left |].
      apply IH. intros x Hx. apply H. now right.
Qed.

Lemma lookup_map {A B} (f : A -> B) (l : list A) (i : nat) :
  map f l !! i = f <$> (l !! i).
Proof. apply list_lookup_fmap. Qed.

Lemma lookup_In {A} (l : list A) (i : nat) (x : A) : l !! i = Some x -> In x l.
Proof. intros H. apply list_elem_of_In. eapply list_elem_of_lookup_2; eauto. Qed.

(** ** Selection *)

Lemma set_hunk_selected_id (hunk : DiffHunk) :
  set_hunk_selected (hunk_selected hunk) hunk = hunk.
Proof. now destruct hunk. Qed.

Lemma set_hunk_selected_fixed (b : bool) (hunk : DiffHunk) :
  set_hunk_selected b hunk = hunk <-> hunk_selected hunk = b.
Proof.
  split.
  - intros H. now rewrite <- H.
  - intros <-. apply set_hunk_selected_id.
Qed.

Lemma toggleFile_twice_map (doc : list DiffFile) (fid : string) :
  toggleFileSelection fid (toggleFileSelection fid doc) =
  map (fun file => if String.eqb (file_id file) fid then settled file else file) doc.
Proof.
  unfold toggleFileSelection. rewrite map_map. apply map_ext. intros file.
  destruct (String.eqb (file_id file) fid) eqn:E; cbn [file_id]; rewrite E; [|reflexivity].
  unfold settled. cbn. rewrite negb_involutive, map_map. reflexivity.
Qed.

Lemma settled_fixed (file : DiffFile) :
  settled file = file <->
  forall hunk, In hunk (file_hunks file) -> hunk_selected hunk = file_selected file.
Proof.
  split.
  - intros H hunk Hin.
    assert (Hh : map (set_hunk_selected (file_selected file)) (file_hunks file)
                 = file_hunks file) by (rewrite <- H at 3; reflexivity).
    rewrite map_fixed in Hh. now apply set_hunk_selected_fixed, Hh.
  - intros H. destruct file as [i h p hs b]; unfold settled; cbn in *.
    f_equal. apply map_fixed. intros x Hx. now apply set_hunk_selected_fixed, H.
Qed.

(** C1, as stated, fails: the document parsed from [mixed_text] with its
    first hunk toggled off is in a mixed state (file flag false, second hunk
    still selected), and two calls of [toggleFileSelection] on its file leave
    the second hunk deselected. *)
Lemma toggleFile_twice_mixed_counterexample :
  (toggleHunkSelection "file-1" "hunk-1" <$> parseDiff mixed_text) = Normal mixed_doc
  /\ map (fun file => map hunk_selected (file_hunks file))
         (toggleFileSelection "file-1" (toggleFileSelection "file-1" mixed_doc))
     = [[false; false]]
  /\ map (fun file => map hunk_selected (file_hunks file)) mixed_doc
     = [[false; true]]
  /\ toggleFileSelection "file-1" (toggleFileSelection "file-1" mixed_doc)
     <> mixed_doc.
Proof.
  split; [vm_compute; reflexivity|].
  split; [vm_compute; reflexivity|].
  split; [vm_compute; reflexivity|].
  intros H. apply (f_equal (map (fun file => map hunk_selected (file_hunks file)))) in H.
  vm_compute in H. discriminate H.
Qed.

(** C1 (amended): two calls of [toggleFileSelection] with the same id
    restore the [selected] flag of every file, and leave every hunk of an
    addressed file with the flag its file had before; the document is
    restored exactly when each hunk of each addressed file agreed with its
    file's flag beforehand. *)
Theorem toggleFile_twice (doc : list DiffFile) (fid : string) :
  let doc2 := toggleFileSelection fid (toggleFileSelection fid doc) in
  (forall i file, doc !! i = Some file ->
     exists file2, doc2 !! i = Some file2
       /\ file_selected file2 = file_selected file
       /\ map hunk_selected (file_hunks file2) =
          (if String.eqb (file_id file) fid
           then map (fun _ => file_selected file) (file_hunks file)
           else map hunk_selected (file_hunks file)))
  /\ (doc2 = doc <->
      forall file hunk, In file doc -> file_id file = fid ->
        In hunk (file_hunks file) -> hunk_selected hunk = file_selected file).
Proof.
  cbv zeta. rewrite toggleFile_twice_map. split.
  - intros i file Hi. rewrite lookup_map, Hi. cbn.
    destruct (String.eqb (file_id file) fid); eexists; split; try reflexivity.
    + split; [reflexivity|]. cbn. rewrite map_map. reflexivity.
    + split; reflexivity.
  - rewrite map_fixed. split.
    + intros H file hunk Hf Hid Hh. specialize (H file Hf).
      apply String.eqb_eq in Hid. rewrite Hid in H.
      rewrite settled_fixed in H. now apply H.
    + intros H file Hf. destruct (String.eqb (file_id file) fid) eqn:E; [|reflexivity].
      apply String.eqb_eq in E. apply settled_fixed. intros hunk Hh. now apply (H file).
Qed.

Lemma toggleFile_twice_witness :
  toggleFileSelection "file-2" (toggleFileSelection "file-2" bare_doc) = bare_doc.
Proof.
  apply (proj2 (toggleFile_twice bare_doc "file-2")).
  intros file hunk Hf Hid Hh. cbn in Hf.
  destruct Hf as [<-|[<-|[]]]; [discriminate Hid|].
  cbn in Hh. destruct Hh as [<-|[]]. reflexivity.
Defined.

Lemma toggleHunk_lookup (doc : list DiffFile) (fid hid : string) (i : nat)
    (file : DiffFile) :
  doc !! i = Some file -> file_id file = fid ->
  toggleHunkSelection fid hid doc !! i =
  Some {| file_id := file_id file; file_header := file_header file;
          file_path := file_path file;
          file_hunks := map (flip_if hid) (file_hunks file);
          file_selected := forallb hunk_selected (map (flip_if hid) (file_hunks file)) |}.
Proof.
  intros Hi Hid. unfold toggleHunkSelection. rewrite lookup_map, Hi. cbn.
  apply String.eqb_eq in Hid. rewrite Hid. reflexivity.
Qed.

Lemma toggle_other_file (doc : list DiffFile) (fid hid : string) (i : nat)
    (file : DiffFile) :
  doc !! i = Some file -> file_id file <> fid ->
  toggleFileSelection fid doc !! i = Some file
  /\ toggleHunkSelection fid hid doc !! i = Some file.
Proof.
  intros Hi Hid. apply String.eqb_neq in Hid.
  unfold toggleFileSelection, toggleHunkSelection.
  rewrite !lookup_map, Hi. cbn. rewrite Hid. split; reflexivity.
Qed.

Lemma hunk_frame_flip_if (hid : string) (hunk : DiffHunk) :
  hunk_frame (flip_if hid hunk) = hunk_frame hunk.
Proof. unfold flip_if. now destruct (String.eqb _ _). Qed.

Lemma flip_if_other (hid : string) (hunk : DiffHunk) :
  hunk_id hunk <> hid -> flip_if hid hunk = hunk.
Proof. intros H. apply String.eqb_neq in H. unfold flip_if. now rewrite H. Qed.

Lemma map_flip_if_unmatched (hid : string) (hunks : list DiffHunk) :
  (forall h, In h hunks -> hunk_id h <> hid) -> map (flip_if hid) hunks = hunks.
Proof. intros H. apply map_fixed. intros h Hh. now apply flip_if_other, H. Qed.

(** C9: [toggleHunkSelection] on a file with id [fid], for any hunk id:
    when the file has no hunks, its flag is set to true whatever it was;
    when no hunk of the file has the id, the hunks stay as they are and the
    flag is recomputed from them. *)
Theorem toggleHunk_unmatched (doc : list DiffFile) (fid hid : string) (i : nat)
    (file : DiffFile) :
  doc !! i = Some file -> file_id file = fid ->
  (file_hunks file = [] ->
     toggleHunkSelection fid hid doc !! i = Some (set_file_selected true file))
  /\ ((forall h, In h (file_hunks file) -> hunk_id h <> hid) ->
       toggleHunkSelection fid hid doc !! i =
       Some (set_file_selected (forallb hunk_selected (file_hunks file)) file)).
Proof.
  intros Hi Hfid. rewrite (toggleHunk_lookup doc fid hid i file Hi Hfid). split.
  - intros H. unfold set_file_selected. rewrite H. reflexivity.
  - intros H. unfold set_file_selected. now rewrite map_flip_if_unmatched.
Qed.

Lemma toggleHunk_unmatched_witness :
  toggleHunkSelection "file-1" "hunk-7" bare_doc !! 0%nat =
  Some {| file_id := "file-1"; file_header := "diff --git a/old b/new";
          file_path := "new"; file_hunks := []; file_selected := true |}.
Proof.
  exact (proj1 (toggleHunk_unmatched bare_doc "file-1" "hunk-7" 0
                  {| file_id := "file-1"; file_header := "diff --git a/old b/new";
                     file_path := "new"; file_hunks := []; file_selected := false |}
                  eq_refl eq_refl) eq_refl).
Defined.

(** C10: the three selection operations change [selected] flags only: ids,
    header texts, paths and line contents, the order of the files and the
    order of each file's hunks are as before; the two toggles leave every
    file whose id is not the one addressed exactly as it was. *)
Theorem selection_frame (doc : list DiffFile) (fid hid : string) (select : bool) :
  frame (toggleFileSelection fid doc) = frame doc
  /\ frame (toggleHunkSelection fid hid doc) = frame doc
  /\ frame (selectAll select doc) = frame doc
  /\ (forall i file, doc !! i = Some file -> file_id file <> fid ->
        toggleFileSelection fid doc !! i = Some file
        /\ toggleHunkSelection fid hid doc !! i = Some file).
Proof.
  unfold frame, toggleFileSelection, toggleHunkSelection, selectAll.
  rewrite !map_map. repeat split.
  - apply map_ext. intros file. destruct (String.eqb _ _); [|reflexivity].
    unfold file_frame. cbn. now rewrite map_map.
  - apply map_ext. intros file. destruct (String.eqb _ _); [|reflexivity].
    unfold file_frame. cbn. f_equal. rewrite map_map.
    apply map_ext. intros h. apply (hunk_frame_flip_if hid).
  - apply map_ext. intros file. unfold file_frame. cbn. now rewrite map_map.
  - now apply (toggle_other_file doc fid hid i file).
  - now apply (toggle_other_file doc fid hid i file).
Qed.

Lemma selection_frame_witness :
  toggleFileSelection "file-1" bare_doc !! 1%nat = bare_doc !! 1%nat
  /\ toggleHunkSelection "file-1" "hunk-1" bare_doc !! 1%nat = bare_doc !! 1%nat.
Proof.
  refine (proj2 (proj2 (proj2 (selection_frame bare_doc "file-1" "hunk-1" true)))
            1%nat _ eq_refl _).
  discriminate.
Defined.

(** ** Line numbers *)

Lemma count_lines_snoc (p : string -> bool) (lines : list string) (line : string) :
  count_lines p (lines ++ [line]) = count_lines p lines + (if p line then 1 else 0).
Proof.
  unfold count_lines. rewrite List.filter_app, length_app. cbn.
  destruct (p line); cbn; lia.
Qed.


Lemma round_double_exact (z : Z) : z <= 2 ^ 53 -> Js.round_double z = Js.Num z.
Proof.
  intros Hz. unfold Js.round_double.
  destruct (Z.ltb_spec z (2 ^ 53)) as [_|Hge]; [reflexivity|].
  replace z with (2 ^ 53) by lia. vm_compute. reflexivity.
Qed.

Lemma number_lines_length (lines : list string) :
  forall old new, length (number_lines old new lines) = length lines.
Proof. induction lines as [|l lines IH]; intros; cbn; [|rewrite IH]; reflexivity. Qed.







(** ** The scan of parseDiff *)




Lemma parse_init_inv : parse_inv parse_init.
Proof. split; cbn; auto. Qed.

Lemma concat_hunks_snoc (l : list FileObj) (f : FileObj) :
  concat (map fo_hunks (l ++ [f])) = concat (map fo_hunks l) ++ fo_hunks f.
Proof. rewrite map_app, concat_app. cbn. now rewrite app_nil_r. Qed.

Lemma seq_snoc (n : nat) : seq 0 (S n) = seq 0 n ++ [n].
Proof. now rewrite seq_S. Qed.

Lemma last_addr_lookup {A} (l : list A) (a : addr) :
  last_addr (length l) = Some a -> is_Some (l !! a) /\ S a = length l.
Proof.
  destruct (length l) as [|k] eqn:E; cbn; [discriminate|].
  intros [= <-]. split; [|reflexivity]. apply lookup_lt_is_Some. lia.
Qed.

Lemma map_hunk_id_insert (hp : list DiffHunk) (a : addr) (h : DiffHunk) (line : string) :
  hp !! a = Some h ->
  map hunk_id (<[a := push_line line h]> hp) = map hunk_id hp.
Proof.
  intros H. change (hunk_id <$> <[a := push_line line h]> hp = hunk_id <$> hp).
  rewrite list_fmap_insert. apply list_insert_id.
  rewrite list_lookup_fmap, H. reflexivity.
Qed.

(** One line of the scan: it never throws, it keeps the invariant, and it
    adds a file exactly when the line starts with [diff --git]. *)
Lemma parse_line_inv (st : ParseState) (line : string) :
  parse_inv st ->
  exists st', parse_line st line = Normal st'
    /\ parse_inv st'
    /\ map fo_path (parse_finish st')
       = map fo_path (parse_finish st)
         ++ (if opens_file line then [extractFilePath line] else []).
Proof.
  intros Hinv. pose proof Hinv as [Ha Hc Hf Hh Hfi Hhi Ho].
  unfold parse_line, opens_file.
  destruct (Js.startsWith line "diff --git") eqn:E1.
  { eexists. split; [reflexivity|].
    change (match currentFile st with
            | Some f => diffFiles st ++ [f]
            | None => diffFiles st
            end) with (parse_finish st).
    split; [|cbn; now rewrite map_app].
    split; cbn; try assumption.
    - now rewrite concat_hunks_snoc, app_nil_r.
    - rewrite length_app. cbn. lia.
    - rewrite length_app, Nat.add_1_r, seq_snoc, !map_app, Hfi, Hf. reflexivity.
    - discriminate. }
  rewrite app_nil_r.
  destruct (Js.startsWith line "---" || Js.startsWith line "+++") eqn:E2.
  { destruct (currentFile st) as [f|] eqn:Ecf; cbn.
    2:{ exists st. split; [reflexivity|]. split; [exact Hinv|reflexivity]. }
    eexists. split; [reflexivity|].
    unfold parse_finish in *. rewrite Ecf in *. cbn.
    split; [|now rewrite !map_app].
    split; cbn; try assumption.
    - now rewrite concat_hunks_snoc in *.
    - now rewrite length_app in *.
    - now rewrite map_app, length_app in *.
    - discriminate. }
  destruct (Js.startsWith line "@@") eqn:E3.
  { destruct (currentFile st) as [f|] eqn:Ecf; cbn.
    2:{ exists st. split; [reflexivity|]. split; [exact Hinv|reflexivity]. }
    eexists. split; [reflexivity|].
    unfold parse_finish in *. rewrite Ecf in *. cbn.
    split; [|now rewrite !map_app].
    split; cbn; try assumption.
    - rewrite concat_hunks_snoc in *. cbn.
      rewrite length_app, Nat.add_1_r, seq_snoc, app_assoc. now f_equal.
    - now rewrite length_app, Nat.add_1_r.
    - now rewrite length_app in *.
    - rewrite length_app. cbn. lia.
    - now rewrite map_app, length_app in *.
    - rewrite length_app, Nat.add_1_r, seq_snoc, !map_app, Hhi, Hh. reflexivity.
    - discriminate. }
  destruct (currentHunk st) as [a|] eqn:Ech; cbn.
  2:{ exists st. split; [reflexivity|]. split; [exact Hinv|reflexivity]. }
  destruct (last_addr_lookup _ _ (eq_sym Hc)) as [[h Hh'] Hlen].
  unfold load. rewrite Hh'. cbn.
  eexists. split; [reflexivity|].
  split; [|reflexivity].
  split; cbn; rewrite ?length_insert; try assumption.
  - now rewrite map_hunk_id_insert.
  - intros Hn. destruct (Ho Hn) as [? Hnil]. rewrite Hnil in Hh'. discriminate.
Qed.

Lemma parse_fold_inv (lines : list string) :
  forall st, parse_inv st ->
  exists st', foldlM parse_line st lines = Normal st'
    /\ parse_inv st'
    /\ map fo_path (parse_finish st')
       = map fo_path (parse_finish st)
         ++ map extractFilePath (List.filter opens_file lines).
Proof.
  induction lines as [|line lines IH]; intros st Hinv.
  - exists st. cbn. now rewrite app_nil_r.
  - destruct (parse_line_inv st line Hinv) as (st1 & H1 & Hinv1 & Hp1).
    destruct (IH st1 Hinv1) as (st2 & H2 & Hinv2 & Hp2).
    exists st2. cbn [foldlM]. rewrite H1. cbn. split; [exact H2|].
    split; [exact Hinv2|]. rewrite Hp2, Hp1, <- app_assoc. f_equal.
    cbn. destruct (opens_file line); reflexivity.
Qed.

Lemma parse_run_inv (text : string) :
  exists st, parse_run text = Normal st
    /\ parse_inv st
    /\ map fo_path (parse_finish st)
       = map extractFilePath (List.filter opens_file (Js.split_lf text)).
Proof. apply (parse_fold_inv (Js.split_lf text) parse_init parse_init_inv). Qed.

(** ** Reading the document off the heap *)

Lemma loadAll_ok (hp : list DiffHunk) (l : list addr) :
  Forall (fun a => (a < length hp)%nat) l ->
  exists hs, loadAll hp l = Normal hs
    /\ Forall2 (fun a h => hp !! a = Some h) l hs.
Proof.
  induction 1 as [|a l Ha _ IH]; cbn.
  - exists []. split; [reflexivity | constructor].
  - destruct IH as (hs & -> & Hhs).
    destruct (lookup_lt_is_Some_2 _ _ Ha) as [h Hh].
    unfold load. rewrite Hh. cbn. exists (h :: hs).
    split; [reflexivity | now constructor].
Qed.

Lemma snapshotAll_ok (hp : list DiffHunk) (files : list FileObj) :
  Forall (fun a => (a < length hp)%nat) (concat (map fo_hunks files)) ->
  exists doc, snapshotAll hp files = Normal doc
    /\ Forall2 (snap_rel hp) files doc.
Proof.
  induction files as [|f files IH]; cbn; intros H.
  - exists []. split; [reflexivity | constructor].
  - apply Forall_app in H as [Hf Hrest].
    destruct (IH Hrest) as (doc & -> & Hdoc).
    destruct (loadAll_ok hp _ Hf) as (hs & Hl & Hhs).
    unfold snapshot. rewrite Hl. cbn. eexists. split; [reflexivity|].
    constructor; [|exact Hdoc]. repeat split; cbn; auto.
Qed.

Lemma snap_rel_shape (hp : list DiffHunk) (files : list FileObj) (doc : list DiffFile) :
  Forall2 (snap_rel hp) files doc -> map file_shape doc = map fo_shape files.
Proof.
  induction 1 as [|fo d files doc (Hi & Hh & Hp & Hs & Hhs) _ IH]; cbn; [reflexivity|].
  rewrite IH. f_equal. unfold file_shape, fo_shape.
  rewrite Hi, Hh, Hp, Hs. f_equal. symmetry. eapply Forall2_length, Hhs.
Qed.

Lemma snap_rel_hunks (hp : list DiffHunk) (files : list FileObj) (doc : list DiffFile) :
  Forall2 (snap_rel hp) files doc ->
  Forall2 (fun a h => hp !! a = Some h) (concat (map fo_hunks files)) (all_hunks doc).
Proof.
  unfold all_hunks.
  induction 1 as [|fo d files doc (_ & _ & _ & _ & Hhs) _ IH]; cbn; [constructor|].
  now apply Forall2_app.
Qed.

Lemma read_in_order (hp hs : list DiffHunk) :
  Forall2 (fun a h => hp !! a = Some h) (seq 0 (length hp)) hs -> hs = hp.
Proof.
  intros H. apply list_eq. intros i.
  destruct (decide (i < length hp)%nat) as [Hi|Hi].
  - assert (Hs : seq 0 (length hp) !! i = Some i) by (apply lookup_seq; split; [reflexivity|lia]).
    destruct (Forall2_lookup_l _ _ _ _ _ H Hs) as (h & Hh & Hhp). congruence.
  - rewrite (lookup_ge_None_2 hp) by lia.
    apply lookup_ge_None_2. apply Forall2_length in H.
    rewrite length_seq in H. lia.
Qed.

Lemma seq_below (n : nat) : Forall (fun a => (a < n)%nat) (seq 0 n).
Proof. apply Forall_forall. intros a Ha. apply elem_of_seq in Ha. lia. Qed.

(** the document of a state that satisfies the invariant *)
Lemma snapshot_of_inv (st : ParseState) :
  parse_inv st ->
  exists doc, snapshotAll (heap st) (parse_finish st) = Normal doc
    /\ map file_shape doc = map fo_shape (parse_finish st)
    /\ all_hunks doc = heap st.
Proof.
  intros Hinv. pose proof (inv_addrs st Hinv) as Ha.
  destruct (snapshotAll_ok (heap st) (parse_finish st)) as (doc & Hdoc & Hrel).
  { rewrite Ha. apply seq_below. }
  exists doc. split; [exact Hdoc|]. split; [now apply snap_rel_shape with (hp := heap st)|].
  apply snap_rel_hunks in Hrel. rewrite Ha in Hrel. now apply read_in_order.
Qed.

Lemma shape_paths (doc : list DiffFile) (files : list FileObj) :
  map file_shape doc = map fo_shape files -> map file_path doc = map fo_path files.
Proof.
  intros H.
  apply (f_equal (map (fun s : string * string * string * bool * nat => snd (fst (fst s))))) in H.
  now rewrite !map_map in H.
Qed.

(** [parseDiff] returns normally on every text; the paths of the files it
    returns are those extracted from the lines that start with
    [diff --git], in order. *)
Lemma parseDiff_normal (text : string) :
  exists st doc, parse_run text = Normal st
    /\ parse_inv st
    /\ parseDiff text = Normal doc
    /\ map file_shape doc = map fo_shape (parse_finish st)
    /\ all_hunks doc = heap st
    /\ map file_path doc
       = map extractFilePath (List.filter opens_file (Js.split_lf text)).
Proof.
  destruct (parse_run_inv text) as (st & Hrun & Hinv & Hpaths).
  destruct (snapshot_of_inv st Hinv) as (doc & Hdoc & Hshape & Hhunks).
  exists st, doc. unfold parseDiff. rewrite Hrun. cbn.
  split; [reflexivity|]. split; [exact Hinv|]. split; [exact Hdoc|].
  split; [exact Hshape|]. split; [exact Hhunks|].
  now rewrite (shape_paths _ _ Hshape).
Qed.

Lemma filter_none {A} (p : A -> bool) (l : list A) :
  (forall x, In x l -> p x = false) -> List.filter p l = [].
Proof.
  induction l as [|a l IH]; cbn; intros H; [reflexivity|].
  rewrite (H a) by now left. apply IH. intros x Hx. apply H. now right.
Qed.



(** C4, as stated, fails: the line [diff --git foo] does not match the
    [diff --git a/... b/...] pattern, yet it opens a file, whose path is the
    fallback ["unknown"]. *)
Lemma unmatched_header_counterexample :
  Re.search filePathRe "diff --git foo" = None
  /\ parseDiff "diff --git foo"
     = Normal [ {| file_id := "file-1"; file_header := "diff --git foo";
                   file_path := "unknown"; file_hunks := [];
                   file_selected := true |} ].
Proof. split; vm_compute; reflexivity. Qed.

(** C4 (amended): the path extracted from
    [diff --git a/src/old.ts b/src/new.ts] is [src/new.ts], and a text with
    that line has a file with that path. The files of a document are, in
    order, one per line that starts with [diff --git], each with the path
    extracted from its line: a line that does not start with [diff --git]
    creates no file, and a line that starts with it but does not match the
    pattern creates a file with path ["unknown"]. *)
Theorem path_extraction :
  extractFilePath "diff --git a/src/old.ts b/src/new.ts" = "src/new.ts"
  /\ (forall text doc,
        parseDiff text = Normal doc ->
        In "diff --git a/src/old.ts b/src/new.ts" (Js.split_lf text) ->
        exists file, In file doc /\ file_path file = "src/new.ts")
  /\ (forall text doc,
        parseDiff text = Normal doc ->
        map file_path doc
        = map extractFilePath
              (List.filter (fun line => Js.startsWith line "diff --git")
                           (Js.split_lf text)))
  /\ (forall line,
        Re.search filePathRe line = None -> extractFilePath line = "unknown").
Proof.
  assert (Hgen : forall text doc, parseDiff text = Normal doc ->
            map file_path doc
            = map extractFilePath (List.filter opens_file (Js.split_lf text))).
  { intros text doc H.
    destruct (parseDiff_normal text) as (st & doc0 & _ & _ & Hdoc & _ & _ & Hpaths).
    congruence. }
  split; [vm_compute; reflexivity|]. split; [|split].
  - intros text doc Hdoc Hin.
    assert (Hp : In "src/new.ts" (map file_path doc)).
    { rewrite (Hgen text doc Hdoc).
      change "src/new.ts" with (extractFilePath "diff --git a/src/old.ts b/src/new.ts").
      apply in_map, filter_In. split; [exact Hin | reflexivity]. }
    apply in_map_iff in Hp as (file & Hpath & Hfile). now exists file.
  - exact Hgen.
  - intros line H. unfold extractFilePath. now rewrite H.
Qed.

Lemma path_extraction_witness :
  exists file,
    In file [ {| file_id := "file-1";
                 file_header := "diff --git a/src/old.ts b/src/new.ts";
                 file_path := "src/new.ts"; file_hunks := [];
                 file_selected := true |} ]
    /\ file_path file = "src/new.ts".
Proof.
  apply (proj1 (proj2 path_extraction) "diff --git a/src/old.ts b/src/new.ts").
  - vm_compute. reflexivity.
  - cbn. left. reflexivity.
Defined.

(** ** Identifiers of a parsed document *)

Lemma file_name_inj : Inj (=) (=) file_name.
Proof.
  intros j k H. unfold file_name in H.
  apply String.app_inj, (inj pretty) in H. lia.
Qed.

Lemma hunk_name_inj : Inj (=) (=) hunk_name.
Proof.
  intros j k H. unfold hunk_name in H.
  apply String.app_inj, (inj pretty) in H. lia.
Qed.

Lemma NoDup_concat_part {A B} (g : A -> B) (ls : list (list A)) (l : list A) :
  NoDup (map g (concat ls)) -> In l ls -> NoDup (map g l).
Proof.
  induction ls as [|l0 ls IH]; cbn; intros Hnd Hin; [contradiction|].
  rewrite map_app in Hnd. apply NoDup_app in Hnd as (H0 & _ & Hrest).
  destruct Hin as [->|Hin]; [exact H0 | now apply IH].
Qed.

(** The ids that [parseDiff] hands out are distinct: no two files share an
    id, and no two hunks do, within a file or across files. *)
Lemma parsed_ids_distinct (text : string) (doc : list DiffFile) :
  parseDiff text = Normal doc ->
  NoDup (map file_id doc)
  /\ NoDup (map hunk_id (all_hunks doc))
  /\ (forall file, In file doc -> NoDup (map hunk_id (file_hunks file))).
Proof.
  intros Hd.
  destruct (parseDiff_normal text) as (st & doc0 & _ & Hinv & Hdoc & Hshape & Hh & _).
  assert (doc0 = doc) as -> by congruence.
  assert (Hids : map file_id doc = map fo_id (parse_finish st)).
  { apply (f_equal (map (fun s : string * string * string * bool * nat =>
                           fst (fst (fst (fst s)))))) in Hshape.
    now rewrite !map_map in Hshape. }
  assert (Hhunks : NoDup (map hunk_id (all_hunks doc))).
  { rewrite Hh, (inv_hunk_ids st Hinv).
    apply (@NoDup_fmap_2 _ _ hunk_name hunk_name_inj), NoDup_seq. }
  split; [|split; [exact Hhunks|]].
  - rewrite Hids, (inv_file_ids st Hinv).
    apply (@NoDup_fmap_2 _ _ file_name file_name_inj), NoDup_seq.
  - intros file Hin. apply (NoDup_concat_part hunk_id (map file_hunks doc)).
    + exact Hhunks.
    + now apply in_map.
Qed.

(** ** The trailing line feed *)

Lemma set_heap_same (st : ParseState) : set_heap (heap st) st = st.
Proof. now destruct st. Qed.

Lemma insert_alter_last {A} (g : A -> A) (l : list A) :
  forall a x, l !! a = Some x -> S a = length l -> <[a := g x]> l = alter_last g l.
Proof.
  induction l as [|y l IH]; intros a x Hx Hlen; [discriminate|].
  destruct a as [|a]; cbn in *.
  - destruct l; [|discriminate]. now injection Hx as ->.
  - destruct l as [|z l]; [discriminate|].
    rewrite <- (IH a x Hx) by lia. reflexivity.
Qed.

Lemma is_content_false (line : string) :
  is_content line = true ->
  Js.startsWith line "diff --git" = false
  /\ Js.startsWith line "---" || Js.startsWith line "+++" = false
  /\ Js.startsWith line "@@" = false.
Proof.
  unfold is_content. intros H.
  apply andb_prop in H as [H H3]. apply andb_prop in H as [H1 H2].
  apply negb_true_iff in H1, H2, H3. auto.
Qed.

(** a content line is dropped when no hunk has been opened *)
Lemma content_line_dropped (st : ParseState) (line : string) :
  currentHunk st = None -> is_content line = true -> parse_line st line = Normal st.
Proof.
  intros Hcur Hc. apply is_content_false in Hc as (E1 & E2 & E3).
  unfold parse_line. now rewrite E1, E2, E3, Hcur.
Qed.

(** a content line goes to the hunk opened last, whichever file holds it *)
Lemma content_line_pushed (st : ParseState) (line : string) :
  parse_inv st -> is_content line = true ->
  parse_line st line
  = Normal (set_heap (alter_last (push_line line) (heap st)) st).
Proof.
  intros Hinv Hc. pose proof (inv_cur st Hinv) as Hcur.
  destruct (currentHunk st) as [a|] eqn:Ech.
  - destruct (last_addr_lookup _ _ (eq_sym Hcur)) as [[h Hh] Hlen].
    apply is_content_false in Hc as (E1 & E2 & E3).
    unfold parse_line. rewrite E1, E2, E3, Ech. cbn. unfold load. rewrite Hh. cbn.
    rewrite (insert_alter_last _ _ _ _ Hh Hlen). unfold set_heap. now rewrite Ech.
  - rewrite (content_line_dropped st line Ech Hc).
    destruct (heap st) eqn:Eh; [|discriminate]. cbn.
    now rewrite <- Eh, set_heap_same.
Qed.






(** ** The export: filtering *)

Lemma filter_imap_val {A B} (k : A -> B) (q : B -> bool) (l : list A) :
  forall mk : nat -> nat,
    map ref_val (List.filter (fun r => q (ref_val r))
                             (imap (fun i x => mkRef (mk i) (k x)) l))
    = List.filter q (map k l).
Proof.
  induction l as [|x l IH]; intros mk; cbn; [reflexivity|].
  specialize (IH (mk ∘ S)). unfold compose in *.
  destruct (q (k x)); cbn; now rewrite IH.
Qed.

Lemma existsb_filter_length {A} (p : A -> bool) (l : list A) :
  (0 <? Z.of_nat (length (List.filter p l))) = existsb p l.
Proof.
  induction l as [|x l IH]; cbn; [reflexivity|].
  destruct (p x); cbn; [|exact IH]. apply Z.ltb_lt. lia.
Qed.

Lemma exported_eq (doc : list DiffFile) :
  exported doc =
  List.filter (fun file => 0 <? Z.of_nat (length (file_hunks file)))
    (map keep_selected_hunks
       (List.filter (fun file => file_selected file
                                 || existsb hunk_selected (file_hunks file)) doc)).
Proof.
  unfold exported, selectedFiles.
  apply (filter_imap_val keep_selected_hunks
           (fun file => 0 <? Z.of_nat (length (file_hunks file)))).
Qed.

Lemma exported_closed (doc : list DiffFile) :
  exported doc =
  map keep_selected_hunks
      (List.filter (fun file => existsb hunk_selected (file_hunks file)) doc).
Proof.
  rewrite exported_eq. induction doc as [|file doc IH]; [reflexivity|].
  cbn [List.filter].
  destruct (existsb hunk_selected (file_hunks file)) eqn:E.
  - rewrite orb_true_r. cbn. rewrite existsb_filter_length, E. cbn. now rewrite IH.
  - rewrite orb_false_r. destruct (file_selected file); [|exact IH].
    cbn. rewrite existsb_filter_length, E. exact IH.
Qed.

Lemma download_keeps_document (page : Page) (st : AppState) :
  parsedDiff (fst (downloadAsImage page st)) = parsedDiff st
  /\ fontSize (fst (downloadAsImage page st)) = fontSize st.
Proof.
  unfold downloadAsImage.
  destruct (containerWidth page); [|split; reflexivity].
  destruct (length _ =? 0)%nat; [split; reflexivity|].
  destruct (has2dContext page); split; reflexivity.
Qed.

Lemma export_filter_sample :
  exported partial_doc
  = [ {| file_id := "file-2"; file_header := "diff --git a/q b/q"; file_path := "q";
         file_hunks := [ {| hunk_id := "hunk-2"; hunk_header := "@@ -1,2 +1,2 @@";
                            hunk_lines := [" c"; "-d"; "+e"]; hunk_selected := true |} ];
         file_selected := false |} ].
Proof. vm_compute. reflexivity. Qed.

(** ** The export: measuring *)

Lemma indexOf_from_distinct {A} (arr : list (ref A)) :
  NoDup (map ref_addr arr) ->
  forall (i : Z) (j : nat) (x : ref A),
    arr !! j = Some x -> indexOf_from i x arr = i + Z.of_nat j.
Proof.
  induction arr as [|y arr IH]; intros Hnd i j x Hj; [discriminate|].
  cbn [map] in Hnd. apply NoDup_cons in Hnd as [Hy Hnd].
  destruct j as [|j]; cbn in Hj |- *.
  - injection Hj as ->. rewrite Nat.eqb_refl. lia.
  - destruct (Nat.eqb (ref_addr y) (ref_addr x)) eqn:E.
    + apply Nat.eqb_eq in E. exfalso. apply Hy. rewrite E.
      apply list_elem_of_In, in_map, (lookup_In _ j), Hj.
    + rewrite (IH Hnd _ j x Hj). lia.
Qed.

Lemma measure_hunk_rows (f : Z) (all : list DiffHunk) (acc : Z) (hunk : DiffHunk)
    (i : nat) :
  measure_hunk f all acc hunk i
  = acc + hunk_rows f hunk
    + (if Z.of_nat i <? Z.of_nat (length all) - 1 then 5 else 0).
Proof.
  unfold measure_hunk, hunk_rows, n_lines_of_hunk, lineHeight, hunkSpacing.
  destruct (Z.of_nat i <? Z.of_nat (length all) - 1); ring.
Qed.

Lemma forEach_hunks (f : Z) (all rest : list DiffHunk) :
  forall (i : nat) (acc : Z),
    length all = (i + length rest)%nat ->
    forEach_from i (measure_hunk f all) acc rest
    = acc + sumZ (map (hunk_rows f) rest) + 5 * Z.of_nat (pred (length rest)).
Proof.
  induction rest as [|hunk rest IH]; intros i acc Hlen.
  - cbn. lia.
  - cbn [forEach_from]. rewrite IH by (cbn [length] in Hlen; lia).
    rewrite measure_hunk_rows. cbn [map sumZ].
    generalize (sumZ (map (hunk_rows f) rest)) (hunk_rows f hunk). intros s r.
    destruct rest as [|h' rest]; cbn [length pred] in *;
      destruct (Z.ltb_spec (Z.of_nat i) (Z.of_nat (length all) - 1)); lia.
Qed.

Lemma measure_file_rows (f : Z) (all : list (ref DiffFile)) (acc : Z)
    (file : ref DiffFile) (i : nat) :
  measure_file f all acc file i
  = acc + file_rows f (ref_val file)
    + (if indexOf all file <? Z.of_nat (length all) - 1 then 10 else 0).
Proof.
  unfold measure_file, file_rows, forEach, fileSpacing.
  rewrite (forEach_hunks f (file_hunks (ref_val file)) (file_hunks (ref_val file)) 0)
    by reflexivity.
  destruct (indexOf all file <? Z.of_nat (length all) - 1); ring.
Qed.

Lemma forEach_files (f : Z) (all : list (ref DiffFile)) :
  NoDup (map ref_addr all) ->
  forall (rest pre : list (ref DiffFile)) (acc : Z),
    all = pre ++ rest ->
    forEach_from (length pre) (measure_file f all) acc rest
    = acc + sumZ (map (file_rows f) (map ref_val rest))
      + 10 * Z.of_nat (pred (length rest)).
Proof.
  intros Hnd. induction rest as [|file rest IH]; intros pre acc Hall.
  - cbn. lia.
  - cbn [forEach_from].
    replace (S (length pre)) with (length (pre ++ [file])) by (rewrite length_app; cbn; lia).
    rewrite IH by (now rewrite <- app_assoc).
    assert (Hidx : indexOf all file = Z.of_nat (length pre)).
    { unfold indexOf. rewrite (indexOf_from_distinct all Hnd 0 (length pre) file); [lia|].
      rewrite Hall. apply list_lookup_middle. reflexivity. }
    assert (Hlen : length all = (length pre + S (length rest))%nat)
      by (rewrite Hall, length_app; reflexivity).
    rewrite measure_file_rows, Hidx. cbn [map sumZ].
    generalize (sumZ (map (file_rows f) (map ref_val rest)))
               (file_rows f (ref_val file)). intros s r.
    destruct rest as [|g rest]; cbn [length pred] in *;
      destruct (Z.ltb_spec (Z.of_nat (length pre)) (Z.of_nat (length all) - 1)); lia.
Qed.

Lemma imap_addrs {A B} (k : A -> B) (l : list A) :
  forall mk : nat -> nat,
    map ref_addr (imap (fun i x => mkRef (mk i) (k x)) l) = map mk (seq 0 (length l)).
Proof.
  induction l as [|x l IH]; intros mk; [reflexivity|].
  cbn [imap map length seq]. f_equal.
  rewrite <- seq_shift, map_map. exact (IH (fun i => mk (S i))).
Qed.

Lemma NoDup_filter_addrs {A} (q : ref A -> bool) (l : list (ref A)) :
  NoDup (map ref_addr l) -> NoDup (map ref_addr (List.filter q l)).
Proof.
  induction l as [|x l IH]; cbn; intros H; [constructor|].
  apply NoDup_cons in H as [Hx Hl]. destruct (q x); cbn; [|now apply IH].
  apply NoDup_cons. split; [|now apply IH].
  intros Hin. apply Hx. apply list_elem_of_In in Hin. apply list_elem_of_In.
  apply in_map_iff in Hin as (y & Hy & Hin). apply filter_In in Hin as [Hin _].
  apply in_map_iff. now exists y.
Qed.

(** the objects that [selectedFiles] returns are distinct *)
Lemma selectedFiles_distinct (doc : list DiffFile) :
  NoDup (map ref_addr (selectedFiles doc)).
Proof.
  unfold selectedFiles. apply NoDup_filter_addrs.
  rewrite (imap_addrs keep_selected_hunks _ (fun i => i)), map_id.
  apply NoDup_seq.
Qed.

Lemma totalHeight_rows (f : Z) (doc : list DiffFile) :
  totalHeight f (selectedFiles doc)
  = 10 + sumZ (map (file_rows f) (exported doc))
    + 10 * Z.of_nat (pred (length (exported doc))) + 10.
Proof.
  unfold totalHeight, forEach, topPadding, bottomPadding, exported.
  rewrite (forEach_files f _ (selectedFiles_distinct doc) (selectedFiles doc) [])
    by reflexivity.
  now rewrite length_map.
Qed.

Lemma hunk_rows_sum (f : Z) (hunks : list DiffHunk) :
  sumZ (map (hunk_rows f) hunks)
  = (f + 4) * Z.of_nat (length hunks) + (f + 2) * sumZ (map n_lines_of_hunk hunks).
Proof.
  induction hunks as [|hunk hunks IH]; [cbn; ring|].
  cbn [map sumZ length]. rewrite IH, Nat2Z.inj_succ. unfold hunk_rows, Z.succ. ring.
Qed.

Lemma file_rows_sum (f : Z) (files : list DiffFile) :
  Forall (fun file => file_hunks file <> []) files ->
  sumZ (map (file_rows f) files)
  = (f + 8) * n_files files + (f + 4) * n_hunks files
    + (f + 2) * n_lines files + 5 * hunk_gaps files.
Proof.
  unfold n_files, n_hunks, n_lines, hunk_gaps.
  induction 1 as [|file files Hne _ IH]; [cbn; ring|].
  cbn [map sumZ length]. rewrite IH, Nat2Z.inj_succ.
  unfold file_rows. rewrite hunk_rows_sum.
  assert (Hp : Z.of_nat (pred (length (file_hunks file)))
               = Z.of_nat (length (file_hunks file)) - 1).
  { destruct (file_hunks file); [contradiction|]. cbn [length pred]. lia. }
  rewrite Hp. unfold Z.succ. ring.
Qed.

Lemma exported_has_hunks (doc : list DiffFile) :
  Forall (fun file => file_hunks file <> []) (exported doc).
Proof.
  apply Forall_forall. intros file Hin. apply list_elem_of_In in Hin.
  rewrite exported_eq in Hin. apply filter_In in Hin as [_ Hlen].
  intros Hnil. rewrite Hnil in Hlen. discriminate.
Qed.

Lemma download_state (page : Page) (st : AppState) :
  fst (downloadAsImage page st) = set_generating false st.
Proof.
  unfold downloadAsImage.
  destruct (containerWidth page); [|reflexivity].
  destruct (length _ =? 0)%nat; [reflexivity|].
  destruct (has2dContext page); reflexivity.
Qed.

(** C7: for a non-empty filtered selection and any font size the canvas
    height is 10 + 10, plus f + 8 per file shown, f + 4 per hunk shown,
    f + 2 per line shown, 5 per gap between consecutive hunks of a file and
    10 per gap between consecutive files; it is the height of the canvas
    that the export produces, and a second export of the same selection
    with the same options produces the same canvas. *)
Theorem export_height (doc : list DiffFile) (f : Z) :
  exported doc <> [] ->
  totalHeight f (selectedFiles doc) = height_formula f (exported doc)
  /\ (forall page st width,
        parsedDiff st = doc -> fontSize st = f ->
        containerWidth page = Some width -> has2dContext page = true ->
        exists download,
          snd (downloadAsImage page st) = Some download
          /\ canvas_width (download_canvas download) = width
          /\ canvas_height (download_canvas download)
             = height_formula f (exported doc))
  /\ (forall page st,
        parsedDiff st = doc -> fontSize st = f ->
        snd (downloadAsImage page (fst (downloadAsImage page st)))
        = snd (downloadAsImage page st)).
Proof.
  intros Hne.
  assert (Hh : totalHeight f (selectedFiles doc) = height_formula f (exported doc)).
  { rewrite totalHeight_rows, (file_rows_sum f _ (exported_has_hunks doc)).
    unfold height_formula, file_gaps, n_files.
    destruct (exported doc) as [|g rest]; [contradiction|]. cbn [length pred]. lia. }
  split; [exact Hh|]. split.
  - intros page st width <- <- Hw Hc. unfold downloadAsImage. rewrite Hw, Hc.
    change (parsedDiff (set_generating true st)) with (parsedDiff st).
    change (fontSize (set_generating true st)) with (fontSize st).
    destruct (selectedFiles (parsedDiff st)) as [|r rs] eqn:E.
    + exfalso. apply Hne. unfold exported. now rewrite E.
    + cbn [length Nat.eqb snd]. eexists. split; [reflexivity|].
      split; [reflexivity|]. exact Hh.
  - intros page st _ _. rewrite download_state. reflexivity.
Qed.

Lemma export_height_witness :
  totalHeight 14 (selectedFiles partial_doc) = 108.
Proof.
  assert (Hne : exported partial_doc <> []) by (vm_compute; discriminate).
  rewrite (proj1 (export_height partial_doc 14 Hne)).
  vm_compute. reflexivity.
Defined.

(** * Further properties *)

(** ** The selection summary *)

Lemma fold_left_count {A} (g : A -> nat) (l : list A) :
  forall a, fold_left (fun sum x => (sum + g x)%nat) l a = (a + list_sum (map g l))%nat.
Proof.
  induction l as [|x l IH]; intros a; [cbn; lia|].
  cbn [fold_left map]. rewrite IH.
  change (list_sum (g x :: map g l)) with (g x + list_sum (map g l))%nat. lia.
Qed.

Lemma filter_set_selected (b : bool) (hunks : list DiffHunk) :
  List.filter hunk_selected (map (set_hunk_selected b) hunks)
  = if b then map (set_hunk_selected b) hunks else [].
Proof.
  induction hunks as [|h hunks IH]; cbn; [now destruct b|].
  rewrite IH. now destruct b.
Qed.

Lemma selectAll_files_filter (b : bool) (doc : list DiffFile) :
  length (List.filter file_selected (selectAll b doc))
  = if b then length doc else 0%nat.
Proof.
  unfold selectAll. induction doc as [|f doc IH]; cbn; [now destruct b|].
  destruct b; cbn; now rewrite IH.
Qed.

Lemma selectAll_selected_hunks (b : bool) (doc : list DiffFile) :
  list_sum (map (fun file => length (List.filter hunk_selected (file_hunks file)))
                (selectAll b doc))
  = if b then list_sum (map (fun file => length (file_hunks file)) doc) else 0%nat.
Proof.
  unfold selectAll. rewrite map_map. cbn [file_hunks].
  induction doc as [|f doc IH]; [now destruct b|].
  cbn [map]. change (list_sum (?x :: ?l)) with (x + list_sum l)%nat.
  rewrite filter_set_selected.
  destruct b; cbn [map list_sum fold_right length Nat.add] in *.
  - rewrite length_map. f_equal. exact IH.
  - exact IH.
Qed.

Lemma selectAll_total_hunks (b : bool) (doc : list DiffFile) :
  list_sum (map (fun file => length (file_hunks file)) (selectAll b doc))
  = list_sum (map (fun file => length (file_hunks file)) doc).
Proof.
  unfold selectAll. rewrite map_map. cbn [file_hunks]. f_equal.
  apply map_ext. intros f. apply length_map.
Qed.

(** X1: after [selectAll(true)] the summary counts every file and every
    hunk as selected; after [selectAll(false)] it counts none; the totals
    are those of the document before. *)
Theorem selectAll_counts (doc : list DiffFile) :
  let c := selectionCounts doc in
  selectionCounts (selectAll true doc)
  = {| cnt_selectedFiles := cnt_totalFiles c; cnt_totalFiles := cnt_totalFiles c;
       cnt_selectedHunks := cnt_totalHunks c; cnt_totalHunks := cnt_totalHunks c |}
  /\ selectionCounts (selectAll false doc)
  = {| cnt_selectedFiles := 0; cnt_totalFiles := cnt_totalFiles c;
       cnt_selectedHunks := 0; cnt_totalHunks := cnt_totalHunks c |}.
Proof.
  cbv zeta. unfold selectionCounts. cbn [cnt_totalFiles cnt_totalHunks].
  rewrite !selectAll_files_filter, !fold_left_count.
  rewrite !selectAll_selected_hunks, !selectAll_total_hunks.
  assert (Hlen : forall b, length (selectAll b doc) = length doc)
    by (intros b; apply length_map).
  rewrite !Hlen. split; reflexivity.
Qed.




(** ** The two levels of selection flags *)

Lemma forallb_set_selected (b : bool) (hunks : list DiffHunk) :
  hunks <> [] -> forallb hunk_selected (map (set_hunk_selected b) hunks) = b.
Proof.
  intros Hne. destruct hunks as [|h hunks]; [contradiction|]. clear Hne.
  destruct b; cbn.
  - induction hunks as [|h' hunks IH]; cbn; [reflexivity | exact IH].
  - reflexivity.
Qed.

Lemma map_nonempty {A B} (g : A -> B) (l : list A) : map g l <> [] -> l <> [].
Proof. now destruct l. Qed.

Lemma toggleFile_consistent (fid : string) (doc : list DiffFile) :
  consistent doc -> consistent (toggleFileSelection fid doc).
Proof.
  unfold consistent, toggleFileSelection. intros H.
  apply Forall_forall. intros g Hg. apply list_elem_of_In, in_map_iff in Hg as (f & <- & Hf).
  apply list_elem_of_In in Hf. rewrite Forall_forall in H. specialize (H f Hf).
  destruct (String.eqb (file_id f) fid); [|exact H].
  intros Hne. cbn in *. symmetry. apply forallb_set_selected.
  now apply map_nonempty in Hne.
Qed.

Lemma toggleHunk_consistent (fid hid : string) (doc : list DiffFile) :
  consistent doc -> consistent (toggleHunkSelection fid hid doc).
Proof.
  unfold consistent, toggleHunkSelection. intros H.
  apply Forall_forall. intros g Hg. apply list_elem_of_In, in_map_iff in Hg as (f & <- & Hf).
  apply list_elem_of_In in Hf. rewrite Forall_forall in H. specialize (H f Hf).
  destruct (String.eqb (file_id f) fid); [|exact H].
  intros _. reflexivity.
Qed.

Lemma selectAll_consistent (b : bool) (doc : list DiffFile) :
  consistent (selectAll b doc).
Proof.
  unfold consistent, selectAll.
  apply Forall_forall. intros g Hg. apply list_elem_of_In, in_map_iff in Hg as (f & <- & Hf).
  intros Hne. cbn in *. symmetry. apply forallb_set_selected.
  now apply map_nonempty in Hne.
Qed.

Lemma bare_doc_consistent : consistent bare_doc.
Proof.
  unfold consistent, bare_doc.
  apply Forall_cons. split; [intros Hne; now cbn in Hne|].
  apply Forall_cons. split; [intros _; reflexivity | constructor].
Qed.

Lemma flip_if_twice (hid : string) (hunk : DiffHunk) :
  flip_if hid (flip_if hid hunk) = hunk.
Proof.
  unfold flip_if. destruct (String.eqb (hunk_id hunk) hid) eqn:E.
  - cbn [hunk_id set_hunk_selected]. rewrite E. destruct hunk. cbn.
    now rewrite negb_involutive.
  - now rewrite E.
Qed.

(** X4: on a document whose flags agree, toggling the same hunk twice
    gives the document back, provided the files addressed have hunks (for a
    file without hunks the two calls leave the flag on). *)
Theorem toggleHunk_twice (doc : list DiffFile) (fid hid : string) :
  consistent doc ->
  (forall file, In file doc -> file_id file = fid -> file_hunks file <> []) ->
  toggleHunkSelection fid hid (toggleHunkSelection fid hid doc) = doc.
Proof.
  intros Hc Hne. unfold toggleHunkSelection. rewrite map_map.
  apply map_fixed. intros f Hf.
  destruct (String.eqb (file_id f) fid) eqn:E; cbn [file_id]; rewrite E; [|reflexivity].
  cbn [file_hunks file_header file_path].
  fold (flip_if hid). rewrite map_map.
  assert (Hh : map (fun h => flip_if hid (flip_if hid h)) (file_hunks f) = file_hunks f).
  { apply map_fixed. intros h _. apply flip_if_twice. }
  unfold flip_if in Hh |- *. rewrite Hh.
  unfold consistent in Hc. rewrite Forall_forall in Hc.
  apply list_elem_of_In in Hf as Hf'. specialize (Hc f Hf').
  apply String.eqb_eq in E. rewrite <- (Hc (Hne f Hf E)). now destruct f.
Qed.

Lemma toggleHunk_twice_witness :
  toggleHunkSelection "file-2" "hunk-1" (toggleHunkSelection "file-2" "hunk-1" bare_doc)
  = bare_doc.
Proof.
  apply toggleHunk_twice; [exact bare_doc_consistent|].
  intros file Hin Hid. cbn in Hin. destruct Hin as [<-|[<-|[]]]; [discriminate Hid|].
  discriminate.
Defined.

(** X5: [selectAll] overrides whatever selection came before it: applied
    after a toggle or after another [selectAll], it gives what it gives on
    the document itself. *)
Theorem selectAll_absorbs (doc : list DiffFile) (fid hid : string) (b c : bool) :
  selectAll b (toggleFileSelection fid doc) = selectAll b doc
  /\ selectAll b (toggleHunkSelection fid hid doc) = selectAll b doc
  /\ selectAll b (selectAll c doc) = selectAll b doc.
Proof.
  unfold selectAll, toggleFileSelection, toggleHunkSelection.
  rewrite !map_map. repeat split; apply map_ext; intros f.
  - destruct (String.eqb _ _); [|reflexivity]. cbn. f_equal.
    rewrite map_map. reflexivity.
  - destruct (String.eqb _ _); [|reflexivity]. cbn. f_equal.
    rewrite map_map. apply map_ext. intros h.
    destruct (String.eqb _ _); reflexivity.
  - cbn. f_equal. rewrite map_map. reflexivity.
Qed.

(** X6: after one [toggleFileSelection] the hunks of the file carry the
    file's flag, so from then on toggling is an involution: three calls with
    the same id give what one call gives. *)
Theorem toggleFile_thrice (doc : list DiffFile) (fid : string) :
  toggleFileSelection fid (toggleFileSelection fid (toggleFileSelection fid doc))
  = toggleFileSelection fid doc.
Proof.
  rewrite toggleFile_twice_map. apply map_fixed. intros g Hg.
  destruct (String.eqb (file_id g) fid) eqn:E; [|reflexivity].
  apply settled_fixed. intros hunk Hh.
  unfold toggleFileSelection in Hg. apply in_map_iff in Hg as (f & <- & _).
  destruct (String.eqb (file_id f) fid) eqn:Ef.
  - cbn in Hh |- *. apply in_map_iff in Hh as (h & <- & _). reflexivity.
  - rewrite Ef in E. discriminate.
Qed.

(** ** Display of a line *)

Lemma startsWith_char (line : string) (c : ascii) :
  Js.startsWith line (String c EmptyString) = true ->
  line = String c (substring1 line).
Proof.
  unfold Js.startsWith. destruct line as [|a line]; cbn; [discriminate|].
  destruct (Ascii.ascii_dec c a) as [->|Hne]; [reflexivity|].
  discriminate.
Qed.

Lemma startsWith_head (c : ascii) (rest : string) :
  Js.startsWith (String c rest) (String c EmptyString) = true.
Proof.
  unfold Js.startsWith. cbn. destruct (Ascii.ascii_dec c c); [|contradiction].
  now destruct rest.
Qed.

(** X7: the marker column and the content column of a line. For an added
    line the marker is ["+"], for a removed line it is ["-"], and in both
    cases the content is the line without this first character; the row is
    tinted green, respectively red, in the shade of the theme. Any other
    line is shown whole, leading space included, behind a blank marker, and
    is not tinted. *)
Theorem line_columns (darkMode : bool) :
  (forall rest,
     getLinePrefix (String "+" rest) = "+"
     /\ lineContent (String "+" rest) = rest
     /\ getLineColor darkMode (String "+" rest)
        = (if darkMode then "bg-green-900" else "bg-green-100"))
  /\ (forall rest,
        getLinePrefix (String "-" rest) = "-"
        /\ lineContent (String "-" rest) = rest
        /\ getLineColor darkMode (String "-" rest)
           = (if darkMode then "bg-red-900" else "bg-red-100"))
  /\ (forall line,
        (forall rest, line <> String "+" rest) ->
        (forall rest, line <> String "-" rest) ->
        getLinePrefix line = " " /\ lineContent line = line
        /\ getLineColor darkMode line = EmptyString).
Proof.
  split; [|split].
  - intros rest. unfold getLinePrefix, lineContent, getLineColor.
    rewrite (startsWith_head "+" rest). repeat split; reflexivity.
  - intros rest. unfold getLinePrefix, lineContent, getLineColor.
    rewrite (startsWith_head "-" rest).
    change (Js.startsWith (String "-" rest) "+") with false.
    repeat split; reflexivity.
  - intros line Hplus Hminus.
    assert (Hp : Js.startsWith line "+" = false).
    { destruct (Js.startsWith line "+") eqn:E; [|reflexivity].
      exfalso. apply (Hplus (substring1 line)). now apply startsWith_char. }
    assert (Hm : Js.startsWith line "-" = false).
    { destruct (Js.startsWith line "-") eqn:E; [|reflexivity].
      exfalso. apply (Hminus (substring1 line)). now apply startsWith_char. }
    unfold getLinePrefix, lineContent, getLineColor. rewrite Hp, Hm. cbn. auto.
Qed.

Lemma line_columns_witness :
  getLinePrefix " ctx1" = " " /\ lineContent " ctx1" = " ctx1"
  /\ getLinePrefix "-old1" = "-" /\ lineContent "-old1" = "old1".
Proof.
  destruct (proj2 (proj2 (line_columns true)) " ctx1"
              ltac:(discriminate) ltac:(discriminate)) as (H1 & H2 & _).
  destruct (proj1 (proj2 (line_columns true)) "old1") as (H3 & H4 & _).
  repeat split; assumption.
Defined.

(** ** The preview and the export *)

Lemma no_hunk_selected (hunks : list DiffHunk) :
  hunks <> [] -> existsb hunk_selected hunks = false ->
  forallb hunk_selected hunks = false.
Proof.
  destruct hunks as [|h hunks]; [contradiction|]. intros _. cbn.
  destruct (hunk_selected h); [discriminate | reflexivity].
Qed.

Lemma undimmed_with_hunks (file : DiffFile) :
  flags_agree file ->
  negb (previewDimsFile true file) && negb (length (file_hunks file) =? 0)%nat
  = existsb hunk_selected (file_hunks file).
Proof.
  unfold flags_agree, previewDimsFile. intros H.
  revert H. destruct (file_hunks file) as [|h hs]; intros H.
  - cbn. apply andb_false_r.
  - rewrite H by discriminate. cbn.
    destruct (hunk_selected h), (forallb hunk_selected hs),
      (existsb hunk_selected hs); reflexivity.
Qed.

(** X8: on a document whose flags agree, preview mode shows what the
    export contains: the files that are not dimmed and have hunks are the
    exported files, each exported with its hunks that are not dimmed, and
    the lines of a hunk are rendered exactly when the hunk is selected. (A
    flagged file without hunks is not dimmed, and is not exported.) *)
Theorem preview_matches_export (doc : list DiffFile) :
  consistent doc ->
  exported doc
  = map (fun file =>
           {| file_id := file_id file; file_header := file_header file;
              file_path := file_path file;
              file_hunks := List.filter (fun hunk => negb (previewDimsHunk true hunk))
                                        (file_hunks file);
              file_selected := file_selected file |})
        (List.filter (fun file => negb (previewDimsFile true file)
                                  && negb (length (file_hunks file) =? 0)%nat) doc)
  /\ (forall file hunk, In file doc -> In hunk (file_hunks file) ->
        previewShowsLines true file hunk = hunk_selected hunk).
Proof.
  intros Hc. unfold consistent in Hc. rewrite Forall_forall in Hc. split.
  - rewrite exported_closed.
    rewrite (filter_ext_in (fun file => negb (previewDimsFile true file)
                                        && negb (length (file_hunks file) =? 0)%nat)
                           (fun file => existsb hunk_selected (file_hunks file))).
    + apply map_ext. intros f. unfold keep_selected_hunks. f_equal.
      apply filter_ext. intros h. unfold previewDimsHunk.
      now destruct (hunk_selected h).
    + intros f Hf. apply list_elem_of_In in Hf. apply undimmed_with_hunks, Hc, Hf.
  - intros f h Hf Hh. apply list_elem_of_In in Hf. specialize (Hc f Hf).
    unfold previewShowsLines, flags_agree in *. cbn.
    destruct (hunk_selected h) eqn:E; [apply orb_true_r|].
    rewrite orb_false_r. rewrite Hc.
    + apply not_true_is_false. intros Hall. rewrite forallb_forall in Hall.
      rewrite (Hall h Hh) in E. discriminate.
    + intros Hnil. rewrite Hnil in Hh. contradiction.
Qed.

Lemma preview_matches_export_witness :
  previewShowsLines true
    {| file_id := "file-2"; file_header := "diff --git a/g b/g"; file_path := "g";
       file_hunks := [ {| hunk_id := "hunk-1"; hunk_header := "@@ -1 +1 @@";
                          hunk_lines := ["+x"]; hunk_selected := true |} ];
       file_selected := true |}
    {| hunk_id := "hunk-1"; hunk_header := "@@ -1 +1 @@";
       hunk_lines := ["+x"]; hunk_selected := true |}
  = true.
Proof.
  apply (proj2 (preview_matches_export bare_doc bare_doc_consistent)).
  - cbn. right. left. reflexivity.
  - cbn. left. reflexivity.
Defined.

(** ** The greedy star of the matcher *)

Lemma str_cons (x : ascii) (a b : string) : String x a +:+ b = String x (a +:+ b).
Proof. reflexivity. Qed.

Lemma str_nil (b : string) : EmptyString +:+ b = b.
Proof. reflexivity. Qed.

Ltac str_norm := rewrite ?str_cons, ?str_nil.
Ltac str_norm_in H := rewrite ?str_cons, ?str_nil in H.

Lemma str_app_nil_r (a : string) : a +:+ EmptyString = a.
Proof. induction a as [|x a IH]; str_norm; [reflexivity | f_equal; exact IH]. Qed.

Lemma str_app_assoc (a b c : string) : (a +:+ b) +:+ c = a +:+ (b +:+ c).
Proof. induction a as [|x a IH]; str_norm; [reflexivity | f_equal; exact IH]. Qed.

Lemma str_length_app (a b : string) :
  String.length (a +:+ b) = (String.length a + String.length b)%nat.
Proof. induction a as [|x a IH]; str_norm; cbn; [reflexivity | f_equal; exact IH]. Qed.

Lemma take_str_app (a r : string) : Re.take_str (String.length a) (a +:+ r) = a.
Proof.
  induction a as [|x a IH]; str_norm; cbn; [now destruct r | f_equal; exact IH].
Qed.

Lemma captured (a r : string) :
  Re.take_str (String.length (a +:+ r) - String.length r) (a +:+ r) = a.
Proof.
  rewrite str_length_app.
  replace (String.length a + String.length r - String.length r)%nat
    with (String.length a) by lia.
  apply take_str_app.
Qed.

Lemma strip_app (p s : string) : Re.strip p (p +:+ s) = Some s.
Proof.
  induction p as [|x p IH]; str_norm; cbn; [now destruct s|].
  now rewrite Ascii.eqb_refl.
Qed.

(** no way of cutting the run lets the rest match: the star fails *)
Lemma star_none {R} (k : Re.cls) (s : string) (cont : string -> option R) :
  (forall u t, s = u +:+ t -> all_in k u = true -> cont t = None) ->
  Re.star k s cont = None.
Proof.
  induction s as [|c s IH]; intros H; cbn.
  - apply (H EmptyString EmptyString); reflexivity.
  - destruct (Re.in_cls k c) eqn:E.
    + rewrite IH.
      * apply (H EmptyString (String c s)); reflexivity.
      * intros u t -> Hu. apply (H (String c u) t); [reflexivity|].
        cbn. now rewrite E.
    + apply (H EmptyString (String c s)); reflexivity.
Qed.

(** the star gives back characters until the rest matches: with the rest
    matching after [pre] and after no longer run, the star takes [pre] *)
Lemma star_backtrack {R} (k : Re.cls) (pre suf : string)
    (cont : string -> option R) (r : R) :
  all_in k pre = true ->
  cont suf = Some r ->
  (forall u t, suf = u +:+ t -> u <> EmptyString -> all_in k u = true ->
               cont t = None) ->
  Re.star k (pre +:+ suf) cont = Some r.
Proof.
  intros Hpre Hsuf Hlater. induction pre as [|c pre IH]; str_norm.
  - destruct suf as [|c s]; cbn; [exact Hsuf|].
    destruct (Re.in_cls k c) eqn:E; [|exact Hsuf].
    rewrite star_none; [exact Hsuf|].
    intros u t -> Hu. apply (Hlater (String c u) t); [reflexivity|discriminate|].
    cbn. now rewrite E.
  - cbn in Hpre |- *. apply andb_prop in Hpre as [Hc Hpre].
    rewrite Hc, (IH Hpre). reflexivity.
Qed.

Lemma star_stop {R} (k : Re.cls) (pre suf : string)
    (cont : string -> option R) (r : R) :
  all_in k pre = true -> stops k suf = true -> cont suf = Some r ->
  Re.star k (pre +:+ suf) cont = Some r.
Proof.
  intros Hpre Hstop Hsuf. apply star_backtrack; [exact Hpre | exact Hsuf|].
  intros u t -> Hne Hu. destruct u as [|c u]; [contradiction|].
  str_norm_in Hstop.
  cbn in Hstop, Hu. apply andb_prop in Hu as [Hc _]. rewrite Hc in Hstop. discriminate.
Qed.

Lemma search_at_start (r : Re.t) (s : string) (c : Re.caps) :
  Re.at_start r s = Some c -> Re.search r s = Some c.
Proof. intros H. destruct s; cbn; now rewrite H. Qed.

(** ** The path of a header line *)

Lemma has_infix_suffix (p u t : string) :
  has_infix p (u +:+ t) = false -> Re.strip p t = None.
Proof.
  induction u as [|c u IH]; str_norm; intros H.
  - destruct t; cbn in H; destruct (Re.strip p _); congruence.
  - cbn in H. destruct (Re.strip p (String c (u +:+ t))); [discriminate|].
    apply IH, H.
Qed.

Lemma split_within (k : Re.cls) (new tail u t : string) :
  all_in k u = true -> stops k tail = true -> new +:+ tail = u +:+ t ->
  exists t', new = u +:+ t' /\ t = t' +:+ tail.
Proof.
  revert u. induction new as [|c new IH]; intros u Hu Hstop Heq.
  - str_norm_in Heq. destruct u as [|x u].
    + exists EmptyString. str_norm_in Heq. str_norm. auto.
    + str_norm_in Heq. cbn in Hu. apply andb_prop in Hu as [Hx _]. subst tail.
      cbn in Hstop. rewrite Hx in Hstop. discriminate.
  - destruct u as [|x u].
    + exists (String c new). str_norm_in Heq. str_norm. auto.
    + str_norm_in Heq. cbn in Hu. injection Heq as <- Heq.
      apply andb_prop in Hu as [_ Hu].
      destruct (IH u Hu Hstop Heq) as (t' & -> & ->). exists t'. now str_norm.
Qed.

Lemma strip_boundary (k : Re.cls) (p t tail : string) :
  all_in k p = true -> stops k tail = true -> Re.strip p t = None ->
  Re.strip p (t +:+ tail) = None.
Proof.
  revert t. induction p as [|a p IH]; intros t Hp Hstop Hnone; [discriminate|].
  cbn in Hp. apply andb_prop in Hp as [Ha Hp].
  destruct t as [|b t]; str_norm; cbn in *.
  - destruct tail as [|c tail]; [reflexivity|].
    destruct (Ascii.eqb a c) eqn:E; [|reflexivity].
    apply Ascii.eqb_eq in E. subst c. cbn in Hstop. rewrite Ha in Hstop. discriminate.
  - destruct (Ascii.eqb a b); [now apply IH | reflexivity].
Qed.

Lemma no_later_b (new tail u t : string) :
  has_infix " b/" new = false -> stops Re.Dot tail = true ->
  " b/" +:+ new +:+ tail = u +:+ t -> u <> EmptyString -> all_in Re.Dot u = true ->
  Re.strip " b/" t = None.
Proof.
  intros Hinf Hstop Heq Hne Hu. str_norm_in Heq.
  destruct u as [|c1 u]; [contradiction|]. str_norm_in Heq. injection Heq as <- Heq.
  destruct u as [|c2 u]; [str_norm_in Heq; now subst t|].
  str_norm_in Heq. injection Heq as <- Heq.
  destruct u as [|c3 u]; [str_norm_in Heq; now subst t|].
  str_norm_in Heq. injection Heq as <- Heq.
  cbn in Hu.
  destruct (split_within Re.Dot new tail u t Hu Hstop Heq) as (t' & -> & ->).
  apply (strip_boundary Re.Dot); [reflexivity | exact Hstop|].
  now apply has_infix_suffix with (u := u).
Qed.

Lemma filePath_match (old new tail : string) :
  all_in Re.Dot old = true -> all_in Re.Dot new = true ->
  has_infix " b/" new = false -> stops Re.Dot tail = true ->
  Re.at_start filePathRe ("diff --git a/" +:+ old +:+ " b/" +:+ new +:+ tail)
  = Some [(2%nat, new); (1%nat, old)].
Proof.
  intros Hold Hnew Hinf Hstop. unfold Re.at_start, filePathRe. cbn [Re.seq Re.run].
  rewrite strip_app.
  apply star_backtrack; [exact Hold | |].
  - rewrite strip_app. rewrite captured.
    apply star_stop; [exact Hnew | exact Hstop|]. now rewrite captured.
  - intros u t Heq Hne Hu.
    now rewrite (no_later_b new tail u t Hinf Hstop Heq Hne Hu).
Qed.

(** X9: the path of a file is the new-side path of its header line: for a
    line [diff --git a/OLD b/NEW] whose two paths hold no line terminator
    and whose new path does not contain [ b/], [extractFilePath] returns NEW;
    a carriage return after NEW (a text with CRLF line ends) and what
    follows it are not part of the path. *)
Theorem extractFilePath_new_side (old new tail : string) :
  all_in Re.Dot old = true -> all_in Re.Dot new = true ->
  has_infix " b/" new = false -> stops Re.Dot tail = true ->
  extractFilePath ("diff --git a/" +:+ old +:+ " b/" +:+ new +:+ tail) = new.
Proof.
  intros Hold Hnew Hinf Hstop. unfold extractFilePath.
  rewrite (search_at_start _ _ _ (filePath_match old new tail Hold Hnew Hinf Hstop)).
  reflexivity.
Qed.

Lemma extractFilePath_new_side_witness :
  extractFilePath ("diff --git a/" +:+ "src/my old.ts" +:+ " b/" +:+ "src/new.ts"
                   +:+ String "013" EmptyString) = "src/new.ts".
Proof.
  apply (extractFilePath_new_side "src/my old.ts" "src/new.ts" (String "013" EmptyString));
    reflexivity.
Defined.

(** ** The numbers of a hunk header *)

Lemma run_lit_ok (p s : string) (c : Re.caps)
    (K : string -> Re.caps -> option Re.caps) (r : Re.caps) :
  K s c = Some r -> Re.run (Re.Lit p) (p +:+ s) c K = Some r.
Proof. intros H. cbn [Re.run]. now rewrite strip_app. Qed.

Lemma plus_digits_ok {R} (ds rest : string) (cont : string -> option R) (r : R) :
  is_digits ds = true -> stops Re.Digit rest = true -> cont rest = Some r ->
  Re.plus Re.Digit (ds +:+ rest) cont = Some r.
Proof.
  intros Hds Hstop Hr. destruct ds as [|d ds]; [discriminate|].
  cbn in Hds. apply andb_prop in Hds as [Hd Hds].
  str_norm. unfold Re.plus. cbn [Re.in_cls] in Hd |- *. rewrite Hd.
  now apply star_stop.
Qed.

Lemma run_digits_ok (n : nat) (ds rest : string) (c : Re.caps)
    (K : string -> Re.caps -> option Re.caps) (r : Re.caps) :
  is_digits ds = true -> stops Re.Digit rest = true ->
  K rest ((n, ds) :: c) = Some r ->
  Re.run (Re.Cap n (Re.Plus Re.Digit)) (ds +:+ rest) c K = Some r.
Proof.
  intros Hds Hstop Hr. cbn [Re.run].
  apply plus_digits_ok; [exact Hds | exact Hstop|]. now rewrite captured.
Qed.

Lemma run_count_ok (cnt : option string) (rest : string) (c : Re.caps)
    (K : string -> Re.caps -> option Re.caps) (r : Re.caps) :
  is_count cnt = true ->
  K (String " " rest) c = Some r ->
  Re.run (Re.Opt (Re.Seq (Re.Lit ",") (Re.Plus Re.Digit)))
         (count_part cnt +:+ String " " rest) c K = Some r.
Proof.
  intros Hcnt Hr. destruct cnt as [ds|]; cbn [count_part Re.run].
  - rewrite str_app_assoc, strip_app.
    rewrite (plus_digits_ok ds (String " " rest) _ r); [reflexivity | exact Hcnt | reflexivity | exact Hr].
  - str_norm. cbn [Re.strip]. cbn. exact Hr.
Qed.

Lemma stops_count (cnt : option string) (rest : string) :
  stops Re.Digit (count_part cnt +:+ String " " rest) = true.
Proof. destruct cnt; reflexivity. Qed.

Lemma run_seq (r1 r2 : Re.t) (s : string) (c : Re.caps)
    (K : string -> Re.caps -> option Re.caps) :
  Re.run (Re.Seq r1 r2) s c K = Re.run r1 s c (fun s' c' => Re.run r2 s' c' K).
Proof. reflexivity. Qed.

Lemma hunkHeader_match (a b : string) (c d : option string) (tail : string) :
  is_digits a = true -> is_digits b = true ->
  is_count c = true -> is_count d = true ->
  Re.at_start hunkHeaderRe
    ("@@ -" +:+ a +:+ count_part c +:+ " +" +:+ b +:+ count_part d +:+ " @@" +:+ tail)
  = Some [(2%nat, b); (1%nat, a)].
Proof.
  intros Ha Hb Hc Hd. unfold Re.at_start, hunkHeaderRe. cbn [Re.seq].
  change (" +" +:+ b +:+ count_part d +:+ " @@" +:+ tail)
    with (String " " ("+" +:+ b +:+ count_part d +:+ " @@" +:+ tail)).
  change (" @@" +:+ tail) with (String " " ("@@" +:+ tail)).
  rewrite run_seq. apply run_lit_ok. cbv beta.
  rewrite run_seq. apply run_digits_ok; [exact Ha | apply stops_count|]. cbv beta.
  rewrite run_seq. apply run_count_ok; [exact Hc|]. cbv beta.
  change (String " " ("+" +:+ b +:+ count_part d +:+ String " " ("@@" +:+ tail)))
    with (" +" +:+ b +:+ count_part d +:+ String " " ("@@" +:+ tail)).
  rewrite run_seq. apply run_lit_ok. cbv beta.
  rewrite run_seq. apply run_digits_ok; [exact Hb | apply stops_count|]. cbv beta.
  rewrite run_seq. apply run_count_ok; [exact Hd|]. cbv beta.
  change (String " " ("@@" +:+ tail)) with (" @@" +:+ tail).
  now apply run_lit_ok.
Qed.

(** the decimal numeral of a number, read back digit by digit *)
Lemma pretty_N_char_digit (r : N) :
  (r < 10)%N ->
  Js.is_digit (pretty_N_char r) = true
  /\ Z.of_nat (Ascii.nat_of_ascii (pretty_N_char r) - 48) = Z.of_N r.
Proof.
  intros Hr.
  assert (H : (r = 0 \/ r = 1 \/ r = 2 \/ r = 3 \/ r = 4 \/ r = 5 \/ r = 6 \/ r = 7
               \/ r = 8 \/ r = 9)%N) by lia.
  repeat (destruct H as [->|H]; [split; reflexivity|]). subst r. split; reflexivity.
Qed.

Lemma parseInt_go_pretty (x : N) :
  forall s : string,
    (0 < x)%N ->
    Js.parseInt_go 0 (pretty_N_go x s) = Js.parseInt_go (Z.of_N x) s.
Proof.
  induction (N.lt_wf_0 x) as [x _ IH]. intros s Hx.
  rewrite pretty_N_go_step by exact Hx.
  destruct (pretty_N_char_digit (x `mod` 10)) as [Hd Hv];
    [now apply N.mod_lt|].
  assert (Hdm : Z.of_N x = 10 * Z.of_N (x `div` 10) + Z.of_N (x `mod` 10)).
  { rewrite (N.div_mod x 10) at 1 by discriminate. lia. }
  destruct (N.eq_dec (x `div` 10) 0) as [E|E].
  - rewrite E in *. rewrite pretty_N_go_0. cbn [Js.parseInt_go]. rewrite Hd, Hv.
    f_equal. lia.
  - rewrite IH; [|apply N.div_lt; [exact Hx|reflexivity]|now apply N.neq_0_lt_0].
    cbn [Js.parseInt_go]. rewrite Hd, Hv. f_equal. lia.
Qed.

Lemma is_digits_pretty_go (x : N) :
  forall s : string,
    (0 < x)%N -> all_in Re.Digit s = true -> is_digits (pretty_N_go x s) = true.
Proof.
  induction (N.lt_wf_0 x) as [x _ IH]. intros s Hx Hs.
  rewrite pretty_N_go_step by exact Hx.
  destruct (pretty_N_char_digit (x `mod` 10)) as [Hd _];
    [now apply N.mod_lt|].
  assert (Hs' : all_in Re.Digit (String (pretty_N_char (x `mod` 10)) s) = true).
  { cbn [all_in Re.in_cls]. now rewrite Hd, Hs. }
  destruct (N.eq_dec (x `div` 10) 0) as [E|E].
  - rewrite E, pretty_N_go_0. exact Hs'.
  - apply IH; [apply N.div_lt; [exact Hx|reflexivity]|now apply N.neq_0_lt_0|exact Hs'].
Qed.

Lemma pretty_digits (A : Z) :
  0 <= A -> is_digits (pretty A) = true /\ Js.parseInt_go 0 (pretty A) = A.
Proof.
  intros HA. destruct A as [|x|x]; [split; reflexivity| |lia].
  unfold pretty, pretty_Z, pretty, pretty_positive, pretty, pretty_N.
  destruct (decide (N.pos x = 0%N)) as [E|_]; [discriminate|]. split.
  - apply is_digits_pretty_go; reflexivity.
  - rewrite parseInt_go_pretty by reflexivity. reflexivity.
Qed.

Lemma header_numbers (hunk : DiffHunk) (a b : string) (c d : option string)
    (tail : string) :
  is_digits a = true -> is_digits b = true ->
  is_count c = true -> is_count d = true ->
  hunk_header hunk
  = "@@ -" +:+ a +:+ count_part c +:+ " +" +:+ b +:+ count_part d +:+ " @@" +:+ tail ->
  calculateLineNumbers hunk
  = number_lines (Js.parseInt a) (Js.parseInt b) (hunk_lines hunk).
Proof.
  intros Ha Hb Hc Hd Hh. unfold calculateLineNumbers. rewrite Hh.
  rewrite (search_at_start _ _ _ (hunkHeader_match a b c d tail Ha Hb Hc Hd)).
  reflexivity.
Qed.

(** X10: the line numbers of a hunk start at the numbers of its header:
    for a header [@@ -A[,C] +B[,D] @@...], A and B written in decimal and
    the counts optional, [calculateLineNumbers] numbers every line of the
    hunk, the first one with the doubles nearest to A and to B: with (A, B)
    itself when both are at most 2^53. *)
Theorem hunk_header_numbers (hunk : DiffHunk) (A B : Z) (c d : option string)
    (tail : string) :
  0 <= A -> 0 <= B ->
  is_count c = true -> is_count d = true ->
  hunk_header hunk
  = "@@ -" +:+ pretty A +:+ count_part c +:+ " +" +:+ pretty B +:+ count_part d
    +:+ " @@" +:+ tail ->
  length (calculateLineNumbers hunk) = length (hunk_lines hunk)
  /\ (forall line, head (hunk_lines hunk) = Some line ->
        head (calculateLineNumbers hunk)
        = Some {| oldLineNum := Js.round_double A; newLineNum := Js.round_double B |})
  /\ (forall line, head (hunk_lines hunk) = Some line ->
        A <= 2 ^ 53 -> B <= 2 ^ 53 ->
        head (calculateLineNumbers hunk)
        = Some {| oldLineNum := Js.Num A; newLineNum := Js.Num B |}).
Proof.
  intros HA HB Hc Hd Hh.
  destruct (pretty_digits A HA) as [Hda Hva], (pretty_digits B HB) as [Hdb Hvb].
  rewrite (header_numbers hunk _ _ c d tail Hda Hdb Hc Hd Hh).
  unfold Js.parseInt. rewrite Hva, Hvb.
  split; [apply number_lines_length|].
  assert (Hhead : forall line, head (hunk_lines hunk) = Some line ->
            head (number_lines (Js.round_double A) (Js.round_double B) (hunk_lines hunk))
            = Some {| oldLineNum := Js.round_double A;
                      newLineNum := Js.round_double B |}).
  { intros line Hl. destruct (hunk_lines hunk); [discriminate | reflexivity]. }
  split; [exact Hhead|].
  intros line Hl Ha Hb. rewrite (Hhead line Hl).
  now rewrite !round_double_exact.
Qed.

Lemma hunk_header_numbers_witness :
  head (calculateLineNumbers example_hunk)
  = Some {| oldLineNum := Js.Num 10; newLineNum := Js.Num 20 |}
  /\ head (calculateLineNumbers stalled_hunk)
     = Some {| oldLineNum := Js.Num 9007199254740992; newLineNum := Js.Num 1 |}.
Proof.
  split.
  - refine (proj2 (proj2 (hunk_header_numbers example_hunk 10 20 (Some "3") (Some "4")
                            EmptyString _ _ eq_refl eq_refl eq_refl)) " ctx1" eq_refl _ _);
      vm_compute; discriminate.
  - refine (proj2 (proj2 (hunk_header_numbers stalled_hunk 9007199254740992 1
                            (Some "3") (Some "3")
                            EmptyString _ _ eq_refl eq_refl eq_refl)) " a" eq_refl _ _);
      vm_compute; discriminate.
Defined.

(** ** The scan, class by class *)

Lemma alter_last_snoc {A} (g : A -> A) (l : list A) (x : A) :
  alter_last g (l ++ [x]) = l ++ [g x].
Proof.
  induction l as [|y l IH]; [reflexivity|].
  cbn [app alter_last]. rewrite IH. now destruct l.
Qed.

Lemma classify_opens (line : string) :
  opens_file line = match classify line with OpensFile => true | _ => false end.
Proof.
  unfold opens_file, classify. destruct (Js.startsWith line "diff --git"); [reflexivity|].
  destruct (_ || _); [reflexivity|]. now destruct (Js.startsWith line "@@").
Qed.

Lemma classify_content (line : string) :
  is_content line = match classify line with Content => true | _ => false end.
Proof.
  unfold is_content, classify. destruct (Js.startsWith line "diff --git"); [reflexivity|].
  destruct (_ || _); [reflexivity|]. now destruct (Js.startsWith line "@@").
Qed.

(** on a state that the scan reaches, [parse_line] acts as [scan_step] *)
Lemma parse_line_scan (st : ParseState) (line : string) :
  parse_inv st ->
  exists st', parse_line st line = Normal st'
    /\ parse_inv st'
    /\ (parse_finish st', heap st') = scan_step (parse_finish st, heap st) line.
Proof.
  intros Hinv. destruct (parse_line_inv st line Hinv) as (st' & Hst' & Hinv' & _).
  exists st'. split; [exact Hst'|]. split; [exact Hinv'|].
  pose proof (inv_fileId st Hinv) as Hf. pose proof (inv_hunkId st Hinv) as Hh.
  pose proof (inv_open st Hinv) as Ho.
  unfold scan_step. destruct (classify line) eqn:Ec.
  - unfold classify in Ec. unfold parse_line in Hst'.
    destruct (Js.startsWith line "diff --git");
      [|destruct (_ || _); [discriminate|]; destruct (Js.startsWith line "@@"); discriminate].
    injection Hst' as <-.
    change (match currentFile st with
            | Some f => diffFiles st ++ [f]
            | None => diffFiles st
            end) with (parse_finish st).
    unfold parse_finish at 1. cbn. unfold new_file_obj, file_name. now rewrite Hf.
  - unfold classify in Ec. unfold parse_line in Hst'.
    destruct (Js.startsWith line "diff --git"); [discriminate|].
    destruct (_ || _); [|destruct (Js.startsWith line "@@"); discriminate].
    unfold parse_finish in *. destruct (currentFile st) as [f|] eqn:Ecf; cbn in Hst'.
    + injection Hst' as <-. cbn. now rewrite alter_last_snoc.
    + injection Hst' as <-. rewrite Ecf. destruct (Ho eq_refl) as [-> _]. reflexivity.
  - unfold classify in Ec. unfold parse_line in Hst'.
    destruct (Js.startsWith line "diff --git"); [discriminate|].
    destruct (_ || _); [discriminate|].
    destruct (Js.startsWith line "@@"); [|discriminate].
    unfold parse_finish in *. destruct (currentFile st) as [f|] eqn:Ecf; cbn in Hst'.
    + injection Hst' as <-. cbn.
      destruct (diffFiles st ++ [f]) as [|g gs] eqn:Eg;
        [now apply app_eq_nil in Eg as [_ ?]|].
      rewrite <- Eg, alter_last_snoc. unfold add_hunk, new_hunk, hunk_name.
      now rewrite Hh.
    + injection Hst' as <-. rewrite Ecf. destruct (Ho eq_refl) as [-> _]. reflexivity.
  - rewrite (content_line_pushed st line Hinv) in Hst'
      by (rewrite classify_content, Ec; reflexivity).
    injection Hst' as <-. reflexivity.
Qed.

Lemma parse_fold_scan (lines : list string) :
  forall st, parse_inv st ->
  exists st', foldlM parse_line st lines = Normal st'
    /\ parse_inv st'
    /\ (parse_finish st', heap st')
       = fold_left scan_step lines (parse_finish st, heap st).
Proof.
  induction lines as [|line lines IH]; intros st Hinv.
  - exists st. auto.
  - destruct (parse_line_scan st line Hinv) as (st1 & H1 & Hinv1 & E1).
    destruct (IH st1 Hinv1) as (st2 & H2 & Hinv2 & E2).
    exists st2. split; [cbn [foldlM]; rewrite H1; exact H2|].
    split; [exact Hinv2|]. cbn [fold_left]. rewrite <- E1. exact E2.
Qed.

(** the document of [parseDiff] is read off the result of [scan] *)
Lemma parseDiff_scan (text : string) (doc : list DiffFile) :
  parseDiff text = Normal doc ->
  map file_shape doc = map fo_shape (fst (scan (Js.split_lf text)))
  /\ all_hunks doc = snd (scan (Js.split_lf text)).
Proof.
  intros Hd.
  destruct (parse_fold_scan (Js.split_lf text) parse_init parse_init_inv)
    as (st & Hrun & Hinv & Escan).
  destruct (snapshot_of_inv st Hinv) as (doc0 & Hdoc & Hshape & Hh).
  assert (doc0 = doc) as ->.
  { unfold parseDiff, parse_run in Hd. rewrite Hrun in Hd. cbn in Hd. congruence. }
  unfold scan. change (parse_finish parse_init, heap parse_init)
    with (@nil FileObj, @nil DiffHunk) in Escan.
  rewrite <- Escan. cbn. auto.
Qed.

(** ** Sections of a list of lines *)

Lemma after_first_none {A} (p : A -> bool) (l : list A) :
  existsb p l = false -> after_first p l = [].
Proof.
  induction l as [|y l IH]; cbn; [reflexivity|].
  destruct (p y); [discriminate | exact IH].
Qed.

Lemma after_first_snoc {A} (p : A -> bool) (l : list A) (x : A) :
  after_first p (l ++ [x]) = if existsb p l then after_first p l ++ [x] else [].
Proof.
  induction l as [|y l IH]; cbn; [now destruct (p x)|].
  destruct (p y); [reflexivity | exact IH].
Qed.

Lemma take_until_snoc {A} (p : A -> bool) (l : list A) (x : A) :
  take_until p (l ++ [x])
  = if existsb p l || p x then take_until p l else take_until p l ++ [x].
Proof.
  induction l as [|y l IH]; cbn; [now destruct (p x)|].
  destruct (p y); [reflexivity|]. cbn. rewrite IH.
  now destruct (existsb p l || p x).
Qed.

Lemma sections_none {A} (p : A -> bool) (l : list A) :
  existsb p l = false -> sections_by p l = [].
Proof.
  induction l as [|y l IH]; cbn; [reflexivity|].
  destruct (p y); [discriminate | exact IH].
Qed.

Lemma sections_some {A} (p : A -> bool) (l : list A) :
  existsb p l = true -> sections_by p l <> [].
Proof.
  induction l as [|y l IH]; cbn; [discriminate|].
  destruct (p y); [discriminate | exact IH].
Qed.

Lemma alter_last_cons {A} (g : A -> A) (x : A) (l : list A) :
  l <> [] -> alter_last g (x :: l) = x :: alter_last g l.
Proof. now destruct l. Qed.

Lemma sections_snoc {A} (p : A -> bool) (l : list A) (x : A) :
  sections_by p (l ++ [x])
  = if p x then sections_by p l ++ [[x]]
    else alter_last (snoc x) (sections_by p l).
Proof.
  induction l as [|y l IH]; cbn [app sections_by].
  - cbn. now destruct (p x).
  - rewrite IH, take_until_snoc. destruct (p y); [|reflexivity].
    destruct (p x) eqn:Ex.
    + rewrite orb_true_r. reflexivity.
    + rewrite orb_false_r. destruct (existsb p l) eqn:El.
      * rewrite alter_last_cons by now apply sections_some. reflexivity.
      * rewrite (sections_none p l El). reflexivity.
Qed.

Lemma sections_head {A} (p : A -> bool) (l : list A) :
  Forall (fun s => exists y r, s = y :: r /\ p y = true) (sections_by p l).
Proof.
  induction l as [|y l IH]; cbn; [constructor|].
  destruct (p y) eqn:E; [|exact IH]. constructor; [|exact IH]. eauto.
Qed.

Lemma sections_cover {A} (p : A -> bool) (l : list A) :
  take_until p l ++ concat (sections_by p l) = l.
Proof.
  induction l as [|y l IH]; cbn; [reflexivity|].
  destruct (p y); cbn; now rewrite IH.
Qed.

Lemma filter_sections {A} (p q : A -> bool) (l : list A) :
  (forall x, p x = true -> q x = false) ->
  concat (map (List.filter q) (sections_by p l)) = List.filter q (after_first p l).
Proof.
  intros Hpq. rewrite concat_filter_map.
  induction l as [|y l IH]; cbn; [reflexivity|].
  destruct (p y) eqn:E; [|exact IH].
  cbn. rewrite (Hpq y E), sections_cover. reflexivity.
Qed.

Lemma map_alter_last {A B} (P : A -> Prop) (g : A -> B) (h : A -> A) (h' : B -> B)
    (l : list A) :
  Forall P l -> (forall x, P x -> g (h x) = h' (g x)) ->
  map g (alter_last h l) = alter_last h' (map g l).
Proof.
  intros HP Hg. induction HP as [|x l Hx _ IH]; [reflexivity|].
  destruct l as [|y l]; cbn [alter_last map] in *; [now rewrite Hg|].
  now rewrite IH.
Qed.

Lemma map_alter_last_same {A B} (g : A -> B) (h : A -> A) (l : list A) :
  (forall x, g (h x) = g x) -> map g (alter_last h l) = map g l.
Proof.
  intros Hg. induction l as [|x l IH]; [reflexivity|].
  destruct l as [|y l]; cbn [alter_last map] in *; [now rewrite Hg|].
  now rewrite IH.
Qed.

Lemma alter_last_map {A B} (g : A -> B) (h : A -> A) (h' : B -> B) (l : list A) :
  (forall x, g (h x) = h' (g x)) -> map g (alter_last h l) = alter_last h' (map g l).
Proof.
  intros Hg. apply (map_alter_last (fun _ => True)); [|auto].
  apply Forall_forall. auto.
Qed.

Lemma concat_parts_eq {A} (xs ys : list (list A)) :
  map length xs = map length ys -> concat xs = concat ys -> xs = ys.
Proof.
  revert ys. induction xs as [|x xs IH]; intros [|y ys] Hl Hc; try discriminate;
    [reflexivity|].
  cbn in *. injection Hl as Hxy Hl.
  apply app_inj_1 in Hc as [-> Hc]; [|exact Hxy]. now rewrite (IH ys Hl Hc).
Qed.

Lemma scan_snoc (l : list string) (x : string) :
  scan (l ++ [x]) = scan_step (scan l) x.
Proof. unfold scan. now rewrite fold_left_app. Qed.

Lemma classify_hunk_header (line : string) :
  is_hunk_header line = match classify line with HunkHeader => true | _ => false end.
Proof. reflexivity. Qed.

Lemma length_alter_last {A} (g : A -> A) (l : list A) :
  length (alter_last g l) = length l.
Proof.
  induction l as [|x l IH]; [reflexivity|].
  destruct l; cbn [alter_last length] in *; [reflexivity | now rewrite IH].
Qed.

(** the files seen: one per line that opens a file *)
Lemma scan_files_length (lines : list string) :
  length (fst (scan lines)) = length (List.filter opens_file lines).
Proof.
  induction lines as [|x l IH] using rev_ind; [reflexivity|].
  rewrite scan_snoc, List.filter_app, length_app, <- IH.
  destruct (scan l) as [files hp]. unfold scan_step. cbn [List.filter].
  rewrite classify_opens.
  destruct (classify x); cbn [fst length].
  - rewrite length_app. reflexivity.
  - rewrite length_alter_last. lia.
  - destruct files as [|f fs]; cbn [fst length]; [lia|].
    rewrite length_alter_last. cbn. lia.
  - lia.
Qed.

Lemma scan_files_nil (lines : list string) :
  existsb opens_file lines = false -> fst (scan lines) = [].
Proof.
  intros H. apply length_zero_iff_nil. rewrite scan_files_length.
  rewrite (filter_none opens_file lines); [reflexivity|].
  intros x Hx. destruct (opens_file x) eqn:E; [|reflexivity].
  assert (existsb opens_file lines = true) by (apply existsb_exists; eauto).
  congruence.
Qed.

Lemma scan_files_some (lines : list string) :
  existsb opens_file lines = true -> fst (scan lines) <> [].
Proof.
  intros H Hnil. apply (f_equal (@length _)) in Hnil. rewrite scan_files_length in Hnil.
  apply existsb_exists in H as (x & Hx & Hp).
  assert (Hin : In x (List.filter opens_file lines)) by (apply filter_In; auto).
  destruct (List.filter opens_file lines); [contradiction | discriminate].
Qed.

(** ** What the scan has built after a list of lines *)

Lemma scan_closed (lines : list string) :
  existsb opens_file lines = false -> scan lines = ([], []).
Proof.
  induction lines as [|x l IH] using rev_ind; [reflexivity|].
  rewrite existsb_app. cbn. rewrite orb_false_r. intros H.
  apply orb_false_elim in H as [Hl Hx].
  rewrite scan_snoc, (IH Hl). unfold scan_step.
  rewrite classify_opens in Hx. destruct (classify x); [discriminate|..]; reflexivity.
Qed.

Lemma scan_step_closed_heap (x : string) : snd (scan_step ([], []) x) = [].
Proof. unfold scan_step. destruct (classify x); reflexivity. Qed.

Lemma filter_snoc {A} (q : A -> bool) (l : list A) (x : A) :
  List.filter q (l ++ [x]) = if q x then List.filter q l ++ [x] else List.filter q l.
Proof. rewrite List.filter_app. cbn. destruct (q x); [reflexivity | apply app_nil_r]. Qed.

(** the hunks created: one per hunk header line after the first file line *)
Lemma scan_hunk_headers (lines : list string) :
  map hunk_header (snd (scan lines))
  = List.filter is_hunk_header (after_first opens_file lines).
Proof.
  induction lines as [|x l IH] using rev_ind; [reflexivity|].
  rewrite scan_snoc, after_first_snoc.
  destruct (existsb opens_file l) eqn:E.
  - pose proof (scan_files_some l E) as Hsome.
    rewrite filter_snoc, classify_hunk_header, <- IH.
    destruct (scan l) as [files hp]. unfold scan_step. cbn [fst snd] in *.
    destruct (classify x); cbn [snd]; try reflexivity.
    + destruct files; [contradiction|]. cbn [snd]. now rewrite map_app.
    + apply map_alter_last_same. reflexivity.
  - rewrite (scan_closed l E), scan_step_closed_heap. reflexivity.
Qed.

(** the lines of each hunk: the content lines from its header line to the
    next hunk header line, whatever lies between *)
Lemma scan_hunk_lines (lines : list string) :
  map hunk_lines (snd (scan lines))
  = map (List.filter is_content)
        (sections_by is_hunk_header (after_first opens_file lines)).
Proof.
  induction lines as [|x l IH] using rev_ind; [reflexivity|].
  rewrite scan_snoc, after_first_snoc.
  destruct (existsb opens_file l) eqn:E.
  - pose proof (scan_files_some l E) as Hsome.
    rewrite sections_snoc, classify_hunk_header.
    destruct (scan l) as [files hp]. unfold scan_step. cbn [fst snd] in *.
    destruct (classify x) eqn:Ec; cbn [snd].
    + rewrite IH. symmetry. apply map_alter_last_same. intros s.
      unfold snoc. now rewrite filter_snoc, classify_content, Ec.
    + rewrite IH. symmetry. apply map_alter_last_same. intros s.
      unfold snoc. now rewrite filter_snoc, classify_content, Ec.
    + destruct files; [contradiction|]. cbn [snd]. rewrite !map_app, IH. cbn.
      now rewrite classify_content, Ec.
    + rewrite (alter_last_map hunk_lines (push_line x) (snoc x)) by reflexivity.
      rewrite IH. symmetry. apply alter_last_map. intros s.
      unfold snoc. now rewrite filter_snoc, classify_content, Ec.
  - rewrite (scan_closed l E), scan_step_closed_heap. reflexivity.
Qed.

(** the number of hunks of each file: the hunk header lines of its section *)
Lemma scan_hunk_counts (lines : list string) :
  map (fun f => length (fo_hunks f)) (fst (scan lines))
  = map (fun sec => length (List.filter is_hunk_header sec))
        (sections_by opens_file lines).
Proof.
  induction lines as [|x l IH] using rev_ind; [reflexivity|].
  rewrite scan_snoc, sections_snoc, classify_opens.
  destruct (scan l) as [files hp]. unfold scan_step. cbn [fst snd] in *.
  destruct (classify x) eqn:Ec; cbn [fst].
  - rewrite !map_app, IH. cbn. now rewrite classify_hunk_header, Ec.
  - rewrite (map_alter_last_same _ (add_header x)) by reflexivity.
    rewrite IH. symmetry. apply map_alter_last_same. intros s.
    unfold snoc. now rewrite filter_snoc, classify_hunk_header, Ec.
  - destruct files as [|f fs].
    + cbn [fst]. destruct (sections_by opens_file l); [reflexivity | discriminate].
    + cbn [fst].
      rewrite (alter_last_map (fun f => length (fo_hunks f)) (add_hunk (length hp)) S).
      * rewrite IH. symmetry. apply alter_last_map. intros s.
        unfold snoc. rewrite filter_snoc, classify_hunk_header, Ec.
        rewrite length_app. cbn. lia.
      * intros g. cbn. rewrite length_app. cbn. lia.
  - rewrite IH. symmetry. apply map_alter_last_same. intros s.
    unfold snoc. now rewrite filter_snoc, classify_hunk_header, Ec.
Qed.

Lemma concat_LF_snoc (l : list string) (x : string) :
  l <> [] -> String.concat LF (l ++ [x]) = String.concat LF l +:+ LF +:+ x.
Proof.
  induction l as [|y l IH]; [contradiction|]. intros _.
  destruct l as [|z l].
  - reflexivity.
  - change (String.concat LF ((y :: z :: l) ++ [x]))
      with (y +:+ LF +:+ String.concat LF ((z :: l) ++ [x])).
    rewrite IH by discriminate.
    change (String.concat LF (y :: z :: l))
      with (y +:+ LF +:+ String.concat LF (z :: l)).
    now rewrite !str_app_assoc.
Qed.

(** the header text of each file: its file line and the metadata lines of
    its section, joined by line feeds *)
Lemma scan_file_headers (lines : list string) :
  map fo_header (fst (scan lines))
  = map (fun sec => String.concat LF (List.filter is_header_text sec))
        (sections_by opens_file lines).
Proof.
  induction lines as [|x l IH] using rev_ind; [reflexivity|].
  rewrite scan_snoc, sections_snoc, classify_opens.
  destruct (scan l) as [files hp]. unfold scan_step. cbn [fst snd] in *.
  assert (Hx : is_header_text x = match classify x with
                                  | OpensFile | Metadata => true
                                  | _ => false
                                  end) by reflexivity.
  destruct (classify x) eqn:Ec; cbn [fst].
  - rewrite !map_app, IH. cbn. now rewrite Hx.
  - rewrite (alter_last_map fo_header (add_header x) (fun h => h +:+ LF +:+ x))
      by reflexivity.
    rewrite IH. symmetry.
    apply (map_alter_last (fun s => exists y r, s = y :: r /\ opens_file y = true));
      [apply sections_head|].
    intros s (y & r & -> & Hy). unfold snoc. rewrite filter_snoc, Hx.
    apply concat_LF_snoc. cbn.
    unfold is_header_text. rewrite classify_opens in Hy.
    destruct (classify y); discriminate.
  - destruct files as [|f fs].
    + cbn [fst]. destruct (sections_by opens_file l); [reflexivity | discriminate].
    + cbn [fst]. rewrite (map_alter_last_same fo_header) by reflexivity.
      rewrite IH. symmetry. apply map_alter_last_same. intros s.
      unfold snoc. now rewrite filter_snoc, Hx.
  - rewrite IH. symmetry. apply map_alter_last_same. intros s.
    unfold snoc. now rewrite filter_snoc, Hx.
Qed.

(** every file and every hunk is created selected *)
Lemma scan_selected (lines : list string) :
  Forall (fun f => fo_selected f = true) (fst (scan lines))
  /\ Forall (fun h => hunk_selected h = true) (snd (scan lines)).
Proof.
  assert (Hal : forall {A} (P : A -> Prop) (g : A -> A) (l : list A),
             (forall x, P x -> P (g x)) -> Forall P l -> Forall P (alter_last g l)).
  { intros A P g l Hg HP. induction HP as [|y l Hy Hl IHl]; [constructor|].
    destruct l; cbn [alter_last]; constructor; auto. }
  induction lines as [|x l [IHf IHh]] using rev_ind; [split; constructor|].
  rewrite scan_snoc. destruct (scan l) as [files hp]. unfold scan_step.
  cbn [fst snd] in *. destruct (classify x); cbn [fst snd].
  - split; [|exact IHh]. apply Forall_app. split; [exact IHf|]. now repeat constructor.
  - split; [|exact IHh]. apply Hal; auto.
  - destruct files as [|f fs]; cbn [fst snd]; [split; assumption|].
    split; [apply Hal; auto|]. apply Forall_app. split; [exact IHh|].
    now repeat constructor.
  - split; [exact IHf|]. apply Hal; auto.
Qed.

(** ** The parsed document and the lines of the text *)

Lemma shape_hunk_counts (doc : list DiffFile) (files : list FileObj) :
  map file_shape doc = map fo_shape files ->
  map (fun f => length (file_hunks f)) doc = map (fun f => length (fo_hunks f)) files.
Proof.
  intros H.
  apply (f_equal (map (fun s : string * string * string * bool * nat => snd s))) in H.
  now rewrite !map_map in H.
Qed.

Lemma shape_headers (doc : list DiffFile) (files : list FileObj) :
  map file_shape doc = map fo_shape files ->
  map file_header doc = map fo_header files.
Proof.
  intros H.
  apply (f_equal (map (fun s : string * string * string * bool * nat =>
                         snd (fst (fst (fst s)))))) in H.
  now rewrite !map_map in H.
Qed.

Lemma shape_selected (doc : list DiffFile) (files : list FileObj) :
  map file_shape doc = map fo_shape files ->
  map file_selected doc = map fo_selected files.
Proof.
  intros H.
  apply (f_equal (map (fun s : string * string * string * bool * nat =>
                         snd (fst s)))) in H.
  now rewrite !map_map in H.
Qed.

Lemma opens_not_hunk_header (x : string) :
  opens_file x = true -> is_hunk_header x = false.
Proof.
  rewrite classify_opens, classify_hunk_header. now destruct (classify x).
Qed.

(** X11: the hunks of each file are the hunk header lines of its section
    of the text. A section starts at a line that starts with [diff --git]
    and runs to the next such line; a hunk header line is one that starts
    with [@@] (the other tests of the loop coming first). Lines before the
    first section open nothing. *)
Theorem parse_hunks_per_file (text : string) (doc : list DiffFile) :
  parseDiff text = Normal doc ->
  map (fun file => map hunk_header (file_hunks file)) doc
  = map (List.filter is_hunk_header) (sections_by opens_file (Js.split_lf text)).
Proof.
  intros Hd. destruct (parseDiff_scan text doc Hd) as [Hshape Hh].
  apply concat_parts_eq.
  - rewrite !map_map. rewrite <- scan_hunk_counts, <- (shape_hunk_counts _ _ Hshape).
    apply map_ext. intros f. apply length_map.
  - rewrite (filter_sections opens_file is_hunk_header _ opens_not_hunk_header).
    rewrite <- scan_hunk_headers, <- Hh. unfold all_hunks.
    rewrite concat_map, map_map. reflexivity.
Qed.

Lemma parse_hunks_per_file_witness :
  map (List.filter is_hunk_header) (sections_by opens_file (Js.split_lf spill_text))
  = map (fun file => map hunk_header (file_hunks file)) spill_doc.
Proof.
  symmetry. apply (parse_hunks_per_file spill_text spill_doc).
  vm_compute. reflexivity.
Defined.

(** X12: the lines of each hunk, in document order, are the content lines
    from its header line up to the next hunk header line. File lines and
    metadata lines in between are skipped but do not end the hunk: content
    lines that follow a new [diff --git] line before its first hunk header
    are lines of the last hunk of the file before. No content line after
    the first hunk header is lost, and none is stored twice. *)
Theorem parse_hunk_lines (text : string) (doc : list DiffFile) :
  parseDiff text = Normal doc ->
  map hunk_lines (all_hunks doc)
  = map (List.filter is_content)
        (sections_by is_hunk_header (after_first opens_file (Js.split_lf text)))
  /\ concat (map hunk_lines (all_hunks doc))
     = List.filter is_content
         (after_first is_hunk_header (after_first opens_file (Js.split_lf text))).
Proof.
  intros Hd. destruct (parseDiff_scan text doc Hd) as [_ Hh].
  assert (E : map hunk_lines (all_hunks doc)
              = map (List.filter is_content)
                    (sections_by is_hunk_header
                                 (after_first opens_file (Js.split_lf text)))).
  { rewrite Hh. apply scan_hunk_lines. }
  split; [exact E|]. rewrite E. apply filter_sections.
  intros x. rewrite classify_hunk_header, classify_content. now destruct (classify x).
Qed.

Lemma parse_hunk_lines_witness :
  map hunk_lines (all_hunks spill_doc) = [["+a"; "index 1..2"]; ["-b"]]
  /\ map (List.filter is_content)
         (sections_by is_hunk_header (after_first opens_file (Js.split_lf spill_text)))
     = map hunk_lines (all_hunks spill_doc).
Proof.
  split; [reflexivity|]. symmetry.
  apply (parse_hunk_lines spill_text spill_doc).
  vm_compute. reflexivity.
Defined.

(** X13: the header text of each file is its [diff --git] line followed by
    the lines of its section that start with [---] or [+++], joined by line
    feeds (a removed or added line whose text starts with two more dashes
    or pluses is taken for such a line). *)
Theorem parse_file_headers (text : string) (doc : list DiffFile) :
  parseDiff text = Normal doc ->
  map file_header doc
  = map (fun sec => String.concat LF (List.filter is_header_text sec))
        (sections_by opens_file (Js.split_lf text)).
Proof.
  intros Hd. destruct (parseDiff_scan text doc Hd) as [Hshape _].
  rewrite (shape_headers _ _ Hshape). apply scan_file_headers.
Qed.

Lemma parse_file_headers_witness :
  map (fun sec => String.concat LF (List.filter is_header_text sec))
      (sections_by opens_file (Js.split_lf dashes_text))
  = map file_header dashes_doc.
Proof.
  symmetry. apply (parse_file_headers dashes_text dashes_doc).
  vm_compute. reflexivity.
Defined.

(** X14: a freshly parsed document has every file and every hunk selected,
    so its flags agree; its files are named [file-1], [file-2], ... in
    order, and its hunks [hunk-1], [hunk-2], ... in document order, the
    numbering of the hunks running on from one file to the next. *)
Theorem parse_fresh (text : string) (doc : list DiffFile) :
  parseDiff text = Normal doc ->
  (forall file, In file doc ->
     file_selected file = true
     /\ forall hunk, In hunk (file_hunks file) -> hunk_selected hunk = true)
  /\ consistent doc
  /\ map file_id doc
     = map (fun k => "file-" +:+ pretty (S k)) (seq 0 (length doc))
  /\ map hunk_id (all_hunks doc)
     = map (fun k => "hunk-" +:+ pretty (S k)) (seq 0 (length (all_hunks doc))).
Proof.
  intros Hd.
  destruct (parseDiff_scan text doc Hd) as [Hshape Hh].
  destruct (scan_selected (Js.split_lf text)) as [Hfs Hhs].
  rewrite <- Hh in Hhs.
  assert (Hsel : forall file, In file doc ->
            file_selected file = true
            /\ forall hunk, In hunk (file_hunks file) -> hunk_selected hunk = true).
  { intros file Hin. split.
    - assert (Hm : In (file_selected file) (map fo_selected (fst (scan (Js.split_lf text)))))
        by (rewrite <- (shape_selected _ _ Hshape); now apply in_map).
      apply in_map_iff in Hm as (fo & <- & Hfo).
      rewrite Forall_forall in Hfs. apply Hfs, list_elem_of_In, Hfo.
    - intros hunk Hhin. rewrite Forall_forall in Hhs. apply Hhs, list_elem_of_In.
      unfold all_hunks. apply in_concat. exists (file_hunks file).
      split; [now apply in_map | exact Hhin]. }
  split; [exact Hsel|]. split.
  - apply Forall_forall. intros file Hin _. apply list_elem_of_In in Hin.
    destruct (Hsel file Hin) as [-> Hall]. symmetry. apply forallb_forall. exact Hall.
  - destruct (parseDiff_normal text) as (st & doc0 & _ & Hinv & Hdoc & Hshape0 & Hh0 & _).
    assert (doc0 = doc) as -> by congruence.
    assert (Hids : map file_id doc = map fo_id (parse_finish st)).
    { apply (f_equal (map (fun s : string * string * string * bool * nat =>
                             fst (fst (fst (fst s)))))) in Hshape0.
      now rewrite !map_map in Hshape0. }
    assert (Hlen : length doc = length (parse_finish st)).
    { apply (f_equal (@length _)) in Hids. now rewrite !length_map in Hids. }
    split.
    + rewrite Hids, (inv_file_ids st Hinv), Hlen. reflexivity.
    + rewrite Hh0, (inv_hunk_ids st Hinv). reflexivity.
Qed.

Lemma parse_fresh_witness : consistent spill_doc.
Proof.
  apply (proj1 (proj2 (parse_fresh spill_text spill_doc ltac:(vm_compute; reflexivity)))).
Defined.

(** ** The two components parse alike *)

Lemma plain_load (hp : list DiffHunk) (a : addr) :
  Simple.load (map plain_hunk hp) a = plain_hunk <$> load hp a.
Proof.
  unfold Simple.load, load. rewrite lookup_map. now destruct (hp !! a).
Qed.

Lemma plain_parse_line (st : ParseState) (line : string) :
  Simple.parse_line (plain_state st) line = plain_state <$> parse_line st line.
Proof.
  unfold Simple.parse_line, parse_line.
  destruct (Js.startsWith line "diff --git").
  { cbn. unfold plain_state. cbn. f_equal. f_equal.
    destruct (currentFile st); cbn; [now rewrite map_app | reflexivity]. }
  destruct (Js.startsWith line "---" || Js.startsWith line "+++").
  { destruct (currentFile st) as [f|] eqn:E; cbn; rewrite ?E; reflexivity. }
  destruct (Js.startsWith line "@@").
  { destruct (currentFile st) as [f|] eqn:E; cbn; rewrite ?E; [|reflexivity].
    cbn. unfold plain_state. cbn. rewrite length_map, map_app. reflexivity. }
  destruct (currentHunk st) as [a|] eqn:E; cbn; rewrite ?E; [|reflexivity].
  cbn. rewrite plain_load. destruct (load (heap st) a) as [h|e]; cbn; [|reflexivity].
  unfold plain_state. cbn. do 2 f_equal.
  change (<[a := Simple.push_line line (plain_hunk h)]> (plain_hunk <$> heap st)
          = plain_hunk <$> <[a := push_line line h]> (heap st)).
  now rewrite list_fmap_insert.
Qed.

Lemma plain_fold (lines : list string) :
  forall st,
    foldlM Simple.parse_line (plain_state st) lines
    = plain_state <$> foldlM parse_line st lines.
Proof.
  induction lines as [|line lines IH]; intros st; [reflexivity|].
  cbn [foldlM]. rewrite plain_parse_line.
  destruct (parse_line st line) as [st'|e]; cbn; [apply IH | reflexivity].
Qed.

Lemma plain_loadAll (hp : list DiffHunk) (l : list addr) :
  Simple.loadAll (map plain_hunk hp) l = map plain_hunk <$> loadAll hp l.
Proof.
  induction l as [|a l IH]; [reflexivity|].
  cbn [Simple.loadAll loadAll]. rewrite plain_load, IH.
  destruct (load hp a); cbn; [|reflexivity]. now destruct (loadAll hp l).
Qed.

Lemma plain_snapshotAll (hp : list DiffHunk) (files : list FileObj) :
  Simple.snapshotAll (map plain_hunk hp) (map plain_obj files)
  = map plain_file <$> snapshotAll hp files.
Proof.
  induction files as [|f files IH]; [reflexivity|].
  cbn [map Simple.snapshotAll snapshotAll]. rewrite IH.
  unfold Simple.snapshot, snapshot. cbn [Simple.fo_hunks plain_obj].
  rewrite plain_loadAll. destruct (loadAll hp (fo_hunks f)); cbn; [|reflexivity].
  now destruct (snapshotAll hp files).
Qed.

Lemma plain_finish (st : ParseState) :
  Simple.parse_finish (plain_state st) = map plain_obj (parse_finish st).
Proof.
  unfold Simple.parse_finish, parse_finish, plain_state. cbn.
  destruct (currentFile st); cbn; [now rewrite map_app | reflexivity].
Qed.

(** X15: the component without selection parses every text to the document
    of the component with selection, ids and flags left out: same files in
    the same order, same header texts and paths, same hunks with the same
    lines; and like it, it returns normally on every text. *)
Theorem simple_parse_agrees (text : string) :
  Simple.parseDiff text = map plain_file <$> parseDiff text
  /\ exists doc, Simple.parseDiff text = Normal doc.
Proof.
  assert (E : Simple.parseDiff text = map plain_file <$> parseDiff text).
  { unfold Simple.parseDiff, parseDiff, parse_run.
    change Simple.parse_init with (plain_state parse_init). rewrite plain_fold.
    destruct (foldlM parse_line parse_init (Js.split_lf text)) as [st|e]; cbn;
      [|reflexivity].
    rewrite plain_finish. apply plain_snapshotAll. }
  split; [exact E|]. rewrite E.
  destruct (parseDiff_normal text) as (_ & doc & _ & _ & -> & _). cbn. eauto.
Qed.

(** ** Saved diffs *)

Lemma findIndex_from_cases {A} (p : A -> bool) (arr : list A) :
  forall i : Z,
    (Saved.findIndex_from i p arr = -1 /\ forall x, In x arr -> p x = false)
    \/ (exists j x, Saved.findIndex_from i p arr = i + Z.of_nat j
          /\ arr !! j = Some x /\ p x = true
          /\ forall k y, (k < j)%nat -> arr !! k = Some y -> p y = false).
Proof.
  induction arr as [|a arr IH]; intros i; cbn.
  - left. split; [reflexivity | intros x []].
  - destruct (p a) eqn:E.
    + right. exists 0%nat, a. repeat split; [lia | exact E | intros; lia].
    + destruct (IH (i + 1)) as [[Hn Hall] | (j & x & Hj & Hx & Hp & Hb)].
      * left. split; [exact Hn|]. intros x [<-|Hx]; auto.
      * right. exists (S j), x. repeat split; [lia | exact Hx | exact Hp|].
        intros k y Hk Hy. destruct k as [|k]; cbn in Hy; [congruence|].
        apply (Hb k y); [lia | exact Hy].
Qed.

Lemma find_first {A} (p : A -> bool) (l : list A) :
  forall j x, l !! j = Some x -> p x = true ->
    (forall k y, (k < j)%nat -> l !! k = Some y -> p y = false) ->
    List.find p l = Some x.
Proof.
  induction l as [|a l IH]; intros j x Hj Hp Hb; [discriminate|].
  destruct j as [|j]; cbn in *.
  - injection Hj as ->. now rewrite Hp.
  - rewrite (Hb 0%nat a) by (lia || reflexivity).
    apply (IH j x Hj Hp). intros k y Hk Hy. apply (Hb (S k) y); [lia | exact Hy].
Qed.

Lemma find_absent {A} (p : A -> bool) (l : list A) :
  (forall x, In x l -> p x = false) -> List.find p l = None.
Proof.
  induction l as [|a l IH]; intros H; cbn; [reflexivity|].
  rewrite (H a) by now left. apply IH. intros x Hx. apply H. now right.
Qed.

Lemma NoDup_map_take {A B} (g : A -> B) (n : nat) (l : list A) :
  NoDup (map g l) -> NoDup (map g (take n l)).
Proof.
  intros H. apply (sublist_NoDup _ (map g l)); [exact H|].
  change (g <$> take n l `sublist_of` g <$> l).
  apply fmap_sublist, sublist_take.
Qed.

Lemma capped {A} (l : list A) :
  (if (Saved.MAX_SAVED_DIFFS <? length l)%nat then take Saved.MAX_SAVED_DIFFS l else l)
  = take Saved.MAX_SAVED_DIFFS l.
Proof.
  destruct (Nat.ltb_spec Saved.MAX_SAVED_DIFFS (length l)); [reflexivity|].
  symmetry. now apply take_ge.
Qed.

(** the list that [saveDiffToLocalStorage] leaves *)
Lemma save_list (clock : Saved.Clock) (canWrite : bool) (w : Saved.World) :
  let st := Saved.state w in
  let i := Saved.findIndex (has_id (save_id clock st)) (Saved.savedDiffs st) in
  Saved.savedDiffs (Saved.state (Saved.saveDiffToLocalStorage clock canWrite w))
  = take Saved.MAX_SAVED_DIFFS
         (if 0 <=? i then <[Z.to_nat i := save_entry clock st]> (Saved.savedDiffs st)
          else save_entry clock st :: Saved.savedDiffs st).
Proof.
  cbv zeta. unfold Saved.saveDiffToLocalStorage. cbn [Saved.state Saved.savedDiffs Saved.set_saved].
  rewrite capped. reflexivity.
Qed.

Lemma save_list_new (clock : Saved.Clock) (canWrite : bool) (w : Saved.World) :
  (forall d, In d (Saved.savedDiffs (Saved.state w)) ->
             has_id (save_id clock (Saved.state w)) d = false) ->
  Saved.savedDiffs (Saved.state (Saved.saveDiffToLocalStorage clock canWrite w))
  = take Saved.MAX_SAVED_DIFFS
         (save_entry clock (Saved.state w) :: Saved.savedDiffs (Saved.state w))
  /\ Saved.currentDiffId (Saved.state (Saved.saveDiffToLocalStorage clock canWrite w))
     = save_id clock (Saved.state w).
Proof.
  intros Hnew. rewrite save_list. cbv zeta.
  unfold Saved.saveDiffToLocalStorage. cbn [Saved.state Saved.currentDiffId Saved.set_saved].
  fold (save_id clock (Saved.state w)).
  fold (has_id (save_id clock (Saved.state w))).
  unfold Saved.findIndex.
  destruct (findIndex_from_cases (has_id (save_id clock (Saved.state w)))
              (Saved.savedDiffs (Saved.state w)) 0)
    as [[-> _] | (j & x & _ & Hx & Hp & _)].
  - split; reflexivity.
  - rewrite (Hnew x (lookup_In _ _ _ Hx)) in Hp. discriminate.
Qed.

Lemma save_list_known (clock : Saved.Clock) (canWrite : bool) (w : Saved.World)
    (j : nat) (d : Saved.SavedDiff) :
  Saved.savedDiffs (Saved.state w) !! j = Some d ->
  has_id (save_id clock (Saved.state w)) d = true ->
  (forall k y, (k < j)%nat -> Saved.savedDiffs (Saved.state w) !! k = Some y ->
               has_id (save_id clock (Saved.state w)) y = false) ->
  Saved.savedDiffs (Saved.state (Saved.saveDiffToLocalStorage clock canWrite w))
  = take Saved.MAX_SAVED_DIFFS
         (<[j := save_entry clock (Saved.state w)]> (Saved.savedDiffs (Saved.state w)))
  /\ Saved.currentDiffId (Saved.state (Saved.saveDiffToLocalStorage clock canWrite w))
     = Saved.currentDiffId (Saved.state w).
Proof.
  intros Hj Hp Hb. rewrite save_list. cbv zeta.
  unfold Saved.saveDiffToLocalStorage. cbn [Saved.state Saved.currentDiffId Saved.set_saved].
  fold (save_id clock (Saved.state w)).
  fold (has_id (save_id clock (Saved.state w))).
  unfold Saved.findIndex.
  destruct (findIndex_from_cases (has_id (save_id clock (Saved.state w)))
              (Saved.savedDiffs (Saved.state w)) 0)
    as [[_ Hall] | (j' & x & -> & Hx & Hp' & Hb')].
  - rewrite (Hall d (lookup_In _ _ _ Hj)) in Hp. discriminate.
  - assert (j' = j) as ->.
    { destruct (Nat.lt_trichotomy j' j) as [Hlt|[Heq|Hgt]]; [|exact Heq|].
      - rewrite (Hb j' x Hlt Hx) in Hp'. discriminate.
      - rewrite (Hb' j d Hgt Hj) in Hp. discriminate. }
    replace (0 <=? 0 + Z.of_nat j) with true by (symmetry; apply Z.leb_le; lia).
    replace (Z.to_nat (0 + Z.of_nat j)) with j by lia. split; reflexivity.
Qed.

Lemma first_with_id (id : string) (l : list Saved.SavedDiff) :
  (forall d, In d l -> has_id id d = false)
  \/ (exists j d, l !! j = Some d /\ has_id id d = true
        /\ forall k y, (k < j)%nat -> l !! k = Some y -> has_id id y = false).
Proof.
  destruct (findIndex_from_cases (has_id id) l 0) as [[_ H] | (j & x & _ & H)];
    [left; exact H | right; eauto].
Qed.

Lemma save_entry_id (clock : Saved.Clock) (st : Saved.State) :
  has_id (save_id clock st) (save_entry clock st) = true.
Proof. unfold has_id. cbn. apply String.eqb_refl. Qed.

(** X16: [saveDiffToLocalStorage] keeps the list in order: it never leaves
    more than 10 entries, and if no two entries shared an id before, none
    do after; the text, the document and the export name are not touched;
    the storage slot holds the new list when the write succeeds and is left
    as it was when it fails. The effect that calls it does nothing for an
    empty text, for a document without files and for a text of more than
    1,000,000 characters. *)
Theorem save_keeps_list (clock : Saved.Clock) (canWrite : bool) (w : Saved.World) :
  let w' := Saved.saveDiffToLocalStorage clock canWrite w in
  (length (Saved.savedDiffs (Saved.state w')) <= 10)%nat
  /\ (NoDup (map Saved.sd_id (Saved.savedDiffs (Saved.state w))) ->
      NoDup (map Saved.sd_id (Saved.savedDiffs (Saved.state w'))))
  /\ Saved.diffText (Saved.state w') = Saved.diffText (Saved.state w)
  /\ Saved.parsedDiff (Saved.state w') = Saved.parsedDiff (Saved.state w)
  /\ Saved.exportName (Saved.state w') = Saved.exportName (Saved.state w)
  /\ Saved.stored w' = (if canWrite then Some (Saved.savedDiffs (Saved.state w'))
                        else Saved.stored w)
  /\ (Saved.diffText (Saved.state w) = EmptyString
      \/ Saved.parsedDiff (Saved.state w) = []
      \/ 1000000 < Z.of_nat (String.length (Saved.diffText (Saved.state w))) ->
      Saved.autosave clock canWrite w = w).
Proof.
  cbv zeta. split; [|split; [|split; [|split; [|split; [|split]]]]].
  - rewrite save_list. cbv zeta. rewrite length_take. unfold Saved.MAX_SAVED_DIFFS. lia.
  - intros Hnd.
    destruct (first_with_id (save_id clock (Saved.state w)) (Saved.savedDiffs (Saved.state w)))
      as [Hnew | (j & d & Hj & Hp & Hb)].
    + rewrite (proj1 (save_list_new clock canWrite w Hnew)).
      apply NoDup_map_take.
      cbn [map]. apply NoDup_cons. split; [|exact Hnd].
      intros Hin. apply list_elem_of_In, in_map_iff in Hin as (d & Hd & Hin).
      specialize (Hnew d Hin). unfold has_id in Hnew. cbn in Hd.
      rewrite Hd, String.eqb_refl in Hnew. discriminate.
    + rewrite (proj1 (save_list_known clock canWrite w j d Hj Hp Hb)).
      apply NoDup_map_take.
      assert (E : map Saved.sd_id
                    (<[j := save_entry clock (Saved.state w)]> (Saved.savedDiffs (Saved.state w)))
                  = map Saved.sd_id (Saved.savedDiffs (Saved.state w))).
      { change (Saved.sd_id <$> <[j := save_entry clock (Saved.state w)]>
                  (Saved.savedDiffs (Saved.state w))
                = Saved.sd_id <$> Saved.savedDiffs (Saved.state w)).
        rewrite list_fmap_insert. apply list_insert_id.
        rewrite list_lookup_fmap, Hj. cbn. f_equal.
        unfold has_id in Hp. now apply String.eqb_eq in Hp. }
      now rewrite E.
  - reflexivity.
  - reflexivity.
  - reflexivity.
  - unfold Saved.saveDiffToLocalStorage. cbn. now destruct canWrite.
  - intros H. unfold Saved.autosave.
    destruct H as [H|[H|H]].
    + now rewrite H.
    + rewrite H. cbn. now rewrite andb_false_r.
    + destruct (_ && _); [|reflexivity].
      destruct (Z.leb_spec (Z.of_nat (String.length (Saved.diffText (Saved.state w))))
                           Saved.MAX_STORAGE_SIZE) as [Hle|_]; [|reflexivity].
      unfold Saved.MAX_STORAGE_SIZE in Hle. lia.
Qed.

Lemma find_in_saved (clock : Saved.Clock) (canWrite : bool) (w : Saved.World) :
  (length (Saved.savedDiffs (Saved.state w)) <= 10)%nat ->
  List.find (has_id (save_id clock (Saved.state w)))
            (Saved.savedDiffs (Saved.state (Saved.saveDiffToLocalStorage clock canWrite w)))
  = Some (save_entry clock (Saved.state w)).
Proof.
  intros Hlen.
  destruct (first_with_id (save_id clock (Saved.state w)) (Saved.savedDiffs (Saved.state w)))
    as [Hnew | (j & d & Hj & Hp & Hb)].
  - rewrite (proj1 (save_list_new clock canWrite w Hnew)).
    change (take Saved.MAX_SAVED_DIFFS
              (save_entry clock (Saved.state w) :: Saved.savedDiffs (Saved.state w)))
      with (save_entry clock (Saved.state w)
            :: take 9 (Saved.savedDiffs (Saved.state w))).
    cbn [List.find]. now rewrite save_entry_id.
  - rewrite (proj1 (save_list_known clock canWrite w j d Hj Hp Hb)).
    rewrite take_ge by (rewrite length_insert; exact Hlen).
    apply (find_first _ _ j).
    + apply list_lookup_insert_eq. now apply lookup_lt_Some in Hj.
    + apply save_entry_id.
    + intros k y Hk Hy. rewrite list_lookup_insert_ne in Hy by lia. now apply (Hb k).
Qed.

Lemma load_saved (clock : Saved.Clock) (canWrite : bool) (w later : Saved.World) :
  (length (Saved.savedDiffs (Saved.state w)) <= 10)%nat ->
  Saved.savedDiffs (Saved.state later)
  = Saved.savedDiffs (Saved.state (Saved.saveDiffToLocalStorage clock canWrite w)) ->
  Saved.state (Saved.loadSavedDiff (save_id clock (Saved.state w)) later)
  = {| Saved.diffText := Saved.diffText (Saved.state w);
       Saved.parsedDiff := Saved.parsedDiff (Saved.state w);
       Saved.savedDiffs := Saved.savedDiffs (Saved.state later);
       Saved.exportName :=
         (if Saved.non_empty (Saved.exportName (Saved.state w))
          then Saved.exportName (Saved.state w)
          else "Diff " +:+ Saved.now_text clock);
       Saved.currentDiffId := save_id clock (Saved.state w);
       Saved.showSavedDiffs := false |}.
Proof.
  intros Hlen Hlater. unfold Saved.loadSavedDiff.
  fold (has_id (save_id clock (Saved.state w))).
  rewrite Hlater, (find_in_saved clock canWrite w Hlen). reflexivity.
Qed.

Lemma autosave_skips (clock : Saved.Clock) (canWrite : bool) (w : Saved.World) :
  Saved.diffText (Saved.state w) = EmptyString
  \/ Saved.parsedDiff (Saved.state w) = []
  \/ 1000000 < Z.of_nat (String.length (Saved.diffText (Saved.state w))) ->
  Saved.autosave clock canWrite w = w.
Proof.
  intros H. unfold Saved.autosave.
  destruct H as [H|[H|H]].
  - now rewrite H.
  - rewrite H. cbn. now rewrite andb_false_r.
  - destruct (_ && _); [|reflexivity].
    destruct (Z.leb_spec (Z.of_nat (String.length (Saved.diffText (Saved.state w))))
                         Saved.MAX_STORAGE_SIZE) as [Hle|_]; [|reflexivity].
    unfold Saved.MAX_STORAGE_SIZE in Hle. lia.
Qed.

Lemma autosave_saves (clock : Saved.Clock) (canWrite : bool) (w : Saved.World) :
  Saved.diffText (Saved.state w) <> EmptyString ->
  Saved.parsedDiff (Saved.state w) <> [] ->
  Z.of_nat (String.length (Saved.diffText (Saved.state w))) <= 1000000 ->
  Saved.autosave clock canWrite w = Saved.saveDiffToLocalStorage clock canWrite w.
Proof.
  intros Ht Hd Hlen. unfold Saved.autosave.
  destruct (Saved.diffText (Saved.state w)) as [|c t] eqn:Et; [contradiction|].
  destruct (Saved.parsedDiff (Saved.state w)) as [|f d]; [contradiction|].
  cbn [Saved.non_empty length Nat.ltb Nat.leb andb].
  destruct (Z.leb_spec (Z.of_nat (String.length (String c t))) Saved.MAX_STORAGE_SIZE)
    as [_|Hgt]; [reflexivity|].
  unfold Saved.MAX_STORAGE_SIZE in Hgt. lia.
Qed.

Lemma save_id_current (clock : Saved.Clock) (st st' : Saved.State) (clock' : Saved.Clock) :
  Saved.currentDiffId st' = save_id clock st -> save_id clock' st' = save_id clock st.
Proof.
  intros H. unfold save_id at 1. rewrite H.
  assert (Hne : Saved.non_empty (save_id clock st) = true).
  { unfold save_id. destruct (Saved.non_empty (Saved.currentDiffId st)) eqn:E;
      [exact E | reflexivity]. }
  now rewrite Hne.
Qed.

(** X17: what is saved can be loaded back, until it is saved again. With
    at most 10 saved diffs before, after [saveDiffToLocalStorage] and as
    long as the list of saved diffs is the one the save left,
    [loadSavedDiff] with the id under which the diff was saved brings back
    the text and the document that were saved (selection flags included),
    sets the export name to the saved name, makes that id the current one
    and closes the panel. This is so after the editor got a content that
    the autosave effect skips (an empty text, a document without files, a
    text of more than 1,000,000 characters). A content that the effect
    saves replaces the entry of the current diff: when the id of the save
    is the current one (as it is when there was a current id, or when no
    entry had the id), loading the id then brings back the new content,
    and the earlier one is gone. *)
Theorem save_then_load (clock : Saved.Clock) (canWrite : bool) (w : Saved.World) :
  (length (Saved.savedDiffs (Saved.state w)) <= 10)%nat ->
  let id := save_id clock (Saved.state w) in
  let w1 := Saved.saveDiffToLocalStorage clock canWrite w in
  (forall later,
     Saved.savedDiffs (Saved.state later) = Saved.savedDiffs (Saved.state w1) ->
     Saved.state (Saved.loadSavedDiff id later)
     = {| Saved.diffText := Saved.diffText (Saved.state w);
          Saved.parsedDiff := Saved.parsedDiff (Saved.state w);
          Saved.savedDiffs := Saved.savedDiffs (Saved.state later);
          Saved.exportName :=
            (if Saved.non_empty (Saved.exportName (Saved.state w))
             then Saved.exportName (Saved.state w)
             else "Diff " +:+ Saved.now_text clock);
          Saved.currentDiffId := id;
          Saved.showSavedDiffs := false |})
  /\ (forall clock' canWrite' t d,
        t = EmptyString \/ d = [] \/ 1000000 < Z.of_nat (String.length t) ->
        let w3 := Saved.autosave clock' canWrite' (edit_content t d w1) in
        Saved.diffText (Saved.state (Saved.loadSavedDiff id w3))
        = Saved.diffText (Saved.state w)
        /\ Saved.parsedDiff (Saved.state (Saved.loadSavedDiff id w3))
           = Saved.parsedDiff (Saved.state w))
  /\ (forall clock' canWrite' t d,
        t <> EmptyString -> d <> [] -> Z.of_nat (String.length t) <= 1000000 ->
        Saved.currentDiffId (Saved.state w1) = id ->
        let w3 := Saved.autosave clock' canWrite' (edit_content t d w1) in
        Saved.diffText (Saved.state (Saved.loadSavedDiff id w3)) = t
        /\ Saved.parsedDiff (Saved.state (Saved.loadSavedDiff id w3)) = d)
  /\ (Saved.currentDiffId (Saved.state w) <> EmptyString
      \/ (forall e, In e (Saved.savedDiffs (Saved.state w)) -> Saved.sd_id e <> id) ->
      Saved.currentDiffId (Saved.state w1) = id).
Proof.
  intros Hlen id w1. split; [|split; [|split]].
  - intros later Hlater. exact (load_saved clock canWrite w later Hlen Hlater).
  - intros clock' canWrite' t d Hskip w3. unfold w3.
    rewrite (autosave_skips clock' canWrite' (edit_content t d w1)) by exact Hskip.
    unfold id. rewrite (load_saved clock canWrite w (edit_content t d w1) Hlen);
      [split; reflexivity | reflexivity].
  - intros clock' canWrite' t d Ht Hd Hsize Hcur w3. unfold w3.
    rewrite (autosave_saves clock' canWrite' (edit_content t d w1)) by assumption.
    assert (Hid : save_id clock' (Saved.state (edit_content t d w1)) = id)
      by (apply save_id_current; exact Hcur).
    assert (Hlen1 : (length (Saved.savedDiffs (Saved.state (edit_content t d w1))) <= 10)%nat).
    { cbn [edit_content Saved.state Saved.savedDiffs]. unfold w1.
      rewrite save_list. cbv zeta. rewrite length_take.
      unfold Saved.MAX_SAVED_DIFFS. lia. }
    rewrite <- Hid.
    rewrite (load_saved clock' canWrite' (edit_content t d w1)
               (Saved.saveDiffToLocalStorage clock' canWrite' (edit_content t d w1))
               Hlen1 eq_refl).
    split; reflexivity.
  - intros Hcur. unfold w1, id.
    destruct (first_with_id (save_id clock (Saved.state w)) (Saved.savedDiffs (Saved.state w)))
      as [Hnew | (j & e & Hj & Hp & Hb)].
    + exact (proj2 (save_list_new clock canWrite w Hnew)).
    + rewrite (proj2 (save_list_known clock canWrite w j e Hj Hp Hb)).
      destruct Hcur as [Hne | Hall].
      * unfold save_id.
        destruct (Saved.currentDiffId (Saved.state w)); [contradiction|reflexivity].
      * exfalso. apply (Hall e); [apply (lookup_In _ j), Hj|].
        unfold has_id in Hp. now apply String.eqb_eq in Hp.
Qed.

Lemma save_then_load_witness :
  Saved.diffText (Saved.state
    (Saved.loadSavedDiff "diff-100"
       (Saved.saveDiffToLocalStorage sample_clock true sample_world)))
  = mixed_text
  /\ Saved.parsedDiff (Saved.state
       (Saved.loadSavedDiff "diff-100"
          (Saved.autosave sample_clock true
             (edit_content mixed_text (selectAll true mixed_doc)
                (Saved.saveDiffToLocalStorage sample_clock true sample_world)))))
     = selectAll true mixed_doc.
Proof.
  assert (Hlen : (length (Saved.savedDiffs (Saved.state sample_world)) <= 10)%nat)
    by (cbn; lia).
  destruct (save_then_load sample_clock true sample_world Hlen) as (H1 & _ & H3 & _).
  split.
  - change "diff-100" with (save_id sample_clock (Saved.state sample_world)).
    rewrite (H1 (Saved.saveDiffToLocalStorage sample_clock true sample_world) eq_refl).
    reflexivity.
  - exact (proj2 (H3 sample_clock true mixed_text (selectAll true mixed_doc)
                    ltac:(discriminate) ltac:(discriminate)
                    ltac:(vm_compute; discriminate) eq_refl)).
Defined.

(** X18: where a saved diff goes. Under an id that no entry has, the diff
    is put first, that id becomes the current one, and of more than 10
    entries the last ones are dropped. Under an id that an entry has, the
    diff takes the place of the first such entry, the entry does not move
    to the front, and the list is then cut to its first 10 entries: a list
    of at most 10 keeps its length and its order; in a longer list (the
    stored list is read unchecked) the diff is lost when that entry is at
    position 10 or later. *)
Theorem save_position (clock : Saved.Clock) (canWrite : bool) (w : Saved.World) :
  let st := Saved.state w in
  let w' := Saved.saveDiffToLocalStorage clock canWrite w in
  ((forall d, In d (Saved.savedDiffs st) -> Saved.sd_id d <> save_id clock st) ->
     Saved.savedDiffs (Saved.state w')
     = take 10 (save_entry clock st :: Saved.savedDiffs st)
     /\ Saved.currentDiffId (Saved.state w') = save_id clock st)
  /\ (forall j d,
        Saved.savedDiffs st !! j = Some d -> Saved.sd_id d = save_id clock st ->
        (forall k y, (k < j)%nat -> Saved.savedDiffs st !! k = Some y ->
                     Saved.sd_id y <> save_id clock st) ->
        Saved.savedDiffs (Saved.state w')
        = take 10 (<[j := save_entry clock st]> (Saved.savedDiffs st))
        /\ Saved.currentDiffId (Saved.state w') = Saved.currentDiffId st
        /\ ((length (Saved.savedDiffs st) <= 10)%nat ->
            Saved.savedDiffs (Saved.state w')
            = <[j := save_entry clock st]> (Saved.savedDiffs st)
            /\ length (Saved.savedDiffs (Saved.state w')) = length (Saved.savedDiffs st))
        /\ ((10 <= j)%nat ->
            Saved.savedDiffs (Saved.state w') = take 10 (Saved.savedDiffs st))).
Proof.
  cbv zeta. split.
  - intros Hnew. apply save_list_new. intros d Hd.
    unfold has_id. apply String.eqb_neq. now apply Hnew.
  - intros j d Hj Hid Hb.
    destruct (save_list_known clock canWrite w j d Hj) as [Hl Hc].
    + unfold has_id. now apply String.eqb_eq.
    + intros k y Hk Hy. unfold has_id. apply String.eqb_neq. now apply (Hb k).
    + split; [exact Hl|]. split; [exact Hc|]. split.
      * intros Hlen. rewrite Hl, take_ge by (rewrite length_insert; exact Hlen).
        split; [reflexivity | apply length_insert].
      * intros Hj10. rewrite Hl. now apply take_insert_ge.
Qed.

Lemma save_position_witness :
  map Saved.sd_id
      (Saved.savedDiffs (Saved.state
         (Saved.saveDiffToLocalStorage sample_clock true sample_world)))
  = ["diff-200"; "diff-100"].
Proof.
  rewrite (proj1 (proj2 (save_position sample_clock true sample_world) 1%nat
             {| Saved.sd_id := "diff-100"; Saved.sd_name := "first";
                Saved.sd_timestamp := 100; Saved.sd_diffText := mixed_text;
                Saved.sd_parsedDiff := mixed_doc |}
             eq_refl eq_refl
             ltac:(intros k y Hk Hy; destruct k as [|k]; [|lia];
                   injection Hy as <-; discriminate))).
  reflexivity.
Defined.

Lemma filter_other_ids (id : string) (l : list Saved.SavedDiff) :
  forall d, In d (List.filter (fun d => negb (has_id id d)) l) -> has_id id d = false.
Proof. intros d Hd. apply filter_In in Hd as [_ Hd]. now apply negb_true_iff in Hd. Qed.

Lemma NoDup_map_filter {A B} (g : A -> B) (q : A -> bool) (l : list A) :
  NoDup (map g l) -> NoDup (map g (List.filter q l)).
Proof.
  induction l as [|x l IH]; cbn; intros H; [constructor|].
  apply NoDup_cons in H as [Hx Hl]. destruct (q x); cbn; [|now apply IH].
  apply NoDup_cons. split; [|now apply IH].
  intros Hin. apply Hx. apply list_elem_of_In in Hin. apply list_elem_of_In.
  apply in_map_iff in Hin as (y & Hy & Hin). apply filter_In in Hin as [Hin _].
  apply in_map_iff. now exists y.
Qed.

(** X19: [deleteSavedDiff], when the write succeeds: no entry with the id
    is left, so loading that id afterwards does nothing; the other entries
    stay, in their order; the storage slot holds the new list; a list within
    the cap and without shared ids stays so. Deleting the current diff also
    empties the text, the document, the export name and the current id;
    deleting another one leaves them. *)
Theorem delete_removes (diffId : string) (w : Saved.World) :
  exists w',
    Saved.deleteSavedDiff true diffId w = Normal w'
    /\ Saved.savedDiffs (Saved.state w')
       = List.filter (fun d => negb (String.eqb (Saved.sd_id d) diffId))
                     (Saved.savedDiffs (Saved.state w))
    /\ (forall d, In d (Saved.savedDiffs (Saved.state w')) -> Saved.sd_id d <> diffId)
    /\ Saved.loadSavedDiff diffId w' = w'
    /\ Saved.stored w' = Some (Saved.savedDiffs (Saved.state w'))
    /\ (Saved.well_kept (Saved.savedDiffs (Saved.state w)) ->
        Saved.well_kept (Saved.savedDiffs (Saved.state w')))
    /\ (Saved.currentDiffId (Saved.state w) = diffId ->
        Saved.diffText (Saved.state w') = EmptyString
        /\ Saved.parsedDiff (Saved.state w') = []
        /\ Saved.exportName (Saved.state w') = EmptyString
        /\ Saved.currentDiffId (Saved.state w') = EmptyString)
    /\ (Saved.currentDiffId (Saved.state w) <> diffId ->
        Saved.diffText (Saved.state w') = Saved.diffText (Saved.state w)
        /\ Saved.parsedDiff (Saved.state w') = Saved.parsedDiff (Saved.state w)
        /\ Saved.exportName (Saved.state w') = Saved.exportName (Saved.state w)
        /\ Saved.currentDiffId (Saved.state w') = Saved.currentDiffId (Saved.state w)).
Proof.
  eexists. split; [reflexivity|].
  assert (Hl : Saved.savedDiffs
                 (Saved.state
                    {| Saved.state :=
                         if String.eqb (Saved.currentDiffId (Saved.state w)) diffId
                         then {| Saved.diffText := EmptyString; Saved.parsedDiff := [];
                                 Saved.savedDiffs :=
                                   List.filter (fun d => negb (String.eqb (Saved.sd_id d) diffId))
                                               (Saved.savedDiffs (Saved.state w));
                                 Saved.exportName := EmptyString;
                                 Saved.currentDiffId := EmptyString;
                                 Saved.showSavedDiffs := Saved.showSavedDiffs (Saved.state w) |}
                         else Saved.set_saved
                                (List.filter (fun d => negb (String.eqb (Saved.sd_id d) diffId))
                                             (Saved.savedDiffs (Saved.state w)))
                                (Saved.currentDiffId (Saved.state w)) (Saved.state w);
                       Saved.stored :=
                         Some (List.filter (fun d => negb (String.eqb (Saved.sd_id d) diffId))
                                           (Saved.savedDiffs (Saved.state w))) |})
               = List.filter (fun d => negb (String.eqb (Saved.sd_id d) diffId))
                             (Saved.savedDiffs (Saved.state w))).
  { cbn. now destruct (String.eqb _ _). }
  split; [exact Hl|]. rewrite Hl.
  split; [|split; [|split; [|split; [|split]]]].
  - intros d Hd. apply (filter_other_ids diffId) in Hd. unfold has_id in Hd.
    now apply String.eqb_neq.
  - unfold Saved.loadSavedDiff. rewrite Hl. fold (has_id diffId).
    now rewrite (find_absent _ _ (filter_other_ids diffId _)).
  - reflexivity.
  - intros [Hlen Hnd]. split.
    + pose proof (filter_length_le (fun d => negb (String.eqb (Saved.sd_id d) diffId))
                                   (Saved.savedDiffs (Saved.state w))). lia.
    + now apply NoDup_map_filter.
  - intros Hcur. cbn. apply String.eqb_eq in Hcur. rewrite Hcur. cbn. auto.
  - intros Hcur. cbn. apply String.eqb_neq in Hcur. rewrite Hcur. cbn. auto.
Qed.

Lemma delete_removes_witness :
  exists w',
    Saved.deleteSavedDiff true "diff-100" sample_world = Normal w'
    /\ map Saved.sd_id (Saved.savedDiffs (Saved.state w')) = ["diff-200"]
    /\ Saved.diffText (Saved.state w') = EmptyString.
Proof.
  destruct (delete_removes "diff-100" sample_world) as (w' & Hw & Hl & _ & _ & _ & _ & Hc & _).
  exists w'. split; [exact Hw|]. split.
  - rewrite Hl. reflexivity.
  - apply (Hc eq_refl).
Defined.

Lemma trimStart_spaces (s : string) :
  forallb Saved.is_space (String.list_ascii_of_string s) = true -> Saved.trimStart s = EmptyString.
Proof.
  induction s as [|c s IH]; cbn; [reflexivity|]. intros H.
  apply andb_prop in H as [Hc Hs]. rewrite Hc. now apply IH.
Qed.

Lemma rename_ids (diffId newName : string) (l : list Saved.SavedDiff) :
  map Saved.sd_id
      (map (fun diff => if String.eqb (Saved.sd_id diff) diffId
                        then Saved.set_name newName diff else diff) l)
  = map Saved.sd_id l.
Proof.
  rewrite map_map. apply map_ext. intros d. now destruct (String.eqb _ _).
Qed.

(** X20: [renameSavedDiff]. A new name that is empty or made of white
    space only changes nothing, whether or not the storage can be written.
    Otherwise, when the write succeeds, every entry with the id gets the new
    name and nothing else of any entry changes (ids, order, times, texts and
    documents), the storage slot holds the new list, the export name follows
    if the diff is the current one, and loading the diff afterwards sets the
    export name to the new name. *)
Theorem rename_effect (diffId newName : string) (w : Saved.World) :
  (forall canWrite,
     forallb Saved.is_space (String.list_ascii_of_string newName) = true ->
     Saved.renameSavedDiff canWrite diffId newName w = Normal w)
  /\ (Saved.non_empty (Saved.trim newName) = true ->
      exists w',
        Saved.renameSavedDiff true diffId newName w = Normal w'
        /\ map Saved.sd_id (Saved.savedDiffs (Saved.state w'))
           = map Saved.sd_id (Saved.savedDiffs (Saved.state w))
        /\ map (fun d => (Saved.sd_timestamp d, Saved.sd_diffText d, Saved.sd_parsedDiff d))
               (Saved.savedDiffs (Saved.state w'))
           = map (fun d => (Saved.sd_timestamp d, Saved.sd_diffText d, Saved.sd_parsedDiff d))
                 (Saved.savedDiffs (Saved.state w))
        /\ (forall i d, Saved.savedDiffs (Saved.state w) !! i = Some d ->
              Saved.sd_name <$> (Saved.savedDiffs (Saved.state w') !! i)
              = Some (if String.eqb (Saved.sd_id d) diffId then newName
                      else Saved.sd_name d))
        /\ Saved.stored w' = Some (Saved.savedDiffs (Saved.state w'))
        /\ Saved.exportName (Saved.state w')
           = (if String.eqb (Saved.currentDiffId (Saved.state w)) diffId then newName
              else Saved.exportName (Saved.state w))
        /\ Saved.diffText (Saved.state w') = Saved.diffText (Saved.state w)
        /\ Saved.parsedDiff (Saved.state w') = Saved.parsedDiff (Saved.state w)
        /\ ((exists d, In d (Saved.savedDiffs (Saved.state w)) /\ Saved.sd_id d = diffId) ->
            Saved.exportName (Saved.state (Saved.loadSavedDiff diffId w')) = newName)).
Proof.
  split.
  - intros canWrite Hsp. unfold Saved.renameSavedDiff, Saved.trim.
    now rewrite (trimStart_spaces newName Hsp).
  - intros Hname. unfold Saved.renameSavedDiff. rewrite Hname. cbn [negb].
    eexists. split; [reflexivity|]. cbn [Saved.state Saved.savedDiffs Saved.stored
      Saved.exportName Saved.diffText Saved.parsedDiff].
    split; [apply rename_ids|]. split.
    { rewrite map_map. apply map_ext. intros d. now destruct (String.eqb _ _). }
    split.
    { intros i d Hi. rewrite lookup_map, Hi. cbn. now destruct (String.eqb _ _). }
    split; [reflexivity|]. split; [reflexivity|]. split; [reflexivity|].
    split; [reflexivity|].
    intros (d & Hd & Hid). unfold Saved.loadSavedDiff.
    cbn [Saved.state Saved.savedDiffs]. fold (has_id diffId).
    destruct (first_with_id diffId (Saved.savedDiffs (Saved.state w)))
      as [Hnone | (j & x & Hj & Hp & Hb)].
    + specialize (Hnone d Hd). unfold has_id in Hnone.
      rewrite Hid, String.eqb_refl in Hnone. discriminate.
    + rewrite (find_first (has_id diffId) _ j (Saved.set_name newName x)).
      * reflexivity.
      * rewrite lookup_map, Hj. cbn. unfold has_id in Hp. now rewrite Hp.
      * exact Hp.
      * intros k y Hk Hy. rewrite lookup_map in Hy.
        destruct (Saved.savedDiffs (Saved.state w) !! k) as [z|] eqn:Ez; [|discriminate].
        cbn in Hy. injection Hy as <-. specialize (Hb k z Hk Ez).
        unfold has_id in *. now rewrite Hb.
Qed.

Lemma rename_effect_witness :
  exists w',
    Saved.renameSavedDiff true "diff-200" "release notes" sample_world = Normal w'
    /\ map Saved.sd_name (Saved.savedDiffs (Saved.state w')) = ["release notes"; "first"]
    /\ Saved.renameSavedDiff false "diff-200" "   " sample_world = Normal sample_world.
Proof.
  destruct (proj2 (rename_effect "diff-200" "release notes" sample_world) eq_refl)
    as (w' & Hw & _).
  exists w'. split; [exact Hw|]. split.
  - vm_compute in Hw. injection Hw as <-. reflexivity.
  - apply (proj1 (rename_effect "diff-200" "   " sample_world)). reflexivity.
Defined.


(** ** The export: painting *)

Lemma each_from_calls {A} (body : Pen -> A -> nat -> Pen) (step : Z -> A -> nat -> Z)
    (calls : Z -> A -> nat -> list Draw) :
  (forall y drawn x i, body (y, drawn) x i = (step y x i, drawn ++ calls y x i)) ->
  forall (l : list A) (i : nat) (y : Z) (drawn : list Draw),
    each_from i body (y, drawn) l
    = (forEach_from i step y l, drawn ++ calls_from i step calls y l).
Proof.
  intros Hbody. induction l as [|x l IH]; intros i y drawn.
  - cbn. now rewrite app_nil_r.
  - cbn [each_from forEach_from calls_from]. rewrite Hbody, IH.
    now rewrite <- app_assoc.
Qed.

Lemma lines_cursor (o : PaintOptions) (lines : list string) :
  forall (i : nat) (y : Z),
    forEach_from i (line_step o) y lines
    = y + Z.of_nat (length lines) * (p_fontSize o + 2).
Proof.
  induction lines as [|line lines IH]; intros i y.
  - cbn. lia.
  - cbn [forEach_from]. rewrite IH. unfold line_step. cbn [length]. lia.
Qed.

Lemma paint_hunk_calls (o : PaintOptions) (hunks : list DiffHunk) (y : Z)
    (drawn : list Draw) (hunk : DiffHunk) (i : nat) :
  paint_hunk o hunks (y, drawn) hunk i
  = (measure_hunk (p_fontSize o) hunks y hunk i, drawn ++ hunk_calls o hunks y hunk i).
Proof.
  unfold paint_hunk, each.
  rewrite (each_from_calls (paint_line o _) (line_step o) (line_calls o _))
    by reflexivity.
  rewrite lines_cursor. unfold measure_hunk, hunk_calls, hunk_numbers, lineHeight, hunkSpacing.
  replace (y + hunk_rows (p_fontSize o) hunk + 5)
    with (y + (p_fontSize o + 4)
          + Z.of_nat (length (hunk_lines hunk)) * (p_fontSize o + 2) + 5)
    by (unfold hunk_rows, n_lines_of_hunk; ring).
  destruct (Z.of_nat i <? Z.of_nat (length hunks) - 1).
  - now rewrite <- !app_assoc.
  - now rewrite <- !app_assoc, app_nil_r.
Qed.

Lemma paint_file_calls (o : PaintOptions) (files : list (ref DiffFile)) (y : Z)
    (drawn : list Draw) (file : ref DiffFile) (i : nat) :
  paint_file o files (y, drawn) file i
  = (file_step o files y file i, drawn ++ file_calls o files y file i).
Proof.
  unfold paint_file, each.
  rewrite (each_from_calls (paint_hunk o _) (measure_hunk (p_fontSize o) _)
                           (hunk_calls o _))
    by (intros; apply paint_hunk_calls).
  rewrite (forEach_hunks (p_fontSize o) (file_hunks (ref_val file))
                         (file_hunks (ref_val file)) 0) by reflexivity.
  unfold file_step, file_calls.
  replace (y + file_rows (p_fontSize o) (ref_val file))
    with (y + (p_fontSize o + 8)
          + sumZ (map (hunk_rows (p_fontSize o)) (file_hunks (ref_val file)))
          + 5 * Z.of_nat (pred (length (file_hunks (ref_val file)))))
    by (unfold file_rows; ring).
  destruct (Z.of_nat i <? Z.of_nat (length files) - 1).
  - now rewrite <- !app_assoc.
  - now rewrite <- !app_assoc, app_nil_r, Z.add_0_r.
Qed.

Lemma paint_calls (o : PaintOptions) (files : list (ref DiffFile)) :
  paint o files
  = (forEach (file_step o files) 10 files,
     backdrop o (totalHeight (p_fontSize o) files)
     ++ calls_from 0 (file_step o files) (file_calls o files) 10 files).
Proof.
  unfold paint, each, forEach.
  apply each_from_calls. intros. apply paint_file_calls.
Qed.

Lemma forEach_file_step (o : PaintOptions) (all : list (ref DiffFile)) :
  forall (rest : list (ref DiffFile)) (i : nat) (acc : Z),
    length all = (i + length rest)%nat ->
    forEach_from i (file_step o all) acc rest
    = acc + sumZ (map (file_rows (p_fontSize o)) (map ref_val rest))
      + 10 * Z.of_nat (pred (length rest)).
Proof.
  induction rest as [|file rest IH]; intros i acc Hlen.
  - cbn. lia.
  - cbn [forEach_from]. rewrite IH by (cbn [length] in Hlen; lia).
    unfold file_step. cbn [map sumZ].
    generalize (sumZ (map (file_rows (p_fontSize o)) (map ref_val rest)))
               (file_rows (p_fontSize o) (ref_val file)). intros s r.
    destruct rest as [|g rest]; cbn [length pred] in *;
      destruct (Z.ltb_spec (Z.of_nat i) (Z.of_nat (length all) - 1)); lia.
Qed.

Lemma paint_cursor (o : PaintOptions) (doc : list DiffFile) :
  forEach (file_step o (selectedFiles doc)) 10 (selectedFiles doc) + bottomPadding
  = totalHeight (p_fontSize o) (selectedFiles doc).
Proof.
  rewrite totalHeight_rows. unfold forEach, bottomPadding.
  rewrite (forEach_file_step o (selectedFiles doc) (selectedFiles doc) 0)
    by reflexivity.
  unfold exported. now rewrite length_map.
Qed.

(** X21: the two passes of [downloadAsImage] agree: painting the selected
    files moves the cursor from the top padding to exactly the bottom
    padding above the height that the measuring pass gave the canvas,
    whatever the font size and the options. *)
Theorem paint_fills_canvas (o : PaintOptions) (doc : list DiffFile) :
  fst (paint o (selectedFiles doc)) + bottomPadding
  = totalHeight (p_fontSize o) (selectedFiles doc).
Proof.
  rewrite paint_calls. cbn [fst]. apply paint_cursor.
Qed.











Lemma texts_app (a b : list Draw) : texts (a ++ b) = texts a ++ texts b.
Proof. unfold texts. apply flat_map_app. Qed.

Lemma line_calls_texts (o : PaintOptions) (hunk : DiffHunk) (y : Z) (line : string)
    (i : nat) :
  hunk_lines hunk !! i = Some line ->
  texts (line_calls o (hunk_numbers o hunk) y line i)
  = line_texts (if p_showLineNumbers o then displayedLineNumbers hunk !! i else None)
               line.
Proof.
  intros Hline. unfold line_calls, hunk_numbers, displayedLineNumbers, line_texts.
  rewrite lookup_zip_with, Hline. cbn [mbind option_bind].
  rewrite !texts_app.
  replace (texts (if Js.startsWith line "+" || Js.startsWith line "-"
                  then [FillRect
                          (if Js.startsWith line "+" then theme o "#064e3b" "#d1fae5"
                           else if Js.startsWith line "-" then theme o "#7f1d1d" "#fee2e2"
                           else "transparent") 0 y (p_width o) (p_fontSize o + 2)]
                  else []))
    with (@nil string) by (destruct (_ || _); reflexivity).
  destruct (p_showLineNumbers o); [|reflexivity].
  destruct (calculateLineNumbers hunk !! i) as [n|]; [|reflexivity].
  cbn [mbind option_bind]. unfold shownNumbers, number_texts. cbn [fst snd].
  rewrite !texts_app.
  destruct (negb (Js.startsWith line "+")), (negb (Js.startsWith line "-")); reflexivity.
Qed.

Lemma lines_texts (o : PaintOptions) (hunk : DiffHunk) :
  forall (rest pre : list string) (y : Z),
    hunk_lines hunk = pre ++ rest ->
    texts (calls_from (length pre) (line_step o) (line_calls o (hunk_numbers o hunk))
                      y rest)
    = concat (imap (fun k line =>
                      line_texts (if p_showLineNumbers o
                                  then displayedLineNumbers hunk !! (length pre + k)%nat
                                  else None) line)
                   rest).
Proof.
  induction rest as [|line rest IH]; intros pre y Hall; [reflexivity|].
  cbn [calls_from imap concat]. rewrite texts_app. f_equal.
  - rewrite line_calls_texts; [now rewrite Nat.add_0_r|].
    rewrite Hall. apply list_lookup_middle. reflexivity.
  - replace (S (length pre)) with (length (pre ++ [line]))
      by (rewrite length_app; cbn; lia).
    rewrite IH by (now rewrite <- app_assoc). f_equal. apply imap_ext.
    intros k x _. cbn. rewrite length_app. cbn [length].
    now replace (length pre + 1 + k)%nat with (length pre + S k)%nat by lia.
Qed.

Lemma hunk_calls_texts (o : PaintOptions) (hunks : list DiffHunk) (y : Z)
    (hunk : DiffHunk) (i : nat) :
  texts (hunk_calls o hunks y hunk i) = hunk_texts (p_showLineNumbers o) hunk.
Proof.
  unfold hunk_calls, hunk_texts. rewrite !texts_app.
  rewrite (lines_texts o hunk (hunk_lines hunk) []) by reflexivity.
  replace (texts (if Z.of_nat i <? Z.of_nat (length hunks) - 1 then _ else _))
    with (@nil string) by (destruct (_ <? _); reflexivity).
  now rewrite app_nil_r.
Qed.

Lemma calls_from_texts {A} (step : Z -> A -> nat -> Z)
    (calls : Z -> A -> nat -> list Draw) (expected : A -> list string) :
  (forall y x i, texts (calls y x i) = expected x) ->
  forall (l : list A) (i : nat) (y : Z),
    texts (calls_from i step calls y l) = flat_map expected l.
Proof.
  intros H. induction l as [|x l IH]; intros i y; [reflexivity|].
  cbn [calls_from flat_map]. now rewrite texts_app, H, IH.
Qed.

Lemma file_calls_texts (o : PaintOptions) (files : list (ref DiffFile)) (y : Z)
    (file : ref DiffFile) (i : nat) :
  texts (file_calls o files y file i) = file_texts (p_showLineNumbers o) (ref_val file).
Proof.
  unfold file_calls, file_texts. rewrite !texts_app.
  rewrite (calls_from_texts _ _ (hunk_texts (p_showLineNumbers o)))
    by (intros; apply hunk_calls_texts).
  replace (texts (if Z.of_nat i <? Z.of_nat (length files) - 1 then _ else _))
    with (@nil string) by (destruct (_ <? _); reflexivity).
  now rewrite app_nil_r.
Qed.

(** X23: what the image says: the texts written by the painting pass are,
    in order and with nothing else, for each exported file its path, for
    each of its hunks the header, and for each line of the hunk the numbers
    that the preview table displays for it (only when line numbers are
    switched on, and none when the header has no numbers), then its marker
    and its content without the marker. *)
Theorem paint_texts (o : PaintOptions) (doc : list DiffFile) :
  texts (snd (paint o (selectedFiles doc)))
  = flat_map (file_texts (p_showLineNumbers o)) (exported doc).
Proof.
  rewrite paint_calls. cbn [snd]. rewrite texts_app.
  rewrite (calls_from_texts _ _ (fun file => file_texts (p_showLineNumbers o)
                                                        (ref_val file)))
    by (intros; apply file_calls_texts).
  unfold exported. cbn [backdrop texts flat_map app].
  induction (selectedFiles doc) as [|file l IH]; [reflexivity|].
  cbn [flat_map map]. now rewrite IH.
Qed.

(** ** The export: the name of the download *)




Lemma save_keeps_list_witness :
  NoDup (map Saved.sd_id (Saved.savedDiffs (Saved.state sample_world)))
  /\ NoDup (map Saved.sd_id
                (Saved.savedDiffs
                   (Saved.state (Saved.saveDiffToLocalStorage sample_clock true
                                                              sample_world)))).
Proof.
  assert (H : NoDup (map Saved.sd_id (Saved.savedDiffs (Saved.state sample_world)))).
  { apply (bool_decide_unpack _). vm_compute. exact I. }
  split; [exact H|].
  exact (proj1 (proj2 (save_keeps_list sample_clock true sample_world)) H).
Defined.


(** ** The export: what is downloaded *)

Lemma paint_texts_files (o : PaintOptions) (files : list (ref DiffFile)) :
  texts (snd (paint o files))
  = flat_map (file_texts (p_showLineNumbers o)) (map ref_val files).
Proof.
  rewrite paint_calls. cbn [snd]. rewrite texts_app.
  rewrite (calls_from_texts _ _ (fun file => file_texts (p_showLineNumbers o)
                                                        (ref_val file)))
    by (intros; apply file_calls_texts).
  cbn [backdrop texts flat_map app].
  induction files as [|file l IH]; [reflexivity|].
  cbn [flat_map map]. now rewrite IH.
Qed.

Lemma totalHeight_formula (f : Z) (doc : list DiffFile) :
  exported doc <> [] ->
  totalHeight f (selectedFiles doc) = height_formula f (exported doc).
Proof.
  intros Hne.
  rewrite totalHeight_rows, (file_rows_sum f _ (exported_has_hunks doc)).
  unfold height_formula, file_gaps, n_files.
  destruct (exported doc) as [|g rest]; [contradiction|]. cbn [length pred]. lia.
Qed.

(** C6: the export shows, in document order, the files that are marked
    selected or have a selected hunk, each cut down to its selected hunks,
    those left without a hunk dropped; so every file shown has a hunk and
    only selected hunks. When nothing is left, the call returns nothing to
    download. When something is left, and the page gives a container and a
    2D context, the call downloads a canvas that is measured for these
    files and on which the texts written are the paths, the hunk headers
    and the lines of these files and of no other. In every case the
    document, with its selection flags, is as before. *)
Theorem export_filter (doc : list DiffFile) :
  exported doc
  = List.filter (fun file => negb (length (file_hunks file) =? 0)%nat)
      (map (fun file =>
              {| file_id := file_id file; file_header := file_header file;
                 file_path := file_path file;
                 file_hunks := List.filter hunk_selected (file_hunks file);
                 file_selected := file_selected file |})
           (List.filter (fun file => file_selected file
                                     || existsb hunk_selected (file_hunks file)) doc))
  /\ (forall shown,
        In shown (exported doc) <->
        exists file, In file doc
          /\ (file_selected file = true
              \/ exists hunk, In hunk (file_hunks file) /\ hunk_selected hunk = true)
          /\ shown = keep_selected_hunks file
          /\ file_hunks shown <> [])
  /\ (forall shown hunk,
        In shown (exported doc) -> In hunk (file_hunks shown) ->
        hunk_selected hunk = true)
  /\ (forall page st,
        parsedDiff st = doc -> exported doc = [] ->
        downloadAsImage page st = (set_generating false st, None))
  /\ (forall page st width,
        parsedDiff st = doc -> exported doc <> [] ->
        containerWidth page = Some width -> has2dContext page = true ->
        exists download,
          snd (downloadAsImage page st) = Some download
          /\ texts (canvas_calls (download_canvas download))
             = flat_map (file_texts (showLineNumbers st)) (exported doc)
          /\ canvas_height (download_canvas download)
             = height_formula (fontSize st) (exported doc))
  /\ (forall page st,
        parsedDiff st = doc ->
        parsedDiff (fst (downloadAsImage page st)) = doc).
Proof.
  split; [|split; [|split; [|split; [|split]]]].
  - rewrite exported_eq. apply filter_ext. intros file.
    destruct (length (file_hunks file)); reflexivity.
  - intros shown. rewrite exported_eq, filter_In, in_map_iff. split.
    + intros [(file & <- & Hf) Hlen]. apply filter_In in Hf as [Hf Hp].
      exists file. split; [exact Hf|]. split; [|split; [reflexivity|]].
      * apply orb_prop in Hp as [Hp|Hp]; [now left|right].
        apply existsb_exists in Hp. exact Hp.
      * intros Hnil. rewrite Hnil in Hlen. discriminate.
    + intros (file & Hf & Hp & -> & Hne). split.
      * exists file. split; [reflexivity|]. apply filter_In. split; [exact Hf|].
        destruct Hp as [->|Hp]; [reflexivity|].
        apply orb_true_iff. right. now apply existsb_exists.
      * destruct (file_hunks (keep_selected_hunks file)); [contradiction|reflexivity].
  - intros shown hunk Hs Hh. rewrite exported_closed in Hs.
    apply in_map_iff in Hs as (file & <- & _). cbn in Hh.
    now apply filter_In in Hh.
  - intros page st <- Hnil. unfold exported in Hnil. apply map_eq_nil in Hnil.
    unfold downloadAsImage.
    change (parsedDiff (set_generating true st)) with (parsedDiff st).
    rewrite Hnil. destruct (containerWidth page); reflexivity.
  - intros page st width <- Hne Hw Hc. unfold downloadAsImage. rewrite Hw, Hc.
    change (parsedDiff (set_generating true st)) with (parsedDiff st).
    change (fontSize (set_generating true st)) with (fontSize st).
    change (showLineNumbers (set_generating true st)) with (showLineNumbers st).
    destruct (selectedFiles (parsedDiff st)) as [|r rs] eqn:E.
    + exfalso. apply Hne. unfold exported. now rewrite E.
    + cbn [length Nat.eqb snd]. eexists. split; [reflexivity|].
      cbn [download_canvas canvas_calls canvas_height]. rewrite <- E. split.
      * rewrite paint_texts_files. reflexivity.
      * now apply totalHeight_formula.
  - intros page st <-. apply download_keeps_document.
Qed.

Lemma export_filter_witness :
  downloadAsImage sample_page (sample_state (selectAll false bare_doc))
  = (sample_state (selectAll false bare_doc), None)
  /\ exists download,
       snd (downloadAsImage sample_page (sample_state partial_doc)) = Some download
       /\ texts (canvas_calls (download_canvas download))
          = ["q"; "@@ -1,2 +1,2 @@"; "1"; "1"; " "; " c"; "2"; "-"; "d"; "2"; "+"; "e"]
       /\ canvas_height (download_canvas download) = 108.
Proof.
  split.
  - apply (proj1 (proj2 (proj2 (proj2 (export_filter (selectAll false bare_doc)))))
             sample_page (sample_state (selectAll false bare_doc)));
      reflexivity.
  - destruct (proj1 (proj2 (proj2 (proj2 (proj2 (export_filter partial_doc)))))
                sample_page (sample_state partial_doc) 800 eq_refl
                ltac:(vm_compute; discriminate) eq_refl eq_refl)
      as (download & Hd & Ht & Hh).
    exists download. split; [exact Hd|]. split.
    + rewrite Ht. vm_compute. reflexivity.
    + rewrite Hh. vm_compute. reflexivity.
Defined.


(** ** The documents of the component *)

Lemma selection_ops_frame (doc : list DiffFile) (fid hid : string) (select : bool) :
  frame (toggleFileSelection fid doc) = frame doc
  /\ frame (toggleHunkSelection fid hid doc) = frame doc
  /\ frame (selectAll select doc) = frame doc.
Proof.
  unfold frame, toggleFileSelection, toggleHunkSelection, selectAll.
  rewrite !map_map. repeat split.
  - apply map_ext. intros file. destruct (String.eqb _ _); [|reflexivity].
    unfold file_frame. cbn. now rewrite map_map.
  - apply map_ext. intros file. destruct (String.eqb _ _); [|reflexivity].
    unfold file_frame. cbn. f_equal. rewrite map_map.
    apply map_ext. intros h. apply (hunk_frame_flip_if hid).
  - apply map_ext. intros file. unfold file_frame. cbn. now rewrite map_map.
Qed.

Lemma ids_of_frame (doc : list DiffFile) :
  map file_id doc = map (fun fr => fst (fst (fst fr))) (frame doc)
  /\ map hunk_id (all_hunks doc)
     = concat (map (fun fr => map (fun hf : string * string * list string =>
                                     fst (fst hf)) (snd fr))
                   (frame doc)).
Proof.
  unfold frame, all_hunks. split.
  - rewrite map_map. reflexivity.
  - induction doc as [|file doc IH]; [reflexivity|].
    cbn [map concat]. rewrite map_app, IH. f_equal.
    unfold file_frame. cbn. now rewrite map_map.
Qed.

Lemma frame_distinct_ids (a b : list DiffFile) :
  frame a = frame b -> distinct_ids b -> distinct_ids a.
Proof.
  intros Hf [Hfiles Hhunks]. unfold distinct_ids.
  destruct (ids_of_frame a) as [-> ->], (ids_of_frame b) as [Hb1 Hb2].
  rewrite Hf, <- Hb1, <- Hb2. now split.
Qed.

Lemma reachable_distinct_ids (doc : list DiffFile) :
  reachable doc -> distinct_ids doc.
Proof.
  induction 1 as [text doc Hd|fid doc _ IH|fid hid doc _ IH|select doc _ IH].
  - destruct (parsed_ids_distinct text doc Hd) as (H1 & H2 & _). now split.
  - apply (frame_distinct_ids _ doc); [|exact IH].
    apply (selection_ops_frame doc fid EmptyString true).
  - apply (frame_distinct_ids _ doc); [|exact IH].
    apply (selection_ops_frame doc fid hid true).
  - apply (frame_distinct_ids _ doc); [|exact IH].
    apply (selection_ops_frame doc EmptyString EmptyString select).
Qed.

(** C5: [toggleHunkSelection fid hid] on a file with id [fid] holding a
    hunk with id [hid]: that hunk gets the opposite flag and keeps its id,
    its header and its lines; no hunk with another id is touched; the hunk
    list keeps its length; the file's flag becomes true exactly when every
    hunk of the file is selected afterwards; nothing else of the file
    changes, and files with another id are left as they are. In a document
    of the component, reached from [parseDiff] by the selection operations,
    ids are distinct, and then that hunk is the only one that changes: every
    other position of the file's hunk list and every other file of the
    document is as before. *)
Theorem toggleHunk_flips (doc : list DiffFile) (fid hid : string) (i j : nat)
    (file : DiffFile) (hunk : DiffHunk) :
  doc !! i = Some file -> file_id file = fid ->
  file_hunks file !! j = Some hunk -> hunk_id hunk = hid ->
  exists file' hunk',
    toggleHunkSelection fid hid doc !! i = Some file'
    /\ file_hunks file' !! j = Some hunk'
    /\ hunk_selected hunk' = negb (hunk_selected hunk)
    /\ hunk_id hunk' = hunk_id hunk
    /\ hunk_header hunk' = hunk_header hunk
    /\ hunk_lines hunk' = hunk_lines hunk
    /\ (forall k other, file_hunks file !! k = Some other -> hunk_id other <> hid ->
          file_hunks file' !! k = Some other)
    /\ length (file_hunks file') = length (file_hunks file)
    /\ (file_selected file' = true <->
          forall h, In h (file_hunks file') -> hunk_selected h = true)
    /\ file_frame file' = file_frame file
    /\ (forall k other, doc !! k = Some other -> file_id other <> fid ->
          toggleHunkSelection fid hid doc !! k = Some other)
    /\ (reachable doc -> distinct_ids doc)
    /\ (distinct_ids doc ->
          (forall k, k <> j -> file_hunks file' !! k = file_hunks file !! k)
          /\ (forall k, k <> i -> toggleHunkSelection fid hid doc !! k = doc !! k)).
Proof.
  intros Hi Hfid Hj Hhid.
  eexists. exists (set_hunk_selected (negb (hunk_selected hunk)) hunk).
  split; [exact (toggleHunk_lookup doc fid hid i file Hi Hfid)|].
  cbn [file_hunks file_selected].
  split.
  { rewrite lookup_map, Hj. cbn. unfold flip_if.
    apply String.eqb_eq in Hhid. now rewrite Hhid. }
  split; [reflexivity|]. split; [reflexivity|]. split; [reflexivity|].
  split; [reflexivity|].
  split.
  { intros k other Hk Hne. rewrite lookup_map, Hk. cbn. now rewrite flip_if_other. }
  split; [apply length_map|].
  split; [rewrite forallb_forall; tauto|].
  split.
  { unfold file_frame. cbn. f_equal. rewrite map_map.
    apply map_ext. intros h. apply hunk_frame_flip_if. }
  split; [intros k other Hk Hne; now apply toggle_other_file|].
  split; [apply reachable_distinct_ids|].
  intros [Hfiles Hhunks]. split.
  - assert (Hnd : NoDup (map hunk_id (file_hunks file))).
    { apply (NoDup_concat_part hunk_id (map file_hunks doc)); [exact Hhunks|].
      apply in_map. apply (lookup_In _ i), Hi. }
    intros k Hkj. rewrite lookup_map.
    destruct (file_hunks file !! k) as [other|] eqn:Hk; [|reflexivity]. cbn.
    rewrite flip_if_other; [reflexivity|]. intros Heq. apply Hkj.
    eapply NoDup_lookup; [exact Hnd| |].
    + rewrite lookup_map, Hk. cbn. now rewrite Heq.
    + rewrite lookup_map, Hj. cbn. now rewrite Hhid.
  - intros k Hki.
    destruct (doc !! k) as [other|] eqn:Hk.
    + apply (toggle_other_file doc fid hid k other Hk). intros Heq. apply Hki.
      eapply NoDup_lookup; [exact Hfiles| |].
      * rewrite lookup_map, Hk. cbn. now rewrite Heq.
      * rewrite lookup_map, Hi. cbn. now rewrite Hfid.
    + unfold toggleHunkSelection. now rewrite lookup_map, Hk.
Qed.

Lemma toggleHunk_flips_witness :
  exists file',
    toggleHunkSelection "file-1" "hunk-1" mixed_doc !! 0%nat = Some file'
    /\ map hunk_selected (file_hunks file') = [true; true]
    /\ file_selected file' = true
    /\ file_hunks file' !! 1%nat
       = Some {| hunk_id := "hunk-2"; hunk_header := "@@ -9 +9 @@";
                 hunk_lines := ["-c"; "+d"]; hunk_selected := true |}.
Proof.
  assert (R : reachable mixed_doc).
  { change mixed_doc
      with (toggleHunkSelection "file-1" "hunk-1" (selectAll true mixed_doc)).
    apply reach_toggleHunk, (reach_parse mixed_text). vm_compute. reflexivity. }
  destruct (toggleHunk_flips mixed_doc "file-1" "hunk-1" 0 0
              {| file_id := "file-1"; file_header := "diff --git a/f.ts b/f.ts";
                 file_path := "f.ts";
                 file_hunks :=
                   [ {| hunk_id := "hunk-1"; hunk_header := "@@ -1 +1 @@";
                        hunk_lines := ["-a"; "+b"]; hunk_selected := false |};
                     {| hunk_id := "hunk-2"; hunk_header := "@@ -9 +9 @@";
                        hunk_lines := ["-c"; "+d"]; hunk_selected := true |} ];
                 file_selected := false |}
              {| hunk_id := "hunk-1"; hunk_header := "@@ -1 +1 @@";
                 hunk_lines := ["-a"; "+b"]; hunk_selected := false |}
              eq_refl eq_refl eq_refl eq_refl)
    as (file' & hunk' & H & _ & _ & _ & _ & _ & _ & _ & _ & _ & _ & Hreach & Hpos).
  exists file'. split; [exact H|].
  pose proof (proj1 (Hpos (Hreach R)) 1%nat ltac:(discriminate)) as Hother.
  vm_compute in H. injection H as <-.
  split; [reflexivity|]. split; [reflexivity|]. exact Hother.
Defined.


(** ** The flags of the documents of the component *)

Lemma parsed_all_selected (text : string) (doc : list DiffFile) :
  parseDiff text = Normal doc ->
  forall file, In file doc ->
    file_selected file = true
    /\ forall hunk, In hunk (file_hunks file) -> hunk_selected hunk = true.
Proof.
  intros Hd.
  destruct (parseDiff_scan text doc Hd) as [Hshape Hh].
  destruct (scan_selected (Js.split_lf text)) as [Hfs Hhs].
  rewrite <- Hh in Hhs.
  intros file Hin. split.
  - assert (Hm : In (file_selected file) (map fo_selected (fst (scan (Js.split_lf text)))))
      by (rewrite <- (shape_selected _ _ Hshape); now apply in_map).
    apply in_map_iff in Hm as (fo & <- & Hfo).
    rewrite Forall_forall in Hfs. apply Hfs, list_elem_of_In, Hfo.
  - intros hunk Hhin. rewrite Forall_forall in Hhs. apply Hhs, list_elem_of_In.
    unfold all_hunks. apply in_concat. exists (file_hunks file).
    split; [now apply in_map | exact Hhin].
Qed.

Lemma reachable_consistent (doc : list DiffFile) :
  reachable doc -> consistent doc.
Proof.
  induction 1 as [text doc Hd|fid doc _ IH|fid hid doc _ IH|select doc _ IH].
  - apply Forall_forall. intros file Hin _. apply list_elem_of_In in Hin.
    destruct (parsed_all_selected text doc Hd file Hin) as [-> Hall].
    symmetry. apply forallb_forall. exact Hall.
  - now apply toggleFile_consistent.
  - now apply toggleHunk_consistent.
  - apply selectAll_consistent.
Qed.

(** X3: the two levels of flags are kept in agreement. [selectAll] makes
    every file that has hunks flagged exactly when all its hunks are
    selected, whatever the document was; the two toggles make it so for the
    files they address, and keep it for the others; so every document
    reached from [parseDiff] by the three operations has its flags in
    agreement. *)
Theorem selection_consistent (doc : list DiffFile) (fid hid : string) (select : bool) :
  consistent (selectAll select doc)
  /\ (forall file, In file (toggleFileSelection fid doc) -> file_id file = fid ->
        flags_agree file)
  /\ (forall file, In file (toggleHunkSelection fid hid doc) -> file_id file = fid ->
        flags_agree file)
  /\ (consistent doc ->
        consistent (toggleFileSelection fid doc)
        /\ consistent (toggleHunkSelection fid hid doc))
  /\ (reachable doc -> consistent doc).
Proof.
  split; [apply selectAll_consistent|]. split; [|split; [|split]].
  - intros file Hin Hid. unfold toggleFileSelection in Hin.
    apply in_map_iff in Hin as (f & <- & _).
    destruct (String.eqb (file_id f) fid) eqn:E.
    + intros Hne. cbn in *. symmetry. apply forallb_set_selected.
      now apply map_nonempty in Hne.
    + apply String.eqb_neq in E. contradiction.
  - intros file Hin Hid. unfold toggleHunkSelection in Hin.
    apply in_map_iff in Hin as (f & <- & _).
    destruct (String.eqb (file_id f) fid) eqn:E.
    + intros _. reflexivity.
    + apply String.eqb_neq in E. contradiction.
  - intros H. split; [now apply toggleFile_consistent | now apply toggleHunk_consistent].
  - apply reachable_consistent.
Qed.

Lemma selection_consistent_witness :
  consistent (toggleHunkSelection "file-2" "hunk-1" bare_doc)
  /\ consistent (selectAll true partial_doc)
  /\ (forall file, In file (toggleFileSelection "file-1" partial_doc) ->
        file_id file = "file-1" -> flags_agree file).
Proof.
  split; [|split].
  - exact (proj2 (proj1 (proj2 (proj2 (proj2
             (selection_consistent bare_doc "file-2" "hunk-1" true))))
             bare_doc_consistent)).
  - exact (proj1 (selection_consistent partial_doc "file-1" "hunk-1" true)).
  - exact (proj1 (proj2 (selection_consistent partial_doc "file-1" "hunk-1" true))).
Defined.
